(** * Storyboard-to-video pipeline: a shallow embedding and its properties

    The development follows the source units of the pipeline, named here by
    the paths they are imported under:

    - [@/types/storyboard]        : the data model;
    - [@/lib/storyboard]          : [generateStoryboard] (module [Storyboard]);
    - [@/lib/video]               : [wrapText], [drawBackground], [loadImage]
                                    and [renderSceneToFrame] (module [Video]);
    - [@/hooks/useVideoGenerator] : the effect that loads the encoder, and
                                    [generate] (module [VideoGenerator]);
    - [app/api/upload/route]      : the upload route (module [UploadRoute]);
    - [components/home/HomePage]  : the handlers of the page that make, edit
                                    and render a storyboard (module
                                    [HomePage]);
    - the Instagram publish route : [POST], [createMediaContainer] and
                                    [publishMedia] (module [PublishRoute]).

    Conventions of the embedding.

    - A JavaScript string is a [string]: a sequence of bytes, non-ASCII text
      being held in UTF-8.  Only ASCII white space is recognised by [trim] and
      only ASCII letters are changed by [toUpperCase].
    - A JavaScript number is a rational ([Q]); the double-precision rounding
      of the source is not modelled.  NaN and infinities have no counterpart.
    - [Math.random], [crypto.randomUUID], the canvas, the image loader, the
      encoder binary, [Date.now] and [URL.createObjectURL] are capabilities
      handed to the functions that use them.
    - [put] of the blob store, [fetch] and the [Date] conversions of the
      publish route are capabilities as well; requests are recorded in the
      order they are made.
    - An exception is the [Err] case of [Result]; [await] is sequencing. *)

From Stdlib Require Import ZArith QArith Qround Qabs Qpower Lqa List String
  Ascii Bool Lia Sorted DecimalString Arith DecimalNat FinFun.
Import ListNotations.

Local Open Scope nat_scope.
Local Open Scope string_scope.

(* ------------------------------------------------------------------------- *)
(** ** The fragments of the JavaScript standard library the sources use *)
(* ------------------------------------------------------------------------- *)

Module JS.

(** [String.prototype.split] with a one-character separator. *)
Fixpoint split (sep : ascii) (s : string) : list string :=
  match s with
  | EmptyString => [EmptyString]
  | String c rest =>
      if Ascii.eqb c sep then EmptyString :: split sep rest
      else match split sep rest with
           | [] => [String c EmptyString]
           | w :: ws => String c w :: ws
           end
  end.

(** [Array.prototype.join]. *)
Definition join (sep : string) (l : list string) : string :=
  String.concat sep l.

(** White space as [trim] knows it: the characters WhiteSpace and
    LineTerminator of ECMAScript, in UTF-8.  One byte: U+0009 to U+000D and
    U+0020. *)
Definition is_space (c : ascii) : bool :=
  match nat_of_ascii c with
  | 9 | 10 | 11 | 12 | 13 | 32 => true
  | _ => false
  end.

(** Two bytes: U+00A0 ([C2 A0]). *)
Definition is_space2 (c1 c2 : ascii) : bool :=
  Ascii.eqb c1 "194" && Ascii.eqb c2 "160".

(** Three bytes: U+1680 ([E1 9A 80]); U+2000 to U+200A, U+2028, U+2029 and
    U+202F ([E2 80 80] to [E2 80 8A], [E2 80 A8], [E2 80 A9], [E2 80 AF]);
    U+205F ([E2 81 9F]); U+3000 ([E3 80 80]); U+FEFF ([EF BB BF]). *)
Definition is_space3 (c1 c2 c3 : ascii) : bool :=
  (Ascii.eqb c1 "225" && Ascii.eqb c2 "154" && Ascii.eqb c3 "128")
  || (Ascii.eqb c1 "226" && Ascii.eqb c2 "128"
      && (((128 <=? nat_of_ascii c3)%nat && (nat_of_ascii c3 <=? 138)%nat)
          || Ascii.eqb c3 "168" || Ascii.eqb c3 "169" || Ascii.eqb c3 "175"))
  || (Ascii.eqb c1 "226" && Ascii.eqb c2 "129" && Ascii.eqb c3 "159")
  || (Ascii.eqb c1 "227" && Ascii.eqb c2 "128" && Ascii.eqb c3 "128")
  || (Ascii.eqb c1 "239" && Ascii.eqb c2 "187" && Ascii.eqb c3 "191").

(** The number of bytes of the white-space character the string starts
    with, 0 when it starts with none. *)
Definition space_width (s : string) : nat :=
  match s with
  | String c1 r1 =>
      if is_space c1 then 1
      else match r1 with
           | String c2 r2 =>
               if is_space2 c1 c2 then 2
               else match r2 with
                    | String c3 _ => if is_space3 c1 c2 c3 then 3 else 0
                    | EmptyString => 0
                    end
           | EmptyString => 0
           end
  | EmptyString => 0
  end.

Fixpoint trimStart (s : string) : string :=
  match s with
  | String c1 r1 =>
      if is_space c1 then trimStart r1
      else match r1 with
           | String c2 r2 =>
               if is_space2 c1 c2 then trimStart r2
               else match r2 with
                    | String c3 r3 =>
                        if is_space3 c1 c2 c3 then trimStart r3 else s
                    | EmptyString => s
                    end
           | EmptyString => s
           end
  | EmptyString => s
  end.

(** Made of white space only. *)
Definition blank (s : string) : bool :=
  match trimStart s with
  | EmptyString => true
  | _ => false
  end.

(** What is left of the string up to its last character that is not white
    space. *)
Fixpoint trimEnd (s : string) : string :=
  match s with
  | EmptyString => EmptyString
  | String c rest => if blank s then EmptyString else String c (trimEnd rest)
  end.

Definition trim (s : string) : string := trimEnd (trimStart s).

(** Empty, or starting with something else than white space. *)
Definition starts_clean (s : string) : Prop := space_width s = 0.

(** Truthiness of a string: the empty string is the only falsy one. *)
Definition truthy (s : string) : bool :=
  match s with EmptyString => false | _ => true end.

(** [a || b] on strings. *)
Definition or_else (a b : string) : string := if truthy a then a else b.

Fixpoint drop (n : nat) (s : string) : string :=
  match n, s with
  | O, _ => s
  | S _, EmptyString => EmptyString
  | S n', String _ rest => drop n' rest
  end.

(** [s.replace(pat, rep)] with a string pattern: first occurrence only. *)
Fixpoint replace_first (pat rep s : string) : string :=
  if String.prefix pat s then rep ++ drop (String.length pat) s
  else match s with
       | EmptyString => EmptyString
       | String c rest => String c (replace_first pat rep rest)
       end.

Definition is_digit (c : ascii) : bool :=
  let n := nat_of_ascii c in (48 <=? n)%nat && (n <=? 57)%nat.

Definition is_alnum (c : ascii) : bool :=
  let n := nat_of_ascii c in
  is_digit c || ((65 <=? n)%nat && (n <=? 90)%nat)
             || ((97 <=? n)%nat && (n <=? 122)%nat).

Fixpoint skip_digits (s : string) : string :=
  match s with
  | EmptyString => EmptyString
  | String c rest => if is_digit c then skip_digits rest else s
  end.

(** [s.replace(/\d+%/, '')]: the leftmost run of digits that is directly
    followed by a percent sign is removed together with the sign. *)
Fixpoint strip_percent (s : string) : string :=
  match s with
  | EmptyString => EmptyString
  | String c rest =>
      if is_digit c then
        match skip_digits rest with
        | String "%"%char after => after
        | _ => String c (strip_percent rest)
        end
      else String c (strip_percent rest)
  end.

Fixpoint all_chars (p : ascii -> bool) (s : string) : bool :=
  match s with
  | EmptyString => true
  | String c rest => p c && all_chars p rest
  end.

(** [s.match(/\.[a-zA-Z0-9]+$/)]: the suffix made of a dot and at least one
    alphanumeric character, when the string ends with one. *)
Fixpoint match_extension (s : string) : option string :=
  match s with
  | EmptyString => None
  | String c rest =>
      if Ascii.eqb c "."%char && truthy rest && all_chars is_alnum rest
      then Some s
      else match_extension rest
  end.

(** [String(n)] for a non-negative integer and for an integer. *)
Definition string_of_nat (n : nat) : string :=
  NilZero.string_of_uint (Nat.to_uint n).

Definition string_of_Z (z : Z) : string :=
  NilZero.string_of_int (Z.to_int z).

Fixpoint repeat_char (c : ascii) (n : nat) : string :=
  match n with
  | O => EmptyString
  | S n' => String c (repeat_char c n')
  end.

(** [s.padStart(n, c)] with a one-character filler. *)
Definition padStart (n : nat) (c : ascii) (s : string) : string :=
  repeat_char c (n - String.length s) ++ s.

(** [Math.round]: the nearest integer, halves going up. *)
Definition round (x : Q) : Z := Qfloor (x + (1 # 2))%Q.

(** *** Numbers as doubles

    Where the code divides by a number it does not control, its numbers are
    taken as the doubles they are: a finite value, an infinity or NaN.  Zero
    has no sign here; the divisors met are the natural size of an image and
    2, neither of which is [-0]. *)
Inductive Num :=
| Fin (q : Q)
| PInf
| NInf
| NaN.

(** [floor (log2 x)] of a positive [x]. *)
Definition ilog2 (x : Q) : Z :=
  let e := (Z.log2 (Qnum x) - Z.log2 (Zpos (Qden x)))%Z in
  if Qle_bool (2 ^ e) x then e else (e - 1)%Z.

(** The nearest integer, the even one of two that are as near. *)
Definition round_half_even (x : Q) : Z :=
  let f := Qfloor x in
  match Qcompare (x - inject_Z f) (1 # 2) with
  | Lt => f
  | Gt => (f + 1)%Z
  | Eq => if Z.even f then f else (f + 1)%Z
  end.

(** The double nearest to [q]: 53 significant bits, exponents from -1022 on,
    ties to the even significand, and an infinity from [2^1024] on. *)
Definition double (q : Q) : Num :=
  if Qeq_bool q 0 then Fin 0
  else
    let e := Z.max (ilog2 (Qabs q)) (-1022) in
    let quantum := (2 ^ (e - 52))%Q in
    let r := Qred (inject_Z (round_half_even (q / quantum)) * quantum) in
    if Qle_bool (2 ^ 1024) (Qabs r)
    then (if Qle_bool 0 q then PInf else NInf)
    else Fin r.

Definition infinity (positive : bool) : Num := if positive then PInf else NInf.

(** [a / b]. *)
Definition div (a b : Num) : Num :=
  match a, b with
  | NaN, _ | _, NaN => NaN
  | Fin x, Fin y =>
      if Qeq_bool y 0
      then (if Qeq_bool x 0 then NaN else infinity (Qle_bool 0 x))
      else double (x / y)
  | Fin _, _ => Fin 0
  | PInf, Fin y => infinity (Qle_bool 0 y)
  | NInf, Fin y => infinity (negb (Qle_bool 0 y))
  | _, _ => NaN
  end.

(** [a * b]. *)
Definition mul (a b : Num) : Num :=
  match a, b with
  | NaN, _ | _, NaN => NaN
  | Fin x, Fin y => double (x * y)
  | Fin x, PInf | PInf, Fin x =>
      if Qeq_bool x 0 then NaN else infinity (Qle_bool 0 x)
  | Fin x, NInf | NInf, Fin x =>
      if Qeq_bool x 0 then NaN else infinity (negb (Qle_bool 0 x))
  | PInf, PInf | NInf, NInf => PInf
  | PInf, NInf | NInf, PInf => NInf
  end.

(** [a - b]. *)
Definition sub (a b : Num) : Num :=
  match a, b with
  | NaN, _ | _, NaN => NaN
  | Fin x, Fin y => double (x - y)
  | PInf, PInf | NInf, NInf => NaN
  | PInf, _ | _, NInf => PInf
  | NInf, _ | _, PInf => NInf
  end.

(** [Math.max(a, b)]. *)
Definition max (a b : Num) : Num :=
  match a, b with
  | NaN, _ | _, NaN => NaN
  | PInf, _ | _, PInf => PInf
  | NInf, x | x, NInf => x
  | Fin x, Fin y => if Qle_bool x y then Fin y else Fin x
  end.

(** The conversion of a number to an unsigned long: no fraction, modulo
    [2^32], and 0 for what is not finite. *)
Definition toUint32 (x : Num) : Z :=
  match x with
  | Fin q => ((if Qle_bool 0 q then Qfloor q else Qceiling q) mod 2 ^ 32)%Z
  | _ => 0%Z
  end.

(** What [canvas.width] or [canvas.height] is once [x] was assigned to it:
    the unsigned long, or the default of the attribute beyond [2^31 - 1]. *)
Definition canvas_dim (default : Z) (x : Num) : Z :=
  let n := toUint32 x in
  if (n <=? 2147483647)%Z then n else default.

(** [x.toFixed(2)] below 10^21: the sign, then the nearest multiple of
    1/100 of the magnitude (the larger one on a tie), with two decimals. *)
Definition toFixed2 (x : Q) : string :=
  let n := Qfloor (Qabs x * 100 + (1 # 2))%Q in
  (if Qle_bool 0%Q x then "" else "-")
    ++ string_of_Z (n / 100)%Z ++ "."
    ++ padStart 2 "0" (string_of_Z (n mod 100)%Z).

(** [new TextEncoder().encode(s)]. *)
Definition encode (s : string) : list Byte.byte := list_byte_of_string s.

Definition lower_char (c : ascii) : ascii :=
  let n := nat_of_ascii c in
  if (65 <=? n)%nat && (n <=? 90)%nat then ascii_of_nat (n + 32) else c.

(** [s.toLowerCase()] as [sanitizeFileName], its one caller, sees it.  The
    ASCII letters are lower-cased; U+0130 ([C4 B0]) becomes [i] followed by
    U+0307 ([CC 87]) and U+212A, the Kelvin sign ([E2 84 AA]), becomes [k]:
    these are the two characters outside ASCII whose lower case has an ASCII
    character in it.  Any other character outside ASCII is kept as it is,
    where the source has its lower case, which is outside ASCII too: the
    caller turns both into dashes and collapses them. *)
Fixpoint toLowerCase (s : string) : string :=
  match s with
  | EmptyString => EmptyString
  | String c1 r1 =>
      match r1 with
      | String c2 r2 =>
          if Ascii.eqb c1 "196" && Ascii.eqb c2 "176" then
            String "i" (String "204" (String "135" (toLowerCase r2)))
          else
            match r2 with
            | String c3 r3 =>
                if Ascii.eqb c1 "226" && Ascii.eqb c2 "132"
                   && Ascii.eqb c3 "170"
                then String "k" (toLowerCase r3)
                else String (lower_char c1) (toLowerCase r1)
            | EmptyString => String (lower_char c1) (toLowerCase r1)
            end
      | EmptyString => String (lower_char c1) EmptyString
      end
  end.

(** The characters of the class [[a-z0-9.-]]. *)
Definition is_name_char (c : ascii) : bool :=
  let n := nat_of_ascii c in
  ((97 <=? n)%nat && (n <=? 122)%nat) || is_digit c
    || Ascii.eqb c "."%char || Ascii.eqb c "-"%char.

(** [s.replace(/[^a-z0-9.-]/g, '-')].  The pattern has no [u] flag: every
    UTF-16 code unit outside the class becomes a dash, so that a character
    of two or three bytes gives one dash and a character of four bytes, a
    surrogate pair, gives two.  [inside] tells that the bytes that come
    next may continue a character that has given its dashes. *)
Fixpoint replace_units (inside : bool) (s : string) : string :=
  match s with
  | EmptyString => EmptyString
  | String c rest =>
      let n := nat_of_ascii c in
      if (n <? 128)%nat then
        String (if is_name_char c then c else "-"%char)
               (replace_units false rest)
      else if (n <? 192)%nat then
        if inside then replace_units true rest
        else String "-" (replace_units true rest)
      else if (n <? 240)%nat then String "-" (replace_units true rest)
      else String "-" (String "-" (replace_units true rest))
  end.

Definition replace_unsafe (s : string) : string := replace_units false s.


(** [s.replace(/-+/g, '-')]: of a run of dashes only the last one stays. *)
Fixpoint collapse_dashes (s : string) : string :=
  match s with
  | EmptyString => EmptyString
  | String c rest =>
      if Ascii.eqb c "-"%char then
        match rest with
        | String c' _ =>
            if Ascii.eqb c' "-"%char then collapse_dashes rest
            else String c (collapse_dashes rest)
        | EmptyString => String c EmptyString
        end
      else String c (collapse_dashes rest)
  end.

(** No dash is followed by a dash. *)
Fixpoint no_double_dash (s : string) : bool :=
  match s with
  | EmptyString => true
  | String c rest =>
      match rest with
      | String c' _ =>
          negb (Ascii.eqb c "-"%char && Ascii.eqb c' "-"%char)
          && no_double_dash rest
      | EmptyString => true
      end
  end.

End JS.

(* ------------------------------------------------------------------------- *)
(** ** [src/types/storyboard.ts] *)
(* ------------------------------------------------------------------------- *)

Inductive VideoTone := inspirational | educational | playful | direct.

Inductive VideoLength := short | medium | long.

Module StoryBrief.
Record t := mk {
  idea : string;
  audience : string;
  tone : VideoTone;
  callToAction : string;
  length : VideoLength;
}.
End StoryBrief.

Inductive BackgroundStyle :=
| gradient (value : string)
| image (value : string)
| color (value : string).

Inductive Overlay := light | dark.

Record Scene := mkScene {
  id : string;
  title : string;
  narration : string;
  supportingPoint : string;
  duration : Q;
  background : BackgroundStyle;
  overlay : Overlay;
  cta : option string;
}.

(* ------------------------------------------------------------------------- *)
(** ** [src/lib/storyboard.ts] *)
(* ------------------------------------------------------------------------- *)

Module Storyboard.

Definition gradients : list (string * string) :=
  [ ("Aurora",
     "linear-gradient(135deg, rgba(17,24,39,1) 0%, rgba(59,130,246,1) 50%, rgba(236,72,153,1) 100%)");
    ("Sunrise",
     "linear-gradient(135deg, rgba(248,113,113,1) 0%, rgba(253,186,116,1) 52%, rgba(163,230,53,1) 100%)");
    ("Neon Night",
     "linear-gradient(135deg, rgba(124,58,237,1) 0%, rgba(56,189,248,1) 45%, rgba(34,197,94,1) 100%)");
    ("Sunkissed",
     "linear-gradient(135deg, rgba(251,146,60,1) 0%, rgba(249,115,22,1) 45%, rgba(244,63,94,1) 100%)");
    ("Slate",
     "linear-gradient(135deg, rgba(15,23,42,1) 0%, rgba(71,85,105,1) 52%, rgba(148,163,184,1) 100%)") ].

Record ToneProfile := mkToneProfile {
  hook : list string;
  support : list string;
  close : list string;
  profile_overlay : Overlay;
}.

Definition toneProfiles (t : VideoTone) : ToneProfile :=
  match t with
  | inspirational =>
      {| hook :=
           [ "Imagine what happens when creativity meets automation.";
             "This is your sign to share your next big vision.";
             "Turn ideas into impact with the right momentum." ];
         support :=
           [ "Show up consistently with content that energizes your audience.";
             "Pair your message with visuals that spark emotion.";
             "Deliver storytelling that keeps people watching to the very end." ];
         close :=
           [ "Ready to go from idea to post in minutes?";
             "Let your brand speak with clarity every time you publish.";
             "It is your turn to lead the conversation on your niche." ];
         profile_overlay := light |}
  | educational =>
      {| hook :=
           [ "Here is how to simplify your content workflow.";
             "Let’s break down a smarter way to plan your videos.";
             "Stop guessing what to post—follow this framework." ];
         support :=
           [ "Structure your message with concise talking points and visuals.";
             "Automated editing keeps your video polished and on-brand.";
             "Optimize watch time with pacing tuned per segment." ];
         close :=
           [ "Put this playbook to work on your next post.";
             "Level-up your consistency without burning out.";
             "Teach, inspire, and convert with videos that land." ];
         profile_overlay := dark |}
  | playful =>
      {| hook :=
           [ "Let’s turn your bold ideas into scroll-stopping reels.";
             "Bring the fun back into posting with effortless automation.";
             "Your audience is ready—let’s surprise them today." ];
         support :=
           [ "Auto-generated scenes keep the energy upbeat.";
             "Switch between hooks, payoffs, and CTAs seamlessly.";
             "Dynamic backgrounds do the heavy lifting for you." ];
         close :=
           [ "It is time to drop your next viral moment.";
             "Press publish and own the spotlight.";
             "Stay playful, stay consistent, stay memorable." ];
         profile_overlay := light |}
  | direct =>
      {| hook :=
           [ "Stop losing time editing videos from scratch.";
             "Here is the automation stack your Instagram needs.";
             "Hit publish with confidence on every campaign." ];
         support :=
           [ "AI-assisted scripts map directly to compelling visuals.";
             "Batch-create videos, then auto-schedule them on Instagram.";
             "Analytics-ready chapters let you track what resonates." ];
         close :=
           [ "Plug this system into your workflow today.";
             "Scale your posting cadence without sacrificing quality.";
             "Own your niche with consistent, high-impact content." ];
         profile_overlay := dark |}
  end.

Definition durationsByLength (l : VideoLength) : list Q :=
  match l with
  | short => [4; 4; 5]
  | medium => [4; 5; 6; 5]
  | long => [4; 5; 6; 4; 6]
  end%Q.

(** The string a tone has inside a template literal. *)
Definition tone_name (t : VideoTone) : string :=
  match t with
  | inspirational => "inspirational"
  | educational => "educational"
  | playful => "playful"
  | direct => "direct"
  end.

Definition supportingDetails : list (StoryBrief.t -> string) :=
  [ (fun brief =>
       "Built specifically for "
         ++ JS.or_else (StoryBrief.audience brief) "modern creators"
         ++ ", every scene focuses on "
         ++ JS.or_else (StoryBrief.callToAction brief) "your CTA" ++ ".");
    (fun brief =>
       "Optimized pacing keeps watch-time high even on "
         ++ match StoryBrief.length brief with
            | short => "snackable"
            | _ => "longer"
            end
         ++ " clips.");
    (fun _brief =>
       "Smart overlays auto-balance contrast so captions always stay readable.");
    (fun _brief =>
       "Export-ready for Instagram Reels, Stories, and carousel covers.");
    (fun brief =>
       "Fine-tuned tone to match a " ++ tone_name (StoryBrief.tone brief)
         ++ " voice without extra revisions.") ].

(** *** The random source

    One value of [Math.random()] is a fraction [num / (num + slack + 1)],
    which ranges over the rationals of the interval [0, 1).  The source of
    randomness is the sequence of the values the successive calls return;
    the state threaded through the generator is the number of calls made. *)

Record Draw := mkDraw { num : nat; slack : nat }.

Definition RandomSource := nat -> Draw.

Definition Rand (A : Type) : Type := nat -> A * nat.

Definition ret {A} (a : A) : Rand A := fun n => (a, n).

Definition bind {A B} (m : Rand A) (k : A -> Rand B) : Rand B :=
  fun n => let (a, n') := m n in k a n'.

(** [Math.floor(Math.random() * len)]. *)
Definition random_index (src : RandomSource) (len : nat) : Rand nat :=
  fun n =>
    let d := src n in
    ((num d * len) / (num d + slack d + 1), S n).

(** [pick(items)]; [undef] stands for the [undefined] an empty array gives. *)
Definition pick {T} (src : RandomSource) (undef : T) (items : list T) : Rand T :=
  bind (random_index src (List.length items))
       (fun i => ret (nth i items undef)).

Definition pickGradient (src : RandomSource) : Rand BackgroundStyle :=
  bind (pick src ("", "") gradients)
       (fun g => ret (gradient (snd g))).

Definition storyboardGradients := gradients.

(** The callback handed to [durations.map] in [generateStoryboard];
    [len] is [durations.length]. *)
Definition scene_at (src : RandomSource) (brief : StoryBrief.t)
    (baseIdSegment : string) (len : nat) (duration : Q) (index : nat)
  : Rand Scene :=
  let toneProfile := toneProfiles (StoryBrief.tone brief) in
  let id := baseIdSegment ++ "-" ++ JS.string_of_nat index in
  if Nat.eqb index 0 then
    bind (pick src "" (hook toneProfile)) (fun narration =>
    bind (pickGradient src) (fun background =>
    ret {| id := id;
           title := JS.or_else (StoryBrief.idea brief) "Idea Launchpad";
           narration := narration;
           supportingPoint :=
             nth (index mod List.length supportingDetails) supportingDetails
                 (fun _ => "") brief;
           duration := duration;
           background := background;
           overlay := profile_overlay toneProfile;
           cta := None |}))
  else if Nat.eqb index (len - 1) then
    bind (pick src "" (close toneProfile)) (fun narration =>
    bind (pickGradient src) (fun background =>
    ret {| id := id;
           title := "Close & Convert";
           narration := narration;
           supportingPoint :=
             if JS.truthy (StoryBrief.callToAction brief)
             then "Next step: " ++ StoryBrief.callToAction brief
             else "Drop your CTA here before publishing.";
           duration := duration;
           background := background;
           overlay := profile_overlay toneProfile;
           cta := Some (StoryBrief.callToAction brief) |}))
  else
    bind (pick src "" (support toneProfile)) (fun narration =>
    bind (pickGradient src) (fun background =>
    ret {| id := id;
           title := if Nat.eqb index 1 then "Show The Payoff" else "Keep The Energy";
           narration := narration;
           supportingPoint :=
             nth (index mod List.length supportingDetails) supportingDetails
                 (fun _ => "") brief;
           duration := duration;
           background := background;
           overlay := profile_overlay toneProfile;
           cta := None |})).

(** [Array.prototype.map] with an effectful callback, from position [index]. *)
Fixpoint map_from {A B} (f : A -> nat -> Rand B) (l : list A) (index : nat)
  : Rand (list B) :=
  match l with
  | [] => ret []
  | a :: rest =>
      bind (f a index) (fun b =>
      bind (map_from f rest (S index)) (fun bs => ret (b :: bs)))
  end.

(** [generateStoryboard(brief)]; [uuid] is what [crypto.randomUUID()]
    returns. *)
Definition generateStoryboard (src : RandomSource) (uuid : string)
    (brief : StoryBrief.t) : Rand (list Scene) :=
  let durations := durationsByLength (StoryBrief.length brief) in
  let baseIdSegment := hd "" (JS.split "-" uuid) in
  map_from (scene_at src brief baseIdSegment (List.length durations))
           durations 0.

End Storyboard.

(* ------------------------------------------------------------------------- *)
(** ** Exceptions *)
(* ------------------------------------------------------------------------- *)

(** What a [throw] or a rejected promise carries. *)
Inductive Exn :=
| Error (message : string)          (* [new Error(message)] of the sources *)
| DOMException (name : string)      (* raised by the canvas *)
| EncoderError (message : string).  (* raised by the encoder library *)

Inductive Result (A : Type) :=
| Ok (a : A)
| Err (e : Exn).

Arguments Ok {A} a.
Arguments Err {A} e.

(* ------------------------------------------------------------------------- *)
(** ** [src/lib/video.ts] *)
(* ------------------------------------------------------------------------- *)

Module Video.

Record RenderOptions := mkRenderOptions {
  opt_width : option Q;
  opt_height : option Q;
  opt_fontFamily : option string;
}.

Definition no_options : RenderOptions :=
  {| opt_width := None; opt_height := None; opt_fontFamily := None |}.

Definition dquote : string := String (ascii_of_nat 34) EmptyString.

Definition default_width : Q := 1080.
Definition default_height : Q := 1920.
Definition default_fontFamily : string :=
  dquote ++ "Inter" ++ dquote ++ ", " ++ dquote ++ "Helvetica Neue" ++ dquote
    ++ ", Helvetica, Arial, sans-serif".

Record OverlayColors := mkOverlayColors {
  heading : string;
  body : string;
  accent : string;
}.

Definition overlayColors (o : Overlay) : OverlayColors :=
  match o with
  | light => {| heading := "#F8FAFC"; body := "#E2E8F0";
                accent := "rgba(15, 23, 42, 0.55)" |}
  | dark => {| heading := "#0F172A"; body := "#1E293B";
               accent := "rgba(248, 250, 252, 0.55)" |}
  end.

(** *** The canvas

    A canvas is modelled by its drawing state and by the list of the
    operations that painted it, oldest first. *)

Record Gradient := mkGradient {
  x0 : Q; y0 : Q; x1 : Q; y1 : Q;
  stops : list (Q * string);
}.

Inductive FillStyle :=
| ColorStyle (css : string)
| GradientStyle (g : Gradient).

(** The image at [src] drawn at the origin with the given size. *)
Record ScaledImage := mkScaledImage {
  image_src : string;
  targetWidth : Q;
  targetHeight : Q;
}.

(** The temporary canvas of the image branch: its size in pixels and the
    image drawn on it, if one was. *)
Record TmpCanvas := mkTmpCanvas {
  canvas_width : Z;
  canvas_height : Z;
  scaled : option ScaledImage;
}.

Inductive DrawOp :=
| FillRect (style : FillStyle) (x y w h : Q)
| FillText (style : FillStyle) (font align baseline text : string) (x y : Q)
| DrawImage (source : TmpCanvas) (sx sy sw sh dx dy dw dh : Q).

Record Ctx := mkCtx {
  fillStyle : FillStyle;
  font : string;
  textAlign : string;
  textBaseline : string;
  drawn : list DrawOp;
}.

Definition fresh_ctx : Ctx :=
  {| fillStyle := ColorStyle "#000000"; font := "10px sans-serif";
     textAlign := "start"; textBaseline := "alphabetic"; drawn := [] |}.

(** The capabilities of the browser the renderer relies on. *)
Record Env := mkEnv {
  (* [canvas.getContext('2d')] succeeds on a canvas of this many pixels *)
  getContext : Z -> Z -> bool;
  (* the natural size of the image at a URL, when it loads *)
  fetchImage : string -> option (nat * nat);
  (* [ctx.measureText(text).width] under a font *)
  measureText : string -> string -> Q;
  (* the string parses as a CSS colour *)
  validColor : string -> bool;
  (* [s.toUpperCase()], with the Unicode tables of the engine *)
  toUpperCase : string -> string;
  (* [canvas.toDataURL('image/png')] fetched as bytes *)
  toPNG : Z -> Z -> list DrawOp -> list Byte.byte;
}.

(** [ctx.fillStyle = css]: a string that is not a colour is ignored. *)
Definition set_fillColor (env : Env) (css : string) (ctx : Ctx) : Ctx :=
  if validColor env css
  then {| fillStyle := ColorStyle css; font := font ctx;
          textAlign := textAlign ctx; textBaseline := textBaseline ctx;
          drawn := drawn ctx |}
  else ctx.

Definition set_fillGradient (g : Gradient) (ctx : Ctx) : Ctx :=
  {| fillStyle := GradientStyle g; font := font ctx;
     textAlign := textAlign ctx; textBaseline := textBaseline ctx;
     drawn := drawn ctx |}.

Definition set_font (f : string) (ctx : Ctx) : Ctx :=
  {| fillStyle := fillStyle ctx; font := f;
     textAlign := textAlign ctx; textBaseline := textBaseline ctx;
     drawn := drawn ctx |}.

Definition set_textAlign (a : string) (ctx : Ctx) : Ctx :=
  {| fillStyle := fillStyle ctx; font := font ctx;
     textAlign := a; textBaseline := textBaseline ctx;
     drawn := drawn ctx |}.

Definition set_textBaseline (b : string) (ctx : Ctx) : Ctx :=
  {| fillStyle := fillStyle ctx; font := font ctx;
     textAlign := textAlign ctx; textBaseline := b;
     drawn := drawn ctx |}.

Definition paint (op : DrawOp) (ctx : Ctx) : Ctx :=
  {| fillStyle := fillStyle ctx; font := font ctx;
     textAlign := textAlign ctx; textBaseline := textBaseline ctx;
     drawn := (drawn ctx ++ [op])%list |}.

Definition fillRect (x y w h : Q) (ctx : Ctx) : Ctx :=
  paint (FillRect (fillStyle ctx) x y w h) ctx.

Definition fillText (text : string) (x y : Q) (ctx : Ctx) : Ctx :=
  paint (FillText (fillStyle ctx) (font ctx) (textAlign ctx)
                  (textBaseline ctx) text x y) ctx.

(** *** [wrapText] *)

Record Wrapped := mkWrapped {
  lines : list string;
  totalHeight : Q;
}.

(** [a > b] on numbers. *)
Definition gt (a b : Q) : bool := negb (Qle_bool a b).

(** The body of [words.forEach]: the state is [(line, lines)]. *)
Definition wrap_word (measure : string -> Q) (maxWidth : Q)
    (st : string * list string) (word : string) : string * list string :=
  let (line, lines) := st in
  let testLine := line ++ word ++ " " in
  if gt (measure testLine) maxWidth && JS.truthy line
  then (word ++ " ", (lines ++ [JS.trim line])%list)
  else (testLine, lines).

Definition wrapText (measure : string -> Q) (text : string)
    (maxWidth lineHeight : Q) : Wrapped :=
  let words := JS.split " " text in
  let (line, lines) := fold_left (wrap_word measure maxWidth) words ("", []) in
  let lines := if JS.truthy line then (lines ++ [JS.trim line])%list else lines in
  {| lines := lines;
     totalHeight := (inject_Z (Z.of_nat (List.length lines)) * lineHeight)%Q |}.

(** *** [drawBackground] *)

Definition fallback_stops : list string := ["#0f172a"; "#1e293b"; "#3b82f6"].

(** The tokens [match] of the gradient branch. *)
Definition gradient_tokens (value : string) : list string :=
  map JS.trim
      (JS.split ","
         (JS.replace_first ")" ""
            (JS.replace_first "linear-gradient(" "" value))).

(** The list [colors] of the gradient branch. *)
Definition gradient_colors (value : string) : list string :=
  let tokens := gradient_tokens value in
  if Nat.leb 3 (List.length tokens)
  then map (fun token => JS.trim (JS.strip_percent token)) (tl tokens)
  else fallback_stops.

(** [gradient.addColorStop(offset, color)]: a colour that does not parse
    raises a [SyntaxError]. *)
Definition addColorStop (env : Env) (offset : Q) (css : string) (g : Gradient)
  : Result Gradient :=
  if validColor env css
  then Ok {| x0 := x0 g; y0 := y0 g; x1 := x1 g; y1 := y1 g;
             stops := (stops g ++ [(offset, css)])%list |}
  else Err (DOMException "SyntaxError").

(** [colors.forEach((color, index) => addColorStop(...))], from [index];
    [len] is [colors.length]. *)
Fixpoint addColorStops (env : Env) (len : nat) (colors : list string)
    (index : nat) (g : Gradient) : Result Gradient :=
  match colors with
  | [] => Ok g
  | css :: rest =>
      match addColorStop env
              (inject_Z (Z.of_nat index)
                 / inject_Z (Z.of_nat (Nat.max (len - 1) 1)))%Q css g with
      | Ok g' => addColorStops env len rest (S index) g'
      | Err e => Err e
      end
  end.

(** [loadImage(src)]. *)
Definition loadImage (env : Env) (src : string) : Result (nat * nat) :=
  match fetchImage env src with
  | Some size => Ok size
  | None => Err (Error ("Failed to load image " ++ src))
  end.

(** [drawImage] returns at once when one of its arguments is not finite.

    [tmpCtx.drawImage(image, 0, 0, targetWidth, targetHeight)]: with finite
    arguments, an image whose natural width or height is 0 is not drawn. *)
Definition scale_image (src : string) (natural : nat * nat)
    (targetWidth targetHeight : JS.Num) : option ScaledImage :=
  match targetWidth, targetHeight with
  | JS.Fin tw, JS.Fin th =>
      if Nat.eqb (fst natural) 0 || Nat.eqb (snd natural) 0 then None
      else Some {| image_src := src; targetWidth := tw; targetHeight := th |}
  | _, _ => None
  end.

(** [ctx.drawImage(tmpCanvas, offsetX, offsetY, width, height, 0, 0, width,
    height)]: with finite arguments, a source canvas without pixels raises
    an [InvalidStateError], and a source rectangle without width or height
    paints nothing. *)
Definition draw_canvas (tmpCanvas : TmpCanvas) (offsetX offsetY : JS.Num)
    (width height : Q) (ctx : Ctx) : Result Ctx :=
  match offsetX, offsetY with
  | JS.Fin ox, JS.Fin oy =>
      if (canvas_width tmpCanvas =? 0)%Z || (canvas_height tmpCanvas =? 0)%Z
      then Err (DOMException "InvalidStateError")
      else if Qeq_bool width 0 || Qeq_bool height 0 then Ok ctx
      else Ok (paint (DrawImage tmpCanvas ox oy width height 0 0 width height)
                     ctx)
  | _, _ => Ok ctx
  end.

Definition drawBackground (env : Env) (ctx : Ctx) (scene : Scene)
    (width height : Q) : Result Ctx :=
  match background scene with
  | gradient value =>
      let g := {| x0 := 0; y0 := 0; x1 := width; y1 := height; stops := [] |} in
      let colors := gradient_colors value in
      match addColorStops env (List.length colors) colors 0 g with
      | Ok g' => Ok (fillRect 0 0 width height (set_fillGradient g' ctx))
      | Err e => Err e
      end
  | color value =>
      Ok (fillRect 0 0 width height (set_fillColor env value ctx))
  | image value =>
      match loadImage env value with
      | Err e => Err e
      | Ok (iw, ih) =>
          let image_width := JS.Fin (inject_Z (Z.of_nat iw)) in
          let image_height := JS.Fin (inject_Z (Z.of_nat ih)) in
          let ratio :=
            JS.max (JS.div (JS.Fin width) image_width)
                   (JS.div (JS.Fin height) image_height) in
          let targetWidth := JS.mul image_width ratio in
          let targetHeight := JS.mul image_height ratio in
          let offsetX := JS.div (JS.sub targetWidth (JS.Fin width)) (JS.Fin 2) in
          let offsetY := JS.div (JS.sub targetHeight (JS.Fin height)) (JS.Fin 2) in
          let tmpWidth := JS.canvas_dim 300 targetWidth in
          let tmpHeight := JS.canvas_dim 150 targetHeight in
          if getContext env tmpWidth tmpHeight
          then
            let tmpCanvas :=
              {| canvas_width := tmpWidth; canvas_height := tmpHeight;
                 scaled := scale_image value (iw, ih) targetWidth targetHeight |} in
            draw_canvas tmpCanvas offsetX offsetY width height ctx
          else Err (Error
                 "Cannot initialize canvas context for background image")
      end
  end.

(** *** [renderSceneToFrame] *)

(** [lines.forEach((line, index) => ctx.fillText(line, x, top + index * step))],
    from [index]. *)
Fixpoint fillLines (ls : list string) (x top : Q) (step : Z) (index : nat)
    (ctx : Ctx) : Ctx :=
  match ls with
  | [] => ctx
  | line :: rest =>
      fillLines rest x top step (S index)
        (fillText line x (top + inject_Z (Z.of_nat index) * inject_Z step)%Q ctx)
  end.

Definition font_spec (weight : string) (px : Z) (fontFamily : string) : string :=
  weight ++ " " ++ JS.string_of_Z px ++ "px " ++ fontFamily.

(** The block guarded by [if (scene.cta)]. *)
Definition drawCta (env : Env) (scene : Scene) (label : string)
    (width height : Q) (fontFamily : string) (blockEnd : Q) (ctx : Ctx) : Ctx :=
  let ctaY := (blockEnd + height * (5 # 100))%Q in
  let buttonWidth := (width * (6 # 10))%Q in
  let buttonHeight := inject_Z (JS.round (height * (7 # 100))) in
  let buttonX := (width / 2 - buttonWidth / 2)%Q in
  let ctx := set_fillColor env
               (match overlay scene with
                | light => "rgba(15, 23, 42, 0.85)"
                | dark => "#F8FAFC"
                end) ctx in
  let ctx := fillRect buttonX ctaY buttonWidth buttonHeight ctx in
  let ctx := set_fillColor env
               (match overlay scene with
                | light => "#F8FAFC"
                | dark => "#0F172A"
                end) ctx in
  let ctx := set_font (font_spec "700" (JS.round (width * (4 # 100))) fontFamily)
               ctx in
  let ctx := set_textAlign "center" ctx in
  let ctx := set_textBaseline "middle" ctx in
  let ctx := fillText label (width / 2) (ctaY + buttonHeight / 2)%Q ctx in
  let ctx := set_textAlign "left" ctx in
  set_textBaseline "alphabetic" ctx.

(** The text blocks and the optional button, painted over the background. *)
Definition drawForeground (env : Env) (scene : Scene) (width height : Q)
    (fontFamily : string) (ctx : Ctx) : Ctx :=
  let colors := overlayColors (overlay scene) in
  let paddingX := (width * (8 # 100))%Q in
  let paddingTop := (height * (15 # 100))%Q in
  let ctx := set_fillColor env (accent colors) ctx in
  let ctx := fillRect paddingX (paddingTop - 40)%Q (width - paddingX * 2)%Q
               (height * (55 # 100))%Q ctx in
  let ctx := set_fillColor env (heading colors) ctx in
  let ctx := set_font (font_spec "700" (JS.round (width * (6 # 100))) fontFamily)
               ctx in
  let ctx := set_textBaseline "top" ctx in
  let headingMetrics :=
    wrapText (measureText env (font ctx)) (toUpperCase env (title scene))
             (width - paddingX * 2 - 80)%Q
             (inject_Z (JS.round (width * (7 # 100)))) in
  let ctx := fillLines (lines headingMetrics) (paddingX + 40)%Q paddingTop
               (JS.round (width * (7 # 100))) 0 ctx in
  let bodyTop :=
    (paddingTop + totalHeight headingMetrics + height * (4 # 100))%Q in
  let ctx := set_font (font_spec "500" (JS.round (width * (45 # 1000))) fontFamily)
               ctx in
  let ctx := set_fillColor env (body colors) ctx in
  let narrationMetrics :=
    wrapText (measureText env (font ctx)) (narration scene)
             (width - paddingX * 2 - 80)%Q
             (inject_Z (JS.round (width * (55 # 1000)))) in
  let ctx := fillLines (lines narrationMetrics) (paddingX + 40)%Q bodyTop
               (JS.round (width * (55 # 1000))) 0 ctx in
  let ctx := set_font (font_spec "400" (JS.round (width * (35 # 1000))) fontFamily)
               ctx in
  let ctx := set_fillColor env (heading colors) ctx in
  let supportingTop :=
    (bodyTop + totalHeight narrationMetrics + height * (3 # 100))%Q in
  let supportingMetrics :=
    wrapText (measureText env (font ctx)) (supportingPoint scene)
             (width - paddingX * 2 - 80)%Q
             (inject_Z (JS.round (width * (45 # 1000)))) in
  let ctx := fillLines (lines supportingMetrics) (paddingX + 40)%Q supportingTop
               (JS.round (width * (45 # 1000))) 0 ctx in
  match cta scene with
  | Some label =>
      if JS.truthy label
      then drawCta env scene label width height fontFamily
             (supportingTop + totalHeight supportingMetrics)%Q ctx
      else ctx
  | None => ctx
  end.



(** The pixels of the canvas once [canvas.width = width] and
    [canvas.height = height] are done. *)
Definition canvas_width_of (width : Q) : Z := JS.canvas_dim 300 (JS.Fin width).
Definition canvas_height_of (height : Q) : Z := JS.canvas_dim 150 (JS.Fin height).

(** [renderSceneToFrame] up to the serialisation of the canvas: the state of
    the canvas when [toDataURL] is called. *)
Definition paintScene (env : Env) (scene : Scene) (options : RenderOptions)
  : Result Ctx :=
  let width := match opt_width options with Some w => w | None => default_width end in
  let height := match opt_height options with Some h => h | None => default_height end in
  let fontFamily :=
    match opt_fontFamily options with Some f => f | None => default_fontFamily end in
  if getContext env (canvas_width_of width) (canvas_height_of height) then
    match drawBackground env fresh_ctx scene width height with
    | Ok ctx => Ok (drawForeground env scene width height fontFamily ctx)
    | Err e => Err e
    end
  else Err (Error "Unable to create canvas context").

Definition renderSceneToFrame (env : Env) (scene : Scene)
    (options : RenderOptions) : Result (list Byte.byte) :=
  match paintScene env scene options with
  | Ok ctx =>
      Ok (toPNG env
            (canvas_width_of
               (match opt_width options with Some w => w | None => default_width end))
            (canvas_height_of
               (match opt_height options with Some h => h | None => default_height end))
            (drawn ctx))
  | Err e => Err e
  end.

(** *** Reading a painted canvas *)

(** A text drawn with [textAlign = 'center']. *)
Definition centered (op : DrawOp) : bool :=
  match op with
  | FillText _ _ align _ _ _ _ => String.eqb align "center"
  | _ => false
  end.

(** A button carrying [label]: a filled rectangle directly followed by the
    label drawn centred on the middle of that rectangle. *)
Inductive draws_button (label : string) : list DrawOp -> Prop :=
| button_here bstyle x y w h tstyle font tx ty rest :
    (tx == x + w / 2)%Q ->
    (ty == y + h / 2)%Q ->
    draws_button label
      (FillRect bstyle x y w h
         :: FillText tstyle font "center" "middle" label tx ty :: rest)
| button_later op ops :
    draws_button label ops -> draws_button label (op :: ops).

(** The rectangles of [ops] that carry [label]: each is directly followed by
    the label, drawn centred on its middle. *)
Fixpoint labelled_rects (label : string) (ops : list DrawOp)
  : list (Q * Q * Q * Q) :=
  match ops with
  | [] => []
  | op :: rest =>
      match op, rest with
      | FillRect _ x y w h, FillText _ _ align baseline text tx ty :: _ =>
          if String.eqb align "center" && String.eqb baseline "middle"
             && String.eqb text label
             && Qeq_bool tx (x + w / 2) && Qeq_bool ty (y + h / 2)
          then (x, y, w, h) :: labelled_rects label rest
          else labelled_rects label rest
      | _, _ => labelled_rects label rest
      end
  end.

(** A rectangle that has an area and lies within the canvas. *)
Definition within (width height : Q) (r : Q * Q * Q * Q) : bool :=
  let '(x, y, w, h) := r in
  negb (Qle_bool w 0) && negb (Qle_bool h 0)
  && Qle_bool 0 x && Qle_bool 0 y
  && Qle_bool (x + w) width && Qle_bool (y + h) height.

(** The frame shows a button carrying [label]. *)
Definition shows_button (width height : Q) (label : string)
    (ops : list DrawOp) : bool :=
  existsb (within width height) (labelled_rects label ops).





(** No centred text was drawn and none would be drawn now. *)
Definition uncentered (ctx : Ctx) : Prop :=
  String.eqb (textAlign ctx) "center" = false
  /\ forallb (fun op => negb (centered op)) (drawn ctx) = true.

(** The scene with its [cta] property removed. *)
Definition without_cta (scene : Scene) : Scene :=
  {| id := id scene; title := title scene; narration := narration scene;
     supportingPoint := supportingPoint scene; duration := duration scene;
     background := background scene; overlay := overlay scene;
     cta := None |}.

Definition width_of (options : RenderOptions) : Q :=
  match opt_width options with Some w => w | None => default_width end.

Definition height_of (options : RenderOptions) : Q :=
  match opt_height options with Some h => h | None => default_height end.


End Video.

(* ------------------------------------------------------------------------- *)
(** ** [src/hooks/useVideoGenerator.ts] *)
(* ------------------------------------------------------------------------- *)

Module VideoGenerator.

(** *** The encoder instance

    [createFFmpeg] returns an object whose [FS] and [run] methods raise until
    [load()] has completed.  Its scratch file system is a flat directory. *)

Inductive Node :=
| FileNode (data : list Byte.byte)
| DirNode.

Definition FileSystem := list (string * Node).

Record FFmpegInstance := mkInstance {
  loaded : bool;
  files : FileSystem;
}.

Definition NO_LOAD : Exn :=
  EncoderError "ffmpeg.wasm is not ready, make sure you have completed load().".

Definition createFFmpeg : FFmpegInstance :=
  {| loaded := false; files := [] |}.

(** The directories a freshly loaded core starts with. *)
Definition core_root : FileSystem :=
  [("tmp", DirNode); ("home", DirNode); ("dev", DirNode); ("proc", DirNode)].

Fixpoint lookup (name : string) (fs : FileSystem) : option Node :=
  match fs with
  | [] => None
  | (n, node) :: rest => if String.eqb n name then Some node else lookup name rest
  end.

Fixpoint remove (name : string) (fs : FileSystem) : FileSystem :=
  match fs with
  | [] => []
  | (n, node) :: rest =>
      if String.eqb n name then rest else (n, node) :: remove name rest
  end.

Fixpoint store (name : string) (data : list Byte.byte) (fs : FileSystem)
  : FileSystem :=
  match fs with
  | [] => [(name, FileNode data)]
  | (n, node) :: rest =>
      if String.eqb n name then (n, FileNode data) :: rest
      else (n, node) :: store name data rest
  end.

(** A path of the root directory, with or without the leading slash. *)
Definition base_name (path : string) : string :=
  match path with
  | String "/"%char rest => rest
  | _ => path
  end.

Definition fs_readdir (fs : FileSystem) : list string :=
  "." :: ".." :: map fst fs.

Definition fs_unlink (path : string) (fs : FileSystem) : Result FileSystem :=
  match lookup (base_name path) fs with
  | Some (FileNode _) => Ok (remove (base_name path) fs)
  | Some DirNode => Err (EncoderError "EISDIR")
  | None => Err (EncoderError "ENOENT")
  end.

Definition fs_writeFile (path : string) (data : list Byte.byte)
    (fs : FileSystem) : Result FileSystem :=
  match lookup (base_name path) fs with
  | Some DirNode => Err (EncoderError "EISDIR")
  | _ => Ok (store (base_name path) data fs)
  end.

Definition fs_readFile (path : string) (fs : FileSystem)
  : Result (list Byte.byte) :=
  match lookup (base_name path) fs with
  | Some (FileNode data) => Ok data
  | Some DirNode => Err (EncoderError "EISDIR")
  | None => Err (EncoderError "ENOENT")
  end.

(** *** The hook state and what the outside provides *)

Record File := mkFile {
  file_name : string;
  file_type : string;
  file_data : list Byte.byte;
}.

Record GeneratedVideo := mkGeneratedVideo {
  url : string;
  fileName : string;
  file : File;
}.

(** What a call of [generate] does to the outside, kept in order: the calls
    of the [onProgress] listener, of [renderSceneToFrame] and of the encoder
    (with the scratch files it was started on). *)
Inductive Event :=
| OnProgress (p : Q)
| RenderFrame (scene : Scene)
| RunEncoder (args : list string) (fs : FileSystem).

(** An [onProgress] listener: from what has happened so far and the value
    it is called with, it returns ([None]) or raises. *)
Definition ProgressListener := list Event -> Q -> option Exn.

Record GenerateOptions := mkGenerateOptions {
  scenes : list Scene;
  (* the listener, when one was passed; its calls are recorded in the trace *)
  onProgress : option ProgressListener;
  audioFile : option File;
  outputName : option string;
}.

Record Runtime := mkRuntime {
  canvas_env : Video.Env;
  (* one run of the encoder on its arguments and scratch files: the ratios
     it reports while running, then the files it leaves or its failure *)
  exec : list string -> FileSystem -> list Q * Result FileSystem;
  (* [ffmpegInstance.load()] succeeds *)
  core_loads : bool;
  (* [Date.now()] *)
  now : Z;
  (* [URL.createObjectURL] *)
  createObjectURL : list Byte.byte -> string;
}.

Record World := mkWorld {
  isReady : bool;
  isBusy : bool;
  progress : Q;
  ffmpegRef : option FFmpegInstance;
  cancelled : bool;
  trace : list Event;
}.

(** The values the [onProgress] listener received. *)
Definition reported (tr : list Event) : list Q :=
  flat_map (fun e => match e with OnProgress p => [p] | _ => [] end) tr.

(** The scenes [renderSceneToFrame] was called on. *)
Definition rendered (tr : list Event) : list Scene :=
  flat_map (fun e => match e with RenderFrame s => [s] | _ => [] end) tr.

(** The state when the component mounts. *)
Definition mounted : World :=
  {| isReady := false; isBusy := false; progress := 0; ffmpegRef := None;
     cancelled := false; trace := [] |}.

Definition setReady (b : bool) (w : World) : World :=
  {| isReady := b; isBusy := isBusy w; progress := progress w;
     ffmpegRef := ffmpegRef w; cancelled := cancelled w;
     trace := trace w |}.

Definition setBusy (b : bool) (w : World) : World :=
  {| isReady := isReady w; isBusy := b; progress := progress w;
     ffmpegRef := ffmpegRef w; cancelled := cancelled w;
     trace := trace w |}.

Definition setProgress (p : Q) (w : World) : World :=
  {| isReady := isReady w; isBusy := isBusy w; progress := p;
     ffmpegRef := ffmpegRef w; cancelled := cancelled w;
     trace := trace w |}.

Definition setRef (r : option FFmpegInstance) (w : World) : World :=
  {| isReady := isReady w; isBusy := isBusy w; progress := progress w;
     ffmpegRef := r; cancelled := cancelled w;
     trace := trace w |}.

Definition setCancelled (w : World) : World :=
  {| isReady := isReady w; isBusy := isBusy w; progress := progress w;
     ffmpegRef := ffmpegRef w; cancelled := true;
     trace := trace w |}.

Definition log (e : Event) (w : World) : World :=
  {| isReady := isReady w; isBusy := isBusy w; progress := progress w;
     ffmpegRef := ffmpegRef w; cancelled := cancelled w;
     trace := (trace w ++ [e])%list |}.

(** *** The effect that loads the encoder

    The body of [load] runs in two turns: up to [await ffmpegInstance.load()]
    and, once that promise settles, the rest. *)

(** [ffmpegRef.current = createFFmpeg(...)], then the encoder starts loading. *)
Definition load_begin (w : World) : World := setRef (Some createFFmpeg) w.

(** The turn after [ffmpegInstance.load()] settled. *)
Definition load_settle (rt : Runtime) (w : World) : World :=
  if core_loads rt then
    let w := setRef (Some {| loaded := true; files := core_root |}) w in
    if cancelled w then w else setReady true w
  else
    if cancelled w then w else setReady false w.

(** *** The monad of [generate]: state, and an exception or a value *)

Definition M (A : Type) : Type := World -> Result A * World.

Definition ret {A} (a : A) : M A := fun w => (Ok a, w).

Definition throw {A} (e : Exn) : M A := fun w => (Err e, w).

Definition bind {A B} (m : M A) (k : A -> M B) : M B :=
  fun w =>
    match m w with
    | (Ok a, w') => k a w'
    | (Err e, w') => (Err e, w')
    end.

Notation "x <- m ;; k" := (bind m (fun x => k))
  (at level 61, m at next level, right associativity).
Notation "m ;;; k" := (bind m (fun _ => k))
  (at level 61, right associativity).

(** [try { m } finally { cleanup }]. *)
Definition finally {A} (m : M A) (cleanup : World -> World) : M A :=
  fun w => let (r, w') := m w in (r, cleanup w').

(** [try { m } catch (_) { }]. *)
Definition ignoring (m : M unit) : M unit :=
  fun w => let (_, w') := m w in (Ok tt, w').

Definition update (f : World -> World) : M unit := fun w => (Ok tt, f w).

(** A method of the instance in [ffmpegRef.current]. *)
Definition with_files {A} (f : FileSystem -> Result (A * FileSystem)) : M A :=
  fun w =>
    match ffmpegRef w with
    | None => (Err (Error "FFmpeg is not ready yet"), w)
    | Some inst =>
        if loaded inst then
          match f (files inst) with
          | Ok (a, fs) => (Ok a, setRef (Some {| loaded := true; files := fs |}) w)
          | Err e => (Err e, w)
          end
        else (Err NO_LOAD, w)
    end.

Definition FS_readdir : M (list string) :=
  with_files (fun fs => Ok (fs_readdir fs, fs)).

Definition FS_unlink (path : string) : M unit :=
  with_files (fun fs =>
    match fs_unlink path fs with Ok fs' => Ok (tt, fs') | Err e => Err e end).

Definition FS_writeFile (path : string) (data : list Byte.byte) : M unit :=
  with_files (fun fs =>
    match fs_writeFile path data fs with
    | Ok fs' => Ok (tt, fs')
    | Err e => Err e
    end).

Definition FS_readFile (path : string) : M (list Byte.byte) :=
  with_files (fun fs =>
    match fs_readFile path fs with Ok d => Ok (d, fs) | Err e => Err e end).

(** [Number((ratio * 100).toFixed(2))]. *)
Definition percent (ratio : Q) : Q :=
  let x := (ratio * 100)%Q in
  let n := Qfloor (Qabs x * 100 + (1 # 2))%Q in
  (if Qle_bool 0 x then inject_Z n / 100 else - (inject_Z n / 100))%Q.

(** [ffmpeg.run(...args)]; the listener installed with [setProgress] stores
    each ratio the encoder reports. *)
Definition run (rt : Runtime) (args : list string) : M unit :=
  fun w =>
    match ffmpegRef w with
    | None => (Err (Error "FFmpeg is not ready yet"), w)
    | Some inst =>
        if loaded inst then
          let (ratios, outcome) := exec rt args (files inst) in
          let w := log (RunEncoder args (files inst)) w in
          let w := fold_left (fun w r => setProgress (percent r) w) ratios w in
          match outcome with
          | Ok fs => (Ok tt, setRef (Some {| loaded := true; files := fs |}) w)
          | Err e => (Err e, w)
          end
        else (Err NO_LOAD, w)
    end.

(** [if (onProgress) onProgress(p)]: the call is recorded, and what the
    listener raises is raised. *)
Definition notify (opts : GenerateOptions) (p : Q) : M unit :=
  match onProgress opts with
  | Some listener =>
      fun w =>
        (match listener (trace w) p with
         | Some e => Err e
         | None => Ok tt
         end,
         log (OnProgress p) w)
  | None => ret tt
  end.

(** [await renderSceneToFrame(scene)]. *)
Definition render (rt : Runtime) (scene : Scene) : M (list Byte.byte) :=
  fun w =>
    (Video.renderSceneToFrame (canvas_env rt) scene Video.no_options,
     log (RenderFrame scene) w).

(** *** [generate] *)

Definition getExtension (name : string) : string :=
  match JS.match_extension name with
  | Some m => m
  | None => ".mp3"
  end.

Definition newline : string := String (ascii_of_nat 10) EmptyString.

(** [`frame-${String(index).padStart(2, '0')}.png`]. *)
Definition frameName (index : nat) : string :=
  "frame-" ++ JS.padStart 2 "0" (JS.string_of_nat index) ++ ".png".

Definition file_line (name : string) : string := "file '" ++ name ++ "'".

Definition duration_line (d : Q) : string := "duration " ++ JS.toFixed2 d.

(** [todo.forEach(file => { try { unlink } catch (_) {} })]. *)
Fixpoint unlink_all (todo : list string) : M unit :=
  match todo with
  | [] => ret tt
  | file :: rest => ignoring (FS_unlink ("/" ++ file)) ;;; unlink_all rest
  end.

(** The [for] loop over the scenes still to render, from [index]; [total] is
    [scenes.length] and [fileListLines] the lines pushed so far. *)
Fixpoint render_frames (rt : Runtime) (opts : GenerateOptions) (total : nat)
    (todo : list Scene) (index : nat) (fileListLines : list string)
  : M (list string) :=
  match todo with
  | [] => ret fileListLines
  | scene :: rest =>
      image <- render rt scene ;;
      let fileName := frameName index in
      FS_writeFile fileName image ;;;
      let fileListLines :=
        (fileListLines ++ [file_line fileName; duration_line (duration scene)])%list in
      notify opts (inject_Z (Z.of_nat index) / inject_Z (Z.of_nat total) * 50)%Q ;;;
      render_frames rt opts total rest (S index) fileListLines
  end.

Definition encoder_args (audioPath : option string) : list string :=
  match audioPath with
  | Some path =>
      ["-f"; "concat"; "-safe"; "0"; "-i"; "frames.txt"; "-i"; path;
       "-c:v"; "libx264"; "-pix_fmt"; "yuv420p"; "-c:a"; "aac"; "-shortest";
       "output.mp4"]
  | None =>
      ["-f"; "concat"; "-safe"; "0"; "-i"; "frames.txt";
       "-c:v"; "libx264"; "-pix_fmt"; "yuv420p"; "output.mp4"]
  end.

(** The manifest [fileListLines] holds when it is written to [frames.txt]. *)
Definition manifest_of (body : list string) (total : nat) : list string :=
  (body ++ [file_line (frameName (total - 1))])%list.

(** The block under [try]. *)
Definition generate_body (rt : Runtime) (opts : GenerateOptions)
    (name : string) : M GeneratedVideo :=
  existing <- FS_readdir ;;
  unlink_all
    (filter (fun file => negb (String.eqb file ".") && negb (String.eqb file ".."))
            existing) ;;;
  body <- render_frames rt opts (List.length (scenes opts)) (scenes opts) 0 [] ;;
  let fileListLines := manifest_of body (List.length (scenes opts)) in
  FS_writeFile "frames.txt" (JS.encode (JS.join newline fileListLines)) ;;;
  match audioFile opts with
  | Some audio =>
      FS_writeFile ("audio" ++ getExtension (file_name audio)) (file_data audio)
  | None => ret tt
  end ;;;
  match audioFile opts with
  | Some audio =>
      run rt (encoder_args (Some ("audio" ++ getExtension (file_name audio))))
  | None => run rt (encoder_args None)
  end ;;;
  data <- FS_readFile "output.mp4" ;;
  let file := {| file_name := name; file_type := "video/mp4";
                 file_data := data |} in
  let objectUrl := createObjectURL rt data in
  notify opts 100%Q ;;;
  update (setProgress 100%Q) ;;;
  ret {| url := objectUrl; fileName := name; file := file |}.

Definition generate (rt : Runtime) (opts : GenerateOptions) : M GeneratedVideo :=
  fun w =>
    let name :=
      match outputName opts with
      | Some n => n
      | None => "ai-video-" ++ JS.string_of_Z (now rt) ++ ".mp4"
      end in
    match ffmpegRef w with
    | None => (Err (Error "FFmpeg is not ready yet"), w)
    | Some _ =>
        match scenes opts with
        | [] => (Err (Error "No scenes to render"), w)
        | _ :: _ =>
            (update (setBusy true) ;;;
             update (setProgress 0%Q) ;;;
             notify opts 0%Q ;;;
             finally (generate_body rt opts name) (setBusy false)) w
        end
    end.

(** The block under [try] in two parts: up to the run of the encoder, and
    from there. *)
Definition prepare (rt : Runtime) (opts : GenerateOptions) : M unit :=
  existing <- FS_readdir ;;
  unlink_all
    (filter (fun file => negb (String.eqb file ".") && negb (String.eqb file ".."))
            existing) ;;;
  body <- render_frames rt opts (List.length (scenes opts)) (scenes opts) 0 [] ;;
  let fileListLines := manifest_of body (List.length (scenes opts)) in
  FS_writeFile "frames.txt" (JS.encode (JS.join newline fileListLines)) ;;;
  match audioFile opts with
  | Some audio =>
      FS_writeFile ("audio" ++ getExtension (file_name audio)) (file_data audio)
  | None => ret tt
  end.

Definition encode_and_return (rt : Runtime) (opts : GenerateOptions)
    (name : string) : M GeneratedVideo :=
  match audioFile opts with
  | Some audio =>
      run rt (encoder_args (Some ("audio" ++ getExtension (file_name audio))))
  | None => run rt (encoder_args None)
  end ;;;
  data <- FS_readFile "output.mp4" ;;
  let file := {| file_name := name; file_type := "video/mp4";
                 file_data := data |} in
  let objectUrl := createObjectURL rt data in
  notify opts 100%Q ;;;
  update (setProgress 100%Q) ;;;
  ret {| url := objectUrl; fileName := name; file := file |}.


(** *** Reading a manifest and a trace *)

(** What follows [prefix] in [s], when [s] starts with it. *)
Fixpoint after (prefix s : string) : option string :=
  match prefix with
  | EmptyString => Some s
  | String a prefix' =>
      match s with
      | String b s' => if Ascii.eqb a b then after prefix' s' else None
      | EmptyString => None
      end
  end.

Definition is_digit (c : ascii) : bool :=
  ((48 <=? nat_of_ascii c)%nat && (nat_of_ascii c <=? 57)%nat)%bool.






Definition count (p : string -> bool) (l : list string) : nat :=
  List.length (filter p l).


(** The lines the loop pushes for the scenes [todo], the first of which has
    position [index]. *)
Fixpoint frame_lines (todo : list Scene) (index : nat) : list string :=
  match todo with
  | [] => []
  | scene :: rest =>
      file_line (frameName index) :: duration_line (duration scene)
        :: frame_lines rest (S index)
  end.

(** The record of a report of [p]: a call of the listener, if there is
    one. *)
Definition reports (opts : GenerateOptions) (p : Q) : list Event :=
  match onProgress opts with
  | Some _ => [OnProgress p]
  | None => []
  end.

(** The events of the loop over [todo] when every frame renders. *)
Fixpoint frame_events (opts : GenerateOptions) (total : nat)
    (todo : list Scene) (index : nat) : list Event :=
  match todo with
  | [] => []
  | scene :: rest =>
      (RenderFrame scene
         :: reports opts
              (inject_Z (Z.of_nat index) / inject_Z (Z.of_nat total) * 50)%Q
         ++ frame_events opts total rest (S index))%list
  end.

(** What the loop reports after the frame at [index] of [total]. *)
Definition loop_progress (total index : nat) : Q :=
  (inject_Z (Z.of_nat index) / inject_Z (Z.of_nat total) * 50)%Q.

(** The encoder instance is missing or has not finished loading. *)
Definition not_loaded (w : World) : bool :=
  match ffmpegRef w with
  | None => true
  | Some inst => negb (loaded inst)
  end.

(** The scratch files of the instance, if any. *)
Definition scratch (w : World) : FileSystem :=
  match ffmpegRef w with
  | None => []
  | Some inst => files inst
  end.

(** The runs of the encoder recorded in a trace. *)
Definition encoder_runs (tr : list Event) : list (list string * FileSystem) :=
  flat_map (fun e => match e with RunEncoder args fs => [(args, fs)] | _ => [] end)
           tr.

(** What [unlink_all] leaves of the scratch files: the entries it is asked
    to remove go when they are files. *)
Definition purge (todo : list string) (fs : FileSystem) : FileSystem :=
  fold_left
    (fun fs file =>
       match lookup file fs with
       | Some (FileNode _) => remove file fs
       | _ => fs
       end)
    todo fs.

(** Scratch files as the encoder keeps them: no name twice, and none of the
    two entries every directory listing starts with. *)
Definition tidy (fs : FileSystem) : Prop :=
  NoDup (map fst fs) /\ ~ In "." (map fst fs) /\ ~ In ".." (map fst fs).

(** The scratch files after the frames [images] were written, the first of
    them at position [index]. *)
Fixpoint store_frames (images : list (list Byte.byte)) (index : nat)
    (fs : FileSystem) : FileSystem :=
  match images with
  | [] => fs
  | img :: rest => store_frames rest (S index) (store (frameName index) img fs)
  end.

(** Every run of [m] relates the state it starts in to the one it ends in,
    whether it returns or raises. *)
Definition keeps (R : World -> World -> Prop) {A} (m : M A) : Prop :=
  forall w r w', m w = (r, w') -> R w w'.

(** The readiness flag, the cancellation flag and how far the encoder has
    loaded are the same. *)
Definition same_status (w w' : World) : Prop :=
  isReady w' = isReady w /\ cancelled w' = cancelled w
  /\ not_loaded w' = not_loaded w.

(** The trace has grown, by calls of the listener at most. *)
Definition only_reports (w w' : World) : Prop :=
  exists evs,
    trace w' = (trace w ++ evs)%list
    /\ encoder_runs evs = [] /\ rendered evs = [].

(** The trace has grown. *)
Definition extends (w w' : World) : Prop :=
  exists evs, trace w' = (trace w ++ evs)%list.

(** The path the audio track gets in the scratch files. *)
Definition audio_path (opts : GenerateOptions) : option string :=
  option_map (fun audio => "audio" ++ getExtension (file_name audio))
             (audioFile opts).

(** The scene renders in the browser of [rt]. *)
Definition renders (rt : Runtime) (scene : Scene) : Prop :=
  exists bytes,
    Video.renderSceneToFrame (canvas_env rt) scene Video.no_options = Ok bytes.

(** *** The life of the hook

    The states the hook goes through from the mount of the component: the
    effect stores an instance once, the promise of [load()] settles after
    that, the component may unmount, and [generate] may be called at any
    time.  A call of [generate] is taken as one step. *)
Inductive reachable (rt : Runtime) : World -> Prop :=
| reach_mounted : reachable rt mounted
| reach_load_begin w :
    reachable rt w -> ffmpegRef w = None -> reachable rt (load_begin w)
| reach_load_settle w :
    reachable rt w -> ffmpegRef w <> None -> not_loaded w = true ->
    reachable rt (load_settle rt w)
| reach_unmount w :
    reachable rt w -> reachable rt (setCancelled w)
| reach_generate w opts :
    reachable rt w -> reachable rt (snd (generate rt opts w)).


End VideoGenerator.

(* ------------------------------------------------------------------------- *)
(** ** The concat manifest, as the specification words it *)
(* ------------------------------------------------------------------------- *)

(** The directives as the text of the manifest has them, written out without
    the functions of the hook: the frames are named [frame-00.png],
    [frame-01.png] and so on, and a duration is a number of hundredths of a
    second, written with two decimals. *)
Module ConcatManifest.






End ConcatManifest.

(* ------------------------------------------------------------------------- *)
(** ** [src/app/api/upload/route.ts] *)
(* ------------------------------------------------------------------------- *)

Module UploadRoute.

(** [formData.get('file')]. *)
Inductive FormEntry :=
| NoEntry
| TextEntry (value : string)
| FileEntry (f : VideoGenerator.File).

Record PutBlobResult := mkPutBlobResult {
  blob_url : string;
  blob_pathname : option string;
}.

(** The arguments of one call of [put]. *)
Record PutCall := mkPutCall {
  put_pathname : string;
  put_body : VideoGenerator.File;
  put_access : string;
  put_contentType : string;
}.

Record Platform := mkPlatform {
  (* [put] of [@vercel/blob]: the stored blob, or the error it raises *)
  put : PutCall -> Result PutBlobResult;
  (* [Date.now()] *)
  now : Z;
}.

Inductive Body :=
| ErrorBody (error : string)
| UploadedBody (url pathname extension : string).

Record Response := mkResponse {
  status : nat;
  body : Body;
}.

Definition sanitizeFileName (name : string) : string :=
  JS.collapse_dashes (JS.replace_unsafe (JS.toLowerCase name)).

(** [/\.[a-z0-9]+$/i] matches what [/\.[a-zA-Z0-9]+$/] matches. *)
Definition extractExtension (name : string) : string :=
  match JS.match_extension name with
  | Some m => m
  | None => ".mp4"
  end.

(** [POST(request)]; [formData] is what [request.formData()] settles to.  The
    second component lists the calls of [put]. *)
Definition POST (p : Platform) (formData : Result FormEntry)
  : Response * list PutCall :=
  let failed :=
    {| status := 500;
       body := ErrorBody "Upload failed. Check blob credentials and quota." |} in
  match formData with
  | Err _ => (failed, [])
  | Ok (FileEntry file) =>
      let extension := extractExtension (VideoGenerator.file_name file) in
      let pathname :=
        "videos/" ++ JS.string_of_Z (now p) ++ "-"
          ++ sanitizeFileName (VideoGenerator.file_name file) in
      let call :=
        {| put_pathname := pathname; put_body := file; put_access := "public";
           put_contentType :=
             JS.or_else (VideoGenerator.file_type file) "video/mp4" |} in
      match put p call with
      | Ok blob =>
          ({| status := 200;
              body := UploadedBody (blob_url blob)
                        (match blob_pathname blob with
                         | Some path => path
                         | None => pathname
                         end)
                        extension |},
           [call])
      | Err _ => (failed, [call])
      end
  | Ok _ =>
      ({| status := 400; body := ErrorBody "File payload is required" |}, [])
  end.

End UploadRoute.

(* ------------------------------------------------------------------------- *)
(** ** [src/components/home/HomePage.tsx]: the handlers of the storyboard *)
(* ------------------------------------------------------------------------- *)

Module HomePage.

Definition defaultBrief : StoryBrief.t :=
  StoryBrief.mk "AI-Powered Instagram Automation Launch"
    "busy solo creators and growth marketers" direct
    "Start your automation sprint today" medium.

(** [trimmedBrief] of [regenerateStoryboard]. *)
Definition trimmedBrief (brief : StoryBrief.t) : StoryBrief.t :=
  StoryBrief.mk
    (JS.or_else (JS.trim (StoryBrief.idea brief)) (StoryBrief.idea defaultBrief))
    (JS.or_else (JS.trim (StoryBrief.audience brief))
                (StoryBrief.audience defaultBrief))
    (StoryBrief.tone brief)
    (JS.or_else (JS.trim (StoryBrief.callToAction brief))
                (StoryBrief.callToAction defaultBrief))
    (StoryBrief.length brief).

(** The scenes [regenerateStoryboard] hands to [setScenes]. *)
Definition regenerateStoryboard (src : Storyboard.RandomSource) (uuid : string)
    (brief : StoryBrief.t) : Storyboard.Rand (list Scene) :=
  Storyboard.generateStoryboard src uuid (trimmedBrief brief).

(** [scenes.reduce((sum, scene) => sum + scene.duration, 0)]. *)
Definition totalDuration (scenes : list Scene) : Q :=
  fold_left (fun sum scene => (sum + duration scene)%Q) scenes 0%Q.

(** A [Partial<Scene>]: the properties the object has.  [cta] may be present
    with the value [undefined]. *)
Record SceneUpdates := mkSceneUpdates {
  upd_id : option string;
  upd_title : option string;
  upd_narration : option string;
  upd_supportingPoint : option string;
  upd_duration : option Q;
  upd_background : option BackgroundStyle;
  upd_overlay : option Overlay;
  upd_cta : option (option string);
}.

Definition no_updates : SceneUpdates :=
  {| upd_id := None; upd_title := None; upd_narration := None;
     upd_supportingPoint := None; upd_duration := None;
     upd_background := None; upd_overlay := None; upd_cta := None |}.

Definition or_keep {A} (o : option A) (a : A) : A :=
  match o with Some x => x | None => a end.

(** [{ ...scene, ...updates }]. *)
Definition merge (scene : Scene) (updates : SceneUpdates) : Scene :=
  {| id := or_keep (upd_id updates) (id scene);
     title := or_keep (upd_title updates) (title scene);
     narration := or_keep (upd_narration updates) (narration scene);
     supportingPoint :=
       or_keep (upd_supportingPoint updates) (supportingPoint scene);
     duration := or_keep (upd_duration updates) (duration scene);
     background := or_keep (upd_background updates) (background scene);
     overlay := or_keep (upd_overlay updates) (overlay scene);
     cta := or_keep (upd_cta updates) (cta scene) |}.

(** The function [updateScene] hands to [setScenes]. *)
Definition updateScene (sceneId : string) (updates : SceneUpdates)
    (scenes : list Scene) : list Scene :=
  map (fun scene =>
         if String.eqb (id scene) sceneId then merge scene updates else scene)
      scenes.

Inductive UploadState :=
| upload_idle
| upload_uploading
| upload_ready (url fileName : string)
| upload_error (message : string).

(** The part of the state of the page the video handler touches. *)
Record Page := mkPage {
  hook : VideoGenerator.World;
  scenes : list Scene;
  audioFile : option VideoGenerator.File;
  video : option VideoGenerator.GeneratedVideo;
  upload : UploadState;
}.

(** [handleGenerateVideo]: [None] when it returns at once, else how the
    promise of [generate] settles. *)
Definition handleGenerateVideo (rt : VideoGenerator.Runtime) (page : Page)
  : option (Result unit) * Page :=
  if VideoGenerator.isReady (hook page) then
    match VideoGenerator.generate rt
            {| VideoGenerator.scenes := scenes page;
               VideoGenerator.onProgress := None;
               VideoGenerator.audioFile := audioFile page;
               VideoGenerator.outputName := None |}
            (hook page) with
    | (Ok asset, w) =>
        (Some (Ok tt),
         {| hook := w; scenes := scenes page; audioFile := audioFile page;
            video := Some asset; upload := upload_idle |})
    | (Err e, w) =>
        (Some (Err e),
         {| hook := w; scenes := scenes page; audioFile := audioFile page;
            video := video page; upload := upload page |})
    end
  else (None, page).

End HomePage.

(* ------------------------------------------------------------------------- *)
(** ** The Instagram publish route *)
(* ------------------------------------------------------------------------- *)

Module PublishRoute.

(** [process.env]: the two settings the route reads when it is loaded. *)
Record Config := mkConfig {
  INSTAGRAM_USER_ID : option string;
  INSTAGRAM_ACCESS_TOKEN : option string;
}.

(** Truthiness of a [string | undefined]. *)
Definition present (o : option string) : bool :=
  match o with
  | Some s => JS.truthy s
  | None => false
  end.

(** [String(x)] of a [string | undefined], as a template literal and
    [URLSearchParams] apply it. *)
Definition text_of (o : option string) : string :=
  match o with
  | Some s => s
  | None => "undefined"
  end.

(** The properties of the body the route reads; [shareToFeed] is held by its
    truthiness. *)
Record PublishPayload := mkPublishPayload {
  caption : option string;
  videoUrl : option string;
  scheduledPublishTime : option string;
  coverUrl : option string;
  shareToFeed : bool;
}.

(** A [URLSearchParams]: the pairs in the order they were added. *)
Definition Params := list (string * string).

(** [params.get(key)]. *)
Fixpoint get (key : string) (params : Params) : option string :=
  match params with
  | [] => None
  | (k, v) :: rest => if String.eqb k key then Some v else get key rest
  end.

(** The arguments of one call of [fetch]. *)
Record FetchCall := mkFetchCall {
  call_url : string;
  call_method : string;
  call_contentType : string;
  call_body : Params;
}.

(** What the route reads of the JSON the Graph API answers:
    [data.error?.message] when it is not nullish, [data.id],
    the truthiness of [data.success] and [data.scheduled_publish_time]. *)
Record GraphData := mkGraphData {
  error_message : option string;
  data_id : option string;
  data_success : bool;
  data_scheduled_publish_time : option Q;
}.

(** How a promise of the platform settles: with a value, or rejected with an
    [Error] that has the message given, or with a value that is no
    [Error]. *)
Inductive Reply (A : Type) :=
| Got (a : A)
| Rejected (message : option string).

Arguments Got {A} a.
Arguments Rejected {A} message.

(** A [Response] of [fetch]: [response.ok], and what [response.json()]
    followed by the reads of the answer settles to (a [null] answer makes the
    reads raise a [TypeError]). *)
Record GraphResponse := mkGraphResponse {
  ok : bool;
  json : Reply GraphData;
}.

Record Platform := mkPlatform {
  config : Config;
  (* [fetch]: what the request settles to, given how many came before *)
  fetch : nat -> FetchCall -> Reply GraphResponse;
  (* [new Date(s).getTime()], [None] for NaN *)
  getTime : string -> option Z;
  (* [new Date(seconds * 1000).toISOString()] *)
  toISOString : Q -> Reply string;
}.

(** What the functions of the route raise. *)
Inductive Thrown :=
| InstagramAPIError (message : string) (details : GraphData)
| Other (message : option string).

Inductive Outcome (A : Type) :=
| Returned (a : A)
| Raised (e : Thrown).

Arguments Returned {A} a.
Arguments Raised {A} e.

Definition push_if (cond : bool) (key value : string) (params : Params)
  : Params :=
  if cond then (params ++ [(key, value)])%list else params.

(** [createMediaContainer(payload)], with the requests it makes. *)
Definition createMediaContainer (p : Platform) (payload : PublishPayload)
  : Outcome GraphData * list FetchCall :=
  let params :=
    [("access_token", text_of (INSTAGRAM_ACCESS_TOKEN (config p)));
     ("media_type", "VIDEO");
     ("video_url", text_of (videoUrl payload))] in
  let params :=
    push_if (present (caption payload)) "caption" (text_of (caption payload))
      params in
  let params :=
    push_if (present (coverUrl payload)) "cover_url"
      (text_of (coverUrl payload)) params in
  let params := push_if (shareToFeed payload) "share_to_feed" "true" params in
  let url :=
    "https://graph.facebook.com/v18.0/"
      ++ text_of (INSTAGRAM_USER_ID (config p)) ++ "/media" in
  let call :=
    {| call_url := url; call_method := "POST";
       call_contentType := "application/x-www-form-urlencoded";
       call_body := params |} in
  (match fetch p 0 call with
   | Rejected m => Raised (Other m)
   | Got response =>
       match json response with
       | Rejected m => Raised (Other m)
       | Got data =>
           if ok response then Returned data
           else
             Raised
               (InstagramAPIError
                  (match error_message data with
                   | Some m => m
                   | None => "Failed to create media container"
                   end)
                  data)
       end
   end,
   [call]).

(** [String(Math.floor(new Date(scheduled).getTime() / 1000))]. *)
Definition timestamp (p : Platform) (scheduled : string) : string :=
  match getTime p scheduled with
  | Some ms => JS.string_of_Z (ms / 1000)%Z
  | None => "NaN"
  end.

(** [publishMedia(creationId, scheduled)], as the second request of the
    route. *)
Definition publishMedia (p : Platform) (creationId : option string)
    (scheduled : option string) : Outcome GraphData * list FetchCall :=
  let params :=
    [("access_token", text_of (INSTAGRAM_ACCESS_TOKEN (config p)));
     ("creation_id", text_of creationId)] in
  let params :=
    if present scheduled then
      (params ++ [("scheduled_publish_time", timestamp p (text_of scheduled));
                  ("published", "false")])%list
    else params in
  let url :=
    "https://graph.facebook.com/v18.0/"
      ++ text_of (INSTAGRAM_USER_ID (config p)) ++ "/media_publish" in
  let call :=
    {| call_url := url; call_method := "POST";
       call_contentType := "application/x-www-form-urlencoded";
       call_body := params |} in
  (match fetch p 1 call with
   | Rejected m => Raised (Other m)
   | Got response =>
       match json response with
       | Rejected m => Raised (Other m)
       | Got data =>
           if ok response then Returned data
           else
             Raised
               (InstagramAPIError
                  (match error_message data with
                   | Some m => m
                   | None => "Failed to publish media"
                   end)
                  data)
       end
   end,
   [call]).

Inductive Body :=
| ErrorBody (error : string) (details : option GraphData)
| PublishedBody (id creationId scheduledPublishTime : option string)
                (status : string).

Record Response := mkResponse {
  status : nat;
  body : Body;
}.

(** Truthiness of a number. *)
Definition nonzero (q : Q) : bool := negb (Qeq_bool q 0).

(** The response of the [try] block of [POST], from the answers to the two
    requests; [toISOString] may raise. *)
Definition published (p : Platform) (creation publication : GraphData)
  : Outcome Response :=
  let answer (scheduled : option string) :=
    {| status := 200;
       body :=
         PublishedBody
           (match data_id publication with
            | Some i => Some i
            | None => data_id creation
            end)
           (data_id creation)
           scheduled
           (if data_success publication then "scheduled" else "published") |} in
  match data_scheduled_publish_time publication with
  | Some seconds =>
      if nonzero seconds then
        match toISOString p seconds with
        | Got iso => Returned (answer (Some iso))
        | Rejected m => Raised (Other m)
        end
      else Returned (answer None)
  | None => Returned (answer None)
  end.

(** The [try] block of [POST]. *)
Definition publish (p : Platform) (payload : PublishPayload)
  : Outcome Response * list FetchCall :=
  match createMediaContainer p payload with
  | (Raised e, calls) => (Raised e, calls)
  | (Returned creation, calls) =>
      match publishMedia p (data_id creation) (scheduledPublishTime payload)
      with
      | (Raised e, calls') => (Raised e, (calls ++ calls')%list)
      | (Returned publication, calls') =>
          (published p creation publication, (calls ++ calls')%list)
      end
  end.

(** The [catch] block of [POST]. *)
Definition recover (e : Thrown) : Response :=
  match e with
  | InstagramAPIError message details =>
      {| status := 400; body := ErrorBody message (Some details) |}
  | Other (Some message) =>
      {| status := 500; body := ErrorBody message None |}
  | Other None =>
      {| status := 500;
         body :=
           ErrorBody "Unknown error while publishing to Instagram." None |}
  end.

(** [POST(request)]; [requestJson] is what [request.json()] settles to,
    [Got None] being the JSON [null].  The result is the response, or the
    [TypeError] the handler lets through (with the message it has in V8),
    and the requests made. *)
Definition POST (p : Platform) (requestJson : Reply (option PublishPayload))
  : Outcome Response * list FetchCall :=
  if negb (present (INSTAGRAM_USER_ID (config p)))
     || negb (present (INSTAGRAM_ACCESS_TOKEN (config p)))
  then
    (Returned
       {| status := 500;
          body :=
            ErrorBody
              "Missing INSTAGRAM_USER_ID or INSTAGRAM_ACCESS_TOKEN environment variables."
              None |},
     [])
  else
    match requestJson with
    | Rejected _ =>
        (Returned {| status := 400;
                     body := ErrorBody "Invalid JSON payload" None |}, [])
    | Got None =>
        (Raised
           (Other (Some "Cannot read properties of null (reading 'videoUrl')")),
         [])
    | Got (Some payload) =>
        if negb (present (videoUrl payload)) then
          (Returned
             {| status := 400;
                body :=
                  ErrorBody "videoUrl is required to publish to Instagram."
                    None |},
           [])
        else
          match publish p payload with
          | (Returned response, calls) => (Returned response, calls)
          | (Raised e, calls) => (Returned (recover e), calls)
          end
    end.

(** The requests for a media container and for its publication. *)
Definition is_create (p : Platform) (call : FetchCall) : Prop :=
  call_url call
  = "https://graph.facebook.com/v18.0/"
      ++ text_of (INSTAGRAM_USER_ID (config p)) ++ "/media".

Definition is_publish (p : Platform) (call : FetchCall) : Prop :=
  call_url call
  = "https://graph.facebook.com/v18.0/"
      ++ text_of (INSTAGRAM_USER_ID (config p)) ++ "/media_publish".

(** The request was answered, with [response.ok], by [data]. *)
Definition accepted (p : Platform) (k : nat) (call : FetchCall)
    (data : GraphData) : Prop :=
  exists response,
    fetch p k call = Got response
    /\ ok response = true /\ json response = Got data.

End PublishRoute.

(* ------------------------------------------------------------------------- *)
(** ** A concrete browser, used to run the definitions *)
(* ------------------------------------------------------------------------- *)

Module Demo.

Definition source : Storyboard.RandomSource :=
  fun n => {| Storyboard.num := n; Storyboard.slack := 7 |}.

Definition brief : StoryBrief.t :=
  StoryBrief.mk "Launch" "creators" direct "Join now" short.

(** Ten pixels a character, whatever the font. *)
Definition measure (_font text : string) : Q :=
  inject_Z (Z.of_nat (10 * String.length text)).

(** Hexadecimal and functional colour notations. *)
Definition is_color (css : string) : bool :=
  String.prefix "#" css || String.prefix "rgb" css.

(** Upper-casing of the ASCII letters. *)
Definition upper_char (c : ascii) : ascii :=
  let n := nat_of_ascii c in
  if (97 <=? n)%nat && (n <=? 122)%nat then ascii_of_nat (n - 32) else c.

Fixpoint upper (s : string) : string :=
  match s with
  | EmptyString => EmptyString
  | String c rest => String (upper_char c) (upper rest)
  end.

Definition env : Video.Env :=
  {| Video.getContext := fun _ _ => true;
     Video.fetchImage := fun src =>
       if String.eqb src "https://example.com/cover.png"
       then Some (800, 600) else None;
     Video.measureText := measure;
     Video.validColor := is_color;
     Video.toUpperCase := upper;
     Video.toPNG := fun _ _ ops => map (fun _ => Byte.x2a) ops |}.

(** An encoder that reports two ratios and leaves a one-byte [output.mp4]. *)
Definition rt : VideoGenerator.Runtime :=
  {| VideoGenerator.canvas_env := env;
     VideoGenerator.exec := fun _ fs =>
       ([1 # 2; 1]%Q, Ok (VideoGenerator.store "output.mp4" [Byte.x01] fs));
     VideoGenerator.core_loads := true;
     VideoGenerator.now := 1700000000000%Z;
     VideoGenerator.createObjectURL := fun _ => "blob:demo" |}.

Definition scene (d : Q) (bg : BackgroundStyle) (c : option string) : Scene :=
  {| id := "demo-0"; title := "Hi"; narration := "there you";
     supportingPoint := "sup"; duration := d; background := bg;
     overlay := light; cta := c |}.

Definition two_scenes : list Scene :=
  [scene 4 (gradient "nonsense") None;
   scene (9 # 2) (color "#112233") (Some "Go")].

(** A listener that always returns. *)
Definition listener : VideoGenerator.ProgressListener := fun _ _ => None.

Definition options (l : list Scene) : VideoGenerator.GenerateOptions :=
  {| VideoGenerator.scenes := l; VideoGenerator.onProgress := Some listener;
     VideoGenerator.audioFile := None; VideoGenerator.outputName := None |}.

(** The hook once the encoder instance exists and is still loading, and once
    it has loaded. *)
Definition loading : VideoGenerator.World :=
  VideoGenerator.load_begin VideoGenerator.mounted.

Definition ready : VideoGenerator.World :=
  VideoGenerator.load_settle rt loading.

End Demo.

Module Samples.

Fixpoint ends_with (c : ascii) (s : string) : bool :=
  match s with
  | EmptyString => false
  | String x EmptyString => Ascii.eqb x c
  | String _ rest => ends_with c rest
  end.

(** Hexadecimal notation, or a functional notation that is closed. *)
Definition is_color (css : string) : bool :=
  String.prefix "#" css || (String.prefix "rgb" css && ends_with ")" css).

(** The browser of [Demo] with the stricter colour parser. *)
Definition strict_env : Video.Env :=
  {| Video.getContext := Video.getContext Demo.env;
     Video.fetchImage := Video.fetchImage Demo.env;
     Video.measureText := Video.measureText Demo.env;
     Video.validColor := is_color;
     Video.toUpperCase := Video.toUpperCase Demo.env;
     Video.toPNG := Video.toPNG Demo.env |}.

(** The hook after a first render of two scenes. *)
Definition rendered_once : VideoGenerator.World :=
  snd (VideoGenerator.generate Demo.rt (Demo.options Demo.two_scenes)
         Demo.ready).

(** The page once the encoder has loaded. *)
Definition ready_page : HomePage.Page :=
  {| HomePage.hook := Demo.ready; HomePage.scenes := Demo.two_scenes;
     HomePage.audioFile := None; HomePage.video := None;
     HomePage.upload := HomePage.upload_idle |}.

Definition loading_page : HomePage.Page :=
  {| HomePage.hook := Demo.loading; HomePage.scenes := Demo.two_scenes;
     HomePage.audioFile := None; HomePage.video := None;
     HomePage.upload := HomePage.upload_idle |}.



(** A scene with a call to action under a narration of thirty sentences. *)
Definition sentence : string :=
  "Every creator deserves tools that turn a rough idea into a finished reel.".

Definition crowded_scene : Scene :=
  {| id := "demo-1"; title := "Hi";
     narration := JS.join " " (repeat sentence 30);
     supportingPoint := "sup"; duration := 4; background := color "#112233";
     overlay := light; cta := Some "Go" |}.

(** The browser of [Demo] where every image is a photograph of 640 by 427
    pixels. *)
Definition photo_env : Video.Env :=
  {| Video.getContext := Video.getContext Demo.env;
     Video.fetchImage := fun _ => Some (640, 427);
     Video.measureText := Video.measureText Demo.env;
     Video.validColor := Video.validColor Demo.env;
     Video.toUpperCase := Video.toUpperCase Demo.env;
     Video.toPNG := Video.toPNG Demo.env |}.



(** A brief whose text fields hold white space only. *)
Definition blank_brief : StoryBrief.t :=
  StoryBrief.mk "  " " " direct "   " short.

(** The storyboard the page makes of the blank brief. *)
Definition blank_storyboard : list Scene :=
  fst (HomePage.regenerateStoryboard Demo.source "1a2b3c4d-5e6f" blank_brief 0).


(** A Graph API that accepts both requests and schedules the post. *)
Definition graph : PublishRoute.Platform :=
  {| PublishRoute.config :=
       {| PublishRoute.INSTAGRAM_USER_ID := Some "1789";
          PublishRoute.INSTAGRAM_ACCESS_TOKEN := Some "token" |};
     PublishRoute.fetch := fun k _ =>
       PublishRoute.Got
         {| PublishRoute.ok := true;
            PublishRoute.json :=
              PublishRoute.Got
                (if Nat.eqb k 0 then
                   PublishRoute.mkGraphData None (Some "c-1") false None
                 else
                   PublishRoute.mkGraphData None None true
                     (Some 1700003600%Q)) |};
     PublishRoute.getTime := fun s =>
       if String.eqb s "2023-11-14T23:13:20.500Z"
       then Some 1700003600500%Z else None;
     PublishRoute.toISOString := fun _ =>
       PublishRoute.Got "2023-11-14T23:13:20.000Z" |}.

(** A Graph API that refuses the media container. *)
Definition refusing_graph : PublishRoute.Platform :=
  {| PublishRoute.config := PublishRoute.config graph;
     PublishRoute.fetch := fun _ _ =>
       PublishRoute.Got
         {| PublishRoute.ok := false;
            PublishRoute.json :=
              PublishRoute.Got
                (PublishRoute.mkGraphData (Some "Invalid OAuth access token")
                   None false None) |};
     PublishRoute.getTime := PublishRoute.getTime graph;
     PublishRoute.toISOString := PublishRoute.toISOString graph |}.

Definition publish_payload : PublishRoute.PublishPayload :=
  {| PublishRoute.caption := Some "New reel";
     PublishRoute.videoUrl := Some "https://blob.example.com/videos/1-a.mp4";
     PublishRoute.scheduledPublishTime := Some "2023-11-14T23:13:20.500Z";
     PublishRoute.coverUrl := None;
     PublishRoute.shareToFeed := false |}.

(** A blob store that keeps the path it was asked for. *)
Definition blobs : UploadRoute.Platform :=
  {| UploadRoute.put := fun call =>
       Ok {| UploadRoute.blob_url :=
               "https://blob.example.com/" ++ UploadRoute.put_pathname call;
             UploadRoute.blob_pathname := Some (UploadRoute.put_pathname call) |};
     UploadRoute.now := 1700000000000%Z |}.



Definition upload_file : VideoGenerator.File :=
  VideoGenerator.mkFile "../My Reel (final).MP4" "" [Byte.x01].


(** An edit of the title and of the duration of a scene. *)
Definition retitle : HomePage.SceneUpdates :=
  {| HomePage.upd_id := None; HomePage.upd_title := Some "New title";
     HomePage.upd_narration := None; HomePage.upd_supportingPoint := None;
     HomePage.upd_duration := Some 6%Q; HomePage.upd_background := None;
     HomePage.upd_overlay := None; HomePage.upd_cta := None |}.

End Samples.

(* ------------------------------------------------------------------------- *)
(** ** Properties of the storyboard generator *)
(* ------------------------------------------------------------------------- *)

Section StoryboardFacts.

Import Storyboard.

Variable src : RandomSource.
Variable brief : StoryBrief.t.
Variable base : string.

Lemma scene_at_duration len d i n :
  duration (fst (scene_at src brief base len d i n)) = d.
Proof.
  unfold scene_at.
  destruct (Nat.eqb i 0); [reflexivity|].
  destruct (Nat.eqb i (len - 1)); reflexivity.
Qed.

Lemma map_from_length len l : forall i n,
  List.length (fst (map_from (scene_at src brief base len) l i n))
  = List.length l.
Proof.
  induction l as [|d l IH]; intros i n; [reflexivity|].
  cbn [map_from]. unfold bind at 1.
  destruct (scene_at src brief base len d i n) as [s n1].
  unfold bind at 1.
  specialize (IH (S i) n1).
  destruct (map_from (scene_at src brief base len) l (S i) n1) as [ss n2].
  cbn in *. now rewrite IH.
Qed.

Lemma map_from_durations len l : forall i n,
  map duration (fst (map_from (scene_at src brief base len) l i n)) = l.
Proof.
  induction l as [|d l IH]; intros i n; [reflexivity|].
  cbn [map_from]. unfold bind at 1.
  pose proof (scene_at_duration len d i n) as Hd.
  destruct (scene_at src brief base len d i n) as [s n1].
  unfold bind at 1.
  specialize (IH (S i) n1).
  destruct (map_from (scene_at src brief base len) l (S i) n1) as [ss n2].
  cbn in *. now rewrite IH, Hd.
Qed.

End StoryboardFacts.

Lemma template_positive l :
  Forall (fun d => 0 < d)%Q (Storyboard.durationsByLength l).
Proof. destruct l; repeat constructor. Qed.

(** C3. Whatever the brief and the random draws, [generateStoryboard] returns
    a non-empty list of scenes that is as long as the duration template of
    [brief.length] (3, 4 and 5 scenes for short, medium and long), whose
    durations are the entries of that template in order, all of them
    positive. *)
Theorem generateStoryboard_follows_template :
  forall (src : Storyboard.RandomSource) (uuid : string) (brief : StoryBrief.t)
         (n : nat),
    let scenes := fst (Storyboard.generateStoryboard src uuid brief n) in
    scenes <> []
    /\ List.length scenes
       = List.length (Storyboard.durationsByLength (StoryBrief.length brief))
    /\ List.length scenes
       = match StoryBrief.length brief with
         | short => 3 | medium => 4 | long => 5
         end
    /\ map duration scenes
       = Storyboard.durationsByLength (StoryBrief.length brief)
    /\ Forall (fun s => 0 < duration s)%Q scenes.
Proof.
  intros src uuid brief n scenes.
  assert (Hd : map duration scenes
               = Storyboard.durationsByLength (StoryBrief.length brief))
    by apply map_from_durations.
  assert (Hl : List.length scenes
               = List.length (Storyboard.durationsByLength (StoryBrief.length brief)))
    by apply map_from_length.
  assert (Hn : List.length scenes
               = match StoryBrief.length brief with
                 | short => 3 | medium => 4 | long => 5
                 end)
    by (rewrite Hl; destruct (StoryBrief.length brief); reflexivity).
  repeat split; try assumption.
  - intros E. rewrite E in Hn. destruct (StoryBrief.length brief); discriminate.
  - pose proof (template_positive (StoryBrief.length brief)) as Hp.
    rewrite <- Hd in Hp. now rewrite Forall_map in Hp.
Qed.

Lemma or_else_truthy a b : a <> "" -> JS.or_else a b = a.
Proof. destruct a; [congruence | reflexivity]. Qed.

(** The title of the first scene and the [cta] of the last one, whatever the
    brief. *)
Lemma first_and_last :
  forall (src : Storyboard.RandomSource) (uuid : string) (brief : StoryBrief.t)
         (n : nat),
    let scenes := fst (Storyboard.generateStoryboard src uuid brief n) in
    option_map title (hd_error scenes)
      = Some (JS.or_else (StoryBrief.idea brief) "Idea Launchpad")
    /\ option_map cta (nth_error scenes (List.length scenes - 1))
       = Some (Some (StoryBrief.callToAction brief)).
Proof.
  intros src uuid [i a t c l] n.
  destruct l;
    cbv [Storyboard.generateStoryboard StoryBrief.length
         Storyboard.durationsByLength Storyboard.map_from Storyboard.bind
         Storyboard.scene_at Storyboard.pick Storyboard.pickGradient
         Storyboard.random_index Storyboard.ret fst List.length Nat.eqb Nat.sub
         hd_error nth_error option_map title cta StoryBrief.idea
         StoryBrief.callToAction];
    split; reflexivity.
Qed.

(** C7. When [brief.idea] is not the empty string, the first scene of
    [generateStoryboard(brief)] has it as its title; when
    [brief.callToAction] is not the empty string, the last scene has it as its
    [cta]. *)
Theorem first_title_and_last_cta :
  forall (src : Storyboard.RandomSource) (uuid : string) (brief : StoryBrief.t)
         (n : nat),
    let scenes := fst (Storyboard.generateStoryboard src uuid brief n) in
    (StoryBrief.idea brief <> "" ->
     option_map title (hd_error scenes) = Some (StoryBrief.idea brief))
    /\ (StoryBrief.callToAction brief <> "" ->
        option_map cta (nth_error scenes (List.length scenes - 1))
        = Some (Some (StoryBrief.callToAction brief))).
Proof.
  intros src uuid brief n scenes.
  destruct (first_and_last src uuid brief n) as [Hfirst Hlast].
  split.
  - intros Hidea. fold scenes in Hfirst.
    now rewrite Hfirst, or_else_truthy.
  - intros _. exact Hlast.
Qed.

Lemma first_title_and_last_cta_witness :
  let scenes :=
    fst (Storyboard.generateStoryboard Demo.source "1a2b3c4d-5e6f" Demo.brief 0) in
  option_map title (hd_error scenes) = Some "Launch"
  /\ option_map cta (nth_error scenes (List.length scenes - 1))
     = Some (Some "Join now").
Proof.
  intros scenes.
  destruct (first_title_and_last_cta Demo.source "1a2b3c4d-5e6f" Demo.brief 0)
    as [Hfirst Hlast].
  split; [apply Hfirst | apply Hlast]; discriminate.
Defined.

(* ------------------------------------------------------------------------- *)
(** ** Properties of the string helpers *)
(* ------------------------------------------------------------------------- *)

Section StringFacts.

Lemma append_assoc (a b c : string) : (a ++ b) ++ c = a ++ b ++ c.
Proof. induction a as [|x a IH]; cbn; [reflexivity | now rewrite IH]. Qed.

Lemma split_not_nil sep s : JS.split sep s <> [].
Proof.
  destruct s as [|c r]; cbn; [discriminate|].
  destruct (Ascii.eqb c sep); [discriminate|].
  destruct (JS.split sep r); discriminate.
Qed.

Lemma concat_cons sep x y l :
  String.concat sep (x :: y :: l) = x ++ sep ++ String.concat sep (y :: l).
Proof. reflexivity. Qed.

(** Joining the pieces of a split gives the string back. *)
Lemma join_split sep s :
  JS.join (String sep "") (JS.split sep s) = s.
Proof.
  unfold JS.join.
  induction s as [|c r IH]; [reflexivity|].
  cbn [JS.split].
  destruct (Ascii.eqb c sep) eqn:E.
  - apply Ascii.eqb_eq in E. subst c.
    pose proof (split_not_nil sep r) as Hn.
    destruct (JS.split sep r) as [|w ws]; [congruence|].
    rewrite concat_cons, IH. reflexivity.
  - pose proof (split_not_nil sep r) as Hn.
    destruct (JS.split sep r) as [|w ws]; [congruence|].
    destruct ws as [|w' ws].
    + cbn in *. now rewrite IH.
    + rewrite concat_cons. rewrite concat_cons in IH.
      rewrite <- IH. reflexivity.
Qed.

Lemma join_snoc sep pre w :
  pre <> [] ->
  String.concat sep (pre ++ [w]) = String.concat sep pre ++ sep ++ w.
Proof.
  induction pre as [|x pre IH]; [congruence|]; intros _.
  destruct pre as [|y pre].
  - reflexivity.
  - change ((x :: y :: pre) ++ [w])%list with (x :: y :: (pre ++ [w]))%list.
    rewrite !concat_cons.
    change (y :: (pre ++ [w]))%list with ((y :: pre) ++ [w])%list.
    rewrite IH by discriminate.
    now rewrite !append_assoc.
Qed.

Lemma append_nil_r (a : string) : a ++ "" = a.
Proof. induction a as [|x a IH]; cbn; [reflexivity | now rewrite IH]. Qed.

(** One step of [trimStart]. *)
Lemma trimStart_step s :
  JS.trimStart s
  = match JS.space_width s with
    | 0 => s
    | k => JS.trimStart (JS.drop k s)
    end.
Proof.
  destruct s as [|c1 [|c2 [|c3 r]]]; cbn; try reflexivity.
  - now destruct (JS.is_space c1).
  - destruct (JS.is_space c1); [reflexivity|].
    now destruct (JS.is_space2 c1 c2).
  - destruct (JS.is_space c1); [reflexivity|].
    destruct (JS.is_space2 c1 c2); [reflexivity|].
    now destruct (JS.is_space3 c1 c2 c3).
Qed.

Lemma space_width_bound s :
  JS.space_width s <= 3 /\ JS.space_width s <= String.length s.
Proof.
  destruct s as [|c1 [|c2 [|c3 r]]]; cbn; try lia.
  - destruct (JS.is_space c1); lia.
  - destruct (JS.is_space c1); [lia|]. destruct (JS.is_space2 c1 c2); lia.
  - destruct (JS.is_space c1); [lia|].
    destruct (JS.is_space2 c1 c2); [lia|].
    destruct (JS.is_space3 c1 c2 c3); lia.
Qed.

Lemma drop_length k s : String.length (JS.drop k s) = String.length s - k.
Proof.
  revert s. induction k as [|k IH]; intros [|c r]; cbn; try lia. apply IH.
Qed.

Lemma drop_app k s u :
  k <= String.length s -> JS.drop k (s ++ u) = JS.drop k s ++ u.
Proof.
  revert s. induction k as [|k IH]; intros [|c r] H; cbn in *;
    try reflexivity; try lia.
  apply IH. lia.
Qed.

(** Strong induction on the length of a string. *)
Lemma string_length_ind (P : string -> Prop) :
  (forall s, (forall t, String.length t < String.length s -> P t) -> P s) ->
  forall s, P s.
Proof.
  intros H s.
  assert (G : forall n t, String.length t < n -> P t).
  { induction n as [|n IH]; intros t Ht; [lia|].
    apply H. intros u Hu. apply IH. lia. }
  apply (G (S (String.length s))). lia.
Qed.

Lemma is_space2_high c1 c2 :
  JS.is_space2 c1 c2 = true -> 128 <= nat_of_ascii c2.
Proof.
  unfold JS.is_space2. intros H. apply andb_true_iff in H.
  destruct H as [_ H]. apply Ascii.eqb_eq in H. subst c2. cbn. lia.
Qed.

Lemma is_space3_high c1 c2 c3 :
  JS.is_space3 c1 c2 c3 = true -> 128 <= nat_of_ascii c3.
Proof.
  unfold JS.is_space3. intros H.
  repeat match type of H with
  | (_ || _) = true => apply orb_true_iff in H; destruct H as [H|H]
  | (_ && _) = true => apply andb_true_iff in H; destruct H as [? H]
  end;
  try (apply Ascii.eqb_eq in H; subst c3; cbn; lia).
  match goal with
  | H0 : (128 <=? _)%nat = true |- _ => now apply Nat.leb_le in H0
  end.
Qed.

Lemma is_space3_mid c1 c2 c3 :
  JS.is_space3 c1 c2 c3 = true -> 128 <= nat_of_ascii c2.
Proof.
  unfold JS.is_space3. intros H.
  repeat match type of H with
  | (_ || _) = true => apply orb_true_iff in H; destruct H as [H|H]
  | (_ && _) = true => apply andb_true_iff in H; destruct H as [H ?]
  end;
  match goal with
  | H0 : Ascii.eqb c2 _ = true |- _ =>
      apply Ascii.eqb_eq in H0; subst c2; cbn; lia
  end.
Qed.

(** A white-space character at the head stays one whatever follows. *)
Lemma space_width_app s u :
  JS.space_width s <> 0 -> JS.space_width (s ++ u) = JS.space_width s.
Proof.
  destruct s as [|c1 [|c2 [|c3 r]]]; cbn; try congruence.
  - destruct (JS.is_space c1); congruence.
  - destruct (JS.is_space c1); [reflexivity|].
    destruct (JS.is_space2 c1 c2); congruence.
Qed.

(** A byte below 128 never completes a white-space character. *)
Lemma space_width_app_low s c u :
  nat_of_ascii c < 128 -> s <> "" ->
  JS.space_width s = 0 -> JS.space_width (s ++ String c u) = 0.
Proof.
  intros Hc Hs.
  destruct s as [|c1 [|c2 [|c3 r]]]; cbn; try congruence.
  - destruct (JS.is_space c1); [discriminate|]. intros _.
    destruct (JS.is_space2 c1 c) eqn:E.
    + apply is_space2_high in E. lia.
    + destruct u as [|c3 u]; [reflexivity|].
      destruct (JS.is_space3 c1 c c3) eqn:E3; [|reflexivity].
      apply is_space3_mid in E3. lia.
  - destruct (JS.is_space c1); [discriminate|].
    destruct (JS.is_space2 c1 c2); [discriminate|]. intros _.
    destruct (JS.is_space3 c1 c2 c) eqn:E; [|reflexivity].
    apply is_space3_high in E. lia.
Qed.

Lemma blank_iff s : JS.blank s = true <-> JS.trimStart s = "".
Proof. unfold JS.blank. destruct (JS.trimStart s); split; congruence. Qed.

(** What [trimStart] returns is empty or starts with no white space. *)
Lemma trimStart_clean s : JS.starts_clean (JS.trimStart s).
Proof.
  unfold JS.starts_clean.
  induction s as [s IH] using string_length_ind.
  rewrite trimStart_step.
  destruct (JS.space_width s) as [|k] eqn:E; [exact E|].
  apply IH. rewrite drop_length.
  pose proof (space_width_bound s). lia.
Qed.

Lemma trimStart_of_clean s : JS.starts_clean s -> JS.trimStart s = s.
Proof. unfold JS.starts_clean. intros H. now rewrite trimStart_step, H. Qed.

Lemma trimStart_idem s : JS.trimStart (JS.trimStart s) = JS.trimStart s.
Proof. apply trimStart_of_clean, trimStart_clean. Qed.

(** White space at the head of a string goes whatever follows it. *)
Lemma trimStart_app_blank s u :
  JS.blank s = true -> JS.trimStart (s ++ u) = JS.trimStart u.
Proof.
  induction s as [s IH] using string_length_ind. intros Hb.
  destruct s as [|c r]; [reflexivity|].
  apply blank_iff in Hb. rewrite trimStart_step in Hb.
  destruct (JS.space_width (String c r)) as [|k] eqn:E; [discriminate|].
  rewrite trimStart_step, space_width_app, E by congruence.
  pose proof (space_width_bound (String c r)) as [_ Hk].
  rewrite drop_app by lia.
  apply IH; [rewrite drop_length; cbn in *; lia | now apply blank_iff].
Qed.

(** What [trimStart] keeps of a string is kept when a byte below 128 and
    more come after it. *)
Lemma trimStart_app_low s c u :
  nat_of_ascii c < 128 -> JS.blank s = false ->
  JS.trimStart (s ++ String c u) = JS.trimStart s ++ String c u.
Proof.
  intros Hc. induction s as [s IH] using string_length_ind. intros Hb.
  destruct s as [|c1 r]; [discriminate|].
  rewrite (trimStart_step (String c1 r)).
  destruct (JS.space_width (String c1 r)) as [|k] eqn:E.
  - rewrite trimStart_step, space_width_app_low; try assumption; try reflexivity.
    discriminate.
  - rewrite trimStart_step, space_width_app, E by congruence.
    pose proof (space_width_bound (String c1 r)) as [_ Hk].
    rewrite drop_app by lia.
    apply IH; [rewrite drop_length; cbn in *; lia|].
    unfold JS.blank in *. rewrite trimStart_step, E in Hb. exact Hb.
Qed.

Lemma blank_app_space s : JS.blank (s ++ " ") = JS.blank s.
Proof.
  destruct (JS.blank s) eqn:E.
  - apply blank_iff. now rewrite trimStart_app_blank.
  - unfold JS.blank. rewrite trimStart_app_low by (cbn; lia || exact E).
    unfold JS.blank in E. now destruct (JS.trimStart s).
Qed.

Lemma trimEnd_app_space s : JS.trimEnd (s ++ " ") = JS.trimEnd s.
Proof.
  induction s as [|c r IH]; [reflexivity|].
  change (String c r ++ " ") with (String c (r ++ " ")).
  cbn [JS.trimEnd].
  change (String c (r ++ " ")) with (String c r ++ " ").
  now rewrite blank_app_space, IH.
Qed.

Lemma trim_app_space s : JS.trim (s ++ " ") = JS.trim s.
Proof.
  unfold JS.trim. destruct (JS.blank s) eqn:E.
  - rewrite trimStart_app_blank by exact E. apply blank_iff in E.
    now rewrite E.
  - rewrite trimStart_app_low by (cbn; lia || exact E).
    apply trimEnd_app_space.
Qed.

(** What [trimEnd] cuts off is white space. *)
Lemma trimEnd_split s :
  exists b, s = JS.trimEnd s ++ b /\ JS.blank b = true.
Proof.
  induction s as [|c r (b & IH & Hb)]; [now exists ""|].
  cbn [JS.trimEnd]. destruct (JS.blank (String c r)) eqn:E.
  - now exists (String c r).
  - exists b. split; [|exact Hb]. cbn. now rewrite <- IH.
Qed.

Lemma blank_app a b :
  JS.blank a = true -> JS.blank b = true -> JS.blank (a ++ b) = true.
Proof.
  intros Ha Hb. apply blank_iff. rewrite trimStart_app_blank by exact Ha.
  now apply blank_iff.
Qed.

Lemma trimEnd_blank s : JS.blank s = true -> JS.trimEnd s = "".
Proof. destruct s as [|c r]; [reflexivity|]. cbn [JS.trimEnd]. now intros ->. Qed.

Lemma trimEnd_idem s : JS.trimEnd (JS.trimEnd s) = JS.trimEnd s.
Proof.
  induction s as [|c r IH]; [reflexivity|]. cbn [JS.trimEnd].
  destruct (JS.blank (String c r)) eqn:E; [reflexivity|].
  cbn [JS.trimEnd]. rewrite IH.
  destruct (JS.blank (String c (JS.trimEnd r))) eqn:E'; [|reflexivity].
  exfalso. destruct (trimEnd_split r) as (b & Hr & Hb).
  assert (H : JS.blank (String c (JS.trimEnd r) ++ b) = true)
    by now apply blank_app.
  cbn [append] in H. rewrite <- Hr in H. congruence.
Qed.

Lemma trimEnd_clean s : JS.starts_clean s -> JS.starts_clean (JS.trimEnd s).
Proof.
  unfold JS.starts_clean. intros H.
  destruct (JS.space_width (JS.trimEnd s)) as [|k] eqn:E; [reflexivity|].
  exfalso. destruct (trimEnd_split s) as (b & Hs & _).
  assert (H' : JS.space_width (JS.trimEnd s ++ b) = S k)
    by (rewrite space_width_app; congruence).
  rewrite <- Hs in H'. congruence.
Qed.

Lemma trim_idem s : JS.trim (JS.trim s) = JS.trim s.
Proof.
  unfold JS.trim.
  rewrite (trimStart_of_clean (JS.trimEnd (JS.trimStart s)))
    by apply trimEnd_clean, trimStart_clean.
  apply trimEnd_idem.
Qed.

(** A string that [trim] leaves alone is what [trim] makes of it followed by
    a space. *)
Lemma trim_fixed_app_space s : JS.trim s = s -> JS.trim (s ++ " ") = s.
Proof. intros H. now rewrite trim_app_space. Qed.

Lemma trim_empty : JS.trim "" = "".
Proof. reflexivity. Qed.

End StringFacts.

(* ------------------------------------------------------------------------- *)
(** ** Properties of [wrapText] *)
(* ------------------------------------------------------------------------- *)

Section WrapFacts.

Variable measure : string -> Q.
Variable maxWidth : Q.

Lemma wrap_word_fits line ls word :
  (JS.truthy line = true -> (measure (line ++ word ++ " ") <= maxWidth)%Q) ->
  Video.wrap_word measure maxWidth (line, ls) word = (line ++ word ++ " ", ls).
Proof.
  intros H. unfold Video.wrap_word.
  destruct (JS.truthy line) eqn:T.
  - unfold Video.gt. apply Qle_bool_iff in H; [|reflexivity]. now rewrite H.
  - now rewrite andb_false_r.
Qed.

(** While every test line fits, the loop only extends the current line. *)
Lemma fold_fits ws : forall pre,
  pre <> [] ->
  (forall k, 1 <= k <= List.length ws ->
     (measure (String.concat " " (pre ++ firstn k ws) ++ " ") <= maxWidth)%Q) ->
  fold_left (Video.wrap_word measure maxWidth) ws
            (String.concat " " pre ++ " ", [])
  = (String.concat " " (pre ++ ws) ++ " ", []).
Proof.
  induction ws as [|w ws IH]; intros pre Hpre Hfit.
  - now rewrite app_nil_r.
  - cbn [fold_left].
    assert (E : (String.concat " " pre ++ " ") ++ w ++ " "
                = String.concat " " (pre ++ [w]) ++ " ").
    { rewrite join_snoc by assumption. now rewrite !append_assoc. }
    rewrite wrap_word_fits.
    + rewrite E.
      replace (pre ++ w :: ws)%list with ((pre ++ [w]) ++ ws)%list
        by now rewrite <- app_assoc.
      apply IH.
      * destruct pre; discriminate.
      * intros k Hk. rewrite <- app_assoc. cbn [app].
        apply (Hfit (S k)). cbn [List.length]. lia.
    + intros _. rewrite E. apply (Hfit 1). cbn [List.length]. lia.
Qed.

End WrapFacts.

(** C5, as the code has it.  A text that [trim] leaves unchanged comes back
    as one line equal to itself when, moreover, every test line the loop
    measures from the second word on (the first [k] words joined by single
    spaces, followed by one space) is at most [maxWidth] wide. *)
Theorem wrapText_single_line :
  forall (measure : string -> Q) (text : string) (maxWidth lineHeight : Q),
    JS.trim text = text ->
    (forall k, 2 <= k <= List.length (JS.split " " text) ->
       (measure (JS.join " " (firstn k (JS.split " " text)) ++ " ")
        <= maxWidth)%Q) ->
    Video.lines (Video.wrapText measure text maxWidth lineHeight) = [text].
Proof.
  intros measure text maxWidth lineHeight Htrim Hfit. unfold Video.wrapText.
  pose proof (join_split " " text) as Hjs.
  pose proof (split_not_nil " " text) as Hn.
  destruct (JS.split " " text) as [|w ws]; [congruence|].
  cbn [fold_left].
  rewrite (wrap_word_fits measure maxWidth "" [] w) by (cbn; discriminate).
  change ("" ++ w ++ " ") with (String.concat " " [w] ++ " ").
  rewrite fold_fits.
  - cbn [app]. unfold JS.join in Hjs. rewrite Hjs.
    assert (T : JS.truthy (text ++ " ") = true) by (destruct text; reflexivity).
    rewrite T. cbn [Video.lines app].
    now rewrite trim_fixed_app_space.
  - discriminate.
  - intros k Hk. cbn [app]. apply (Hfit (S k)). cbn [List.length]. lia.
Qed.

Lemma wrapText_single_line_witness :
  Video.lines (Video.wrapText (Demo.measure "700 65px serif") "ab cd" 60 76)
  = ["ab cd"].
Proof.
  apply wrapText_single_line.
  - reflexivity.
  - intros k Hk. cbn in Hk. assert (k = 2) by lia. subst k.
    vm_compute. discriminate.
Defined.

(** C5, against the claim as it stands: at ten pixels a character, ["ab cd"]
    is 50 wide, under a maximum of 55, and comes back as two lines, because
    the loop measures the line with the space it appends; and [" hi"], 30
    wide, comes back without its leading space. *)
Lemma wrapText_fitting_text_changed :
  ((Demo.measure "700 65px serif" "ab cd" < 55)%Q
   /\ Video.lines (Video.wrapText (Demo.measure "700 65px serif") "ab cd" 55 76)
      = ["ab"; "cd"])
  /\ ((Demo.measure "700 65px serif" " hi" < 55)%Q
      /\ Video.lines (Video.wrapText (Demo.measure "700 65px serif") " hi" 55 76)
         = ["hi"]).
Proof. repeat split. Qed.

(* ------------------------------------------------------------------------- *)
(** ** Properties of the frame renderer *)
(* ------------------------------------------------------------------------- *)

Section CanvasFacts.

Import Video.

Variable env : Env.

Lemma uncentered_set_fillColor css ctx :
  uncentered ctx -> uncentered (set_fillColor env css ctx).
Proof. unfold set_fillColor. now destruct (validColor env css). Qed.

Lemma uncentered_set_fillGradient g ctx :
  uncentered ctx -> uncentered (set_fillGradient g ctx).
Proof. exact (fun H => H). Qed.

Lemma uncentered_set_font f ctx : uncentered ctx -> uncentered (set_font f ctx).
Proof. exact (fun H => H). Qed.

Lemma uncentered_set_textBaseline b ctx :
  uncentered ctx -> uncentered (set_textBaseline b ctx).
Proof. exact (fun H => H). Qed.

Lemma uncentered_paint op ctx :
  centered op = false -> uncentered ctx -> uncentered (paint op ctx).
Proof.
  intros Hop [Ha Hd]. split; [exact Ha|].
  cbn. rewrite forallb_app, Hd. cbn. now rewrite Hop.
Qed.

Lemma uncentered_fillRect x y w h ctx :
  uncentered ctx -> uncentered (fillRect x y w h ctx).
Proof. intros H. now apply uncentered_paint. Qed.

Lemma uncentered_fillText text x y ctx :
  uncentered ctx -> uncentered (fillText text x y ctx).
Proof. intros H. apply uncentered_paint; [apply H | exact H]. Qed.

Lemma uncentered_fillLines ls x top step : forall index ctx,
  uncentered ctx -> uncentered (fillLines ls x top step index ctx).
Proof.
  induction ls as [|l ls IH]; intros index ctx H; [exact H|].
  cbn [fillLines]. apply IH. now apply uncentered_fillText.
Qed.

Lemma uncentered_fresh : uncentered fresh_ctx.
Proof. split; reflexivity. Qed.

(** What [drawImage] of the temporary canvas does when it returns, and
    what it raises. *)
Lemma draw_canvas_ok tmpCanvas offsetX offsetY width height ctx ctx' :
  draw_canvas tmpCanvas offsetX offsetY width height ctx = Ok ctx' ->
  ctx' = ctx
  \/ exists ox oy,
       offsetX = JS.Fin ox /\ offsetY = JS.Fin oy
       /\ canvas_width tmpCanvas <> 0%Z /\ canvas_height tmpCanvas <> 0%Z
       /\ ctx' = paint (DrawImage tmpCanvas ox oy width height 0 0 width height)
                       ctx.
Proof.
  unfold draw_canvas.
  destruct offsetX as [ox| | |]; try (intros [= <-]; now left).
  destruct offsetY as [oy| | |]; try (intros [= <-]; now left).
  destruct (canvas_width tmpCanvas =? 0)%Z eqn:Ew; [discriminate|].
  destruct (canvas_height tmpCanvas =? 0)%Z eqn:Eh; [discriminate|].
  cbn [orb].
  destruct (Qeq_bool width 0 || Qeq_bool height 0);
    intros [= <-]; [now left|].
  right. exists ox, oy. apply Z.eqb_neq in Ew. apply Z.eqb_neq in Eh.
  now repeat split.
Qed.


Lemma drawBackground_uncentered ctx scene width height ctx' :
  uncentered ctx ->
  drawBackground env ctx scene width height = Ok ctx' ->
  uncentered ctx'.
Proof.
  intros H. unfold drawBackground.
  destruct (background scene) as [value|value|value].
  - destruct (addColorStops _ _ _ _ _); [|discriminate].
    intros [= <-]. now apply uncentered_fillRect, uncentered_set_fillGradient.
  - destruct (loadImage env value) as [[iw ih]|]; [|discriminate].
    destruct (getContext env _ _); [|discriminate].
    intros Hd. apply draw_canvas_ok in Hd.
    destruct Hd as [->|(ox & oy & _ & _ & _ & _ & ->)]; [exact H|].
    now apply uncentered_paint.
  - intros [= <-]. now apply uncentered_fillRect, uncentered_set_fillColor.
Qed.

Ltac pull_let :=
  match goal with
  | |- ?P (let x := ?v in @?b x) => change (let x := v in P (b x)); intro
  end.

Ltac step_uncentered :=
  first [ apply uncentered_fillLines
        | apply uncentered_set_fillColor
        | apply uncentered_set_font
        | apply uncentered_set_textBaseline
        | apply uncentered_fillRect ].

Lemma drawForeground_uncentered scene width height fontFamily ctx :
  (cta scene = None \/ cta scene = Some "") ->
  uncentered ctx ->
  uncentered (drawForeground env scene width height fontFamily ctx).
Proof.
  intros Hcta H. unfold drawForeground.
  repeat pull_let.
  destruct Hcta as [E | E]; rewrite E; cbn [JS.truthy];
    repeat step_uncentered; exact H.
Qed.

End CanvasFacts.

Lemma draws_button_centered label ops :
  Video.draws_button label ops ->
  forallb (fun op => negb (Video.centered op)) ops = false.
Proof.
  induction 1 as [bstyle x y w h tstyle font tx ty rest Hx Hy | op ops Hb IH].
  - reflexivity.
  - cbn. rewrite IH. apply andb_false_r.
Qed.

Lemma draws_button_app label pre ops :
  Video.draws_button label ops -> Video.draws_button label (pre ++ ops).
Proof.
  intros H. induction pre as [|op pre IH]; [exact H|].
  cbn. now apply Video.button_later.
Qed.

Lemma uncentered_no_button ctx label :
  Video.uncentered ctx -> ~ Video.draws_button label (Video.drawn ctx).
Proof.
  intros [_ Hd] Hb. apply draws_button_centered in Hb. congruence.
Qed.

Section ButtonFacts.

Import Video.

Variable env : Env.

Lemma drawn_set_fillColor css ctx :
  drawn (set_fillColor env css ctx) = drawn ctx.
Proof. unfold set_fillColor. now destruct (validColor env css). Qed.

(** The block of the button paints a rectangle and, centred on it, the
    label. *)
Lemma drawCta_button scene label width height fontFamily blockEnd ctx :
  draws_button label
    (drawn (drawCta env scene label width height fontFamily blockEnd ctx)).
Proof.
  unfold drawCta. cbn -[JS.round Qplus Qminus Qmult Qdiv].
  rewrite drawn_set_fillColor. cbn -[JS.round Qplus Qminus Qmult Qdiv].
  rewrite drawn_set_fillColor.
  rewrite <- app_assoc. apply draws_button_app. cbn [app].
  apply button_here; field.
Qed.

Lemma paintScene_inv scene options canvas :
  paintScene env scene options = Ok canvas ->
  exists ctx,
    drawBackground env fresh_ctx scene (width_of options) (height_of options)
      = Ok ctx
    /\ canvas
       = drawForeground env scene (width_of options) (height_of options)
           (match opt_fontFamily options with
            | Some f => f
            | None => default_fontFamily
            end) ctx.
Proof.
  unfold paintScene, width_of, height_of.
  destruct (getContext env _ _); [|discriminate].
  destruct (drawBackground env fresh_ctx scene _ _) as [ctx|e]; [|discriminate].
  intros [= <-]. now exists ctx.
Qed.

Lemma drawForeground_cta scene label width height fontFamily ctx :
  cta scene = Some label -> label <> "" ->
  draws_button label
    (drawn (drawForeground env scene width height fontFamily ctx)).
Proof.
  intros E Hl. unfold drawForeground.
  repeat match goal with
  | |- ?P (drawn (let x := ?v in @?b x)) =>
      change (let x := v in P (drawn (b x))); intro
  end.
  rewrite E.
  assert (T : JS.truthy label = true) by (destruct label; [congruence | reflexivity]).
  rewrite T. apply drawCta_button.
Qed.

Lemma drawForeground_without_cta scene width height fontFamily ctx :
  cta scene = Some "" ->
  drawForeground env scene width height fontFamily ctx
  = drawForeground env (without_cta scene) width height fontFamily ctx.
Proof.
  intros E. unfold drawForeground. rewrite E. reflexivity.
Qed.







End ButtonFacts.



(** C9, against the claim as it stands: the button is drawn below the text,
    wherever the text ends.  Under a narration of thirty lines the rectangle
    that carries the label starts below the bottom edge of the canvas, and
    the frame shows no button. *)
Lemma button_below_canvas :
  cta Samples.crowded_scene = Some "Go"
  /\ exists canvas,
       Video.paintScene Demo.env Samples.crowded_scene Video.no_options
       = Ok canvas
       /\ Forall (fun r => let '(x, y, w, h) := r in
                           Qle_bool Video.default_height y = true)
                 (Video.labelled_rects "Go" (Video.drawn canvas))
       /\ Video.shows_button 1080 1920 "Go" (Video.drawn canvas) = false
       /\ Video.canvas_width_of Video.default_width = 1080%Z
       /\ Video.canvas_height_of Video.default_height = 1920%Z.
Proof.
  split; [reflexivity|].
  destruct (Video.paintScene Demo.env Samples.crowded_scene Video.no_options)
    as [canvas|e] eqn:E; [|vm_compute in E; discriminate].
  exists canvas. split; [reflexivity|].
  assert (Hc : Ok canvas
               = Video.paintScene Demo.env Samples.crowded_scene
                   Video.no_options) by (symmetry; exact E).
  assert (Hd : Video.labelled_rects "Go" (Video.drawn canvas)
               = Video.labelled_rects "Go"
                   (match Video.paintScene Demo.env Samples.crowded_scene
                            Video.no_options with
                    | Ok c => Video.drawn c
                    | Err _ => []
                    end)) by (now rewrite <- Hc).
  unfold Video.shows_button. rewrite Hd. clear.
  split; [vm_compute; repeat constructor|].
  split; [vm_compute; reflexivity|]. split; reflexivity.
Qed.

(** C10. A brief whose [callToAction] is the empty string gives a last scene
    whose [cta] is the empty string, not an absent one; and the renderer
    paints a scene whose [cta] is the empty string exactly as it paints the
    scene without [cta]: the same canvas, the same frame, no button. *)
Theorem empty_cta_kept_and_not_drawn :
  (forall (src : Storyboard.RandomSource) (uuid : string)
          (brief : StoryBrief.t) (n : nat),
      StoryBrief.callToAction brief = "" ->
      let scenes := fst (Storyboard.generateStoryboard src uuid brief n) in
      option_map cta (nth_error scenes (List.length scenes - 1))
      = Some (Some ""))
  /\ (forall (env : Video.Env) (scene : Scene) (options : Video.RenderOptions),
         cta scene = Some "" ->
         Video.paintScene env scene options
         = Video.paintScene env (Video.without_cta scene) options
         /\ Video.renderSceneToFrame env scene options
            = Video.renderSceneToFrame env (Video.without_cta scene) options
         /\ (forall canvas,
                Video.paintScene env scene options = Ok canvas ->
                forall label,
                  ~ Video.draws_button label (Video.drawn canvas))).
Proof.
  split.
  - intros src uuid brief n Hc scenes.
    destruct (first_and_last src uuid brief n) as [_ Hlast].
    fold scenes in Hlast. now rewrite Hlast, Hc.
  - intros env scene options Hcta.
    assert (Hp : Video.paintScene env scene options
                 = Video.paintScene env (Video.without_cta scene) options).
    { unfold Video.paintScene.
      destruct (Video.getContext env _ _); [|reflexivity].
      change (Video.drawBackground env Video.fresh_ctx (Video.without_cta scene))
        with (Video.drawBackground env Video.fresh_ctx scene).
      destruct (Video.drawBackground env Video.fresh_ctx scene _ _);
        [|reflexivity].
      now rewrite drawForeground_without_cta. }
    split; [exact Hp|]. split.
    + unfold Video.renderSceneToFrame. now rewrite Hp.
    + intros canvas Hc label.
      destruct (paintScene_inv env scene options canvas Hc) as (ctx & Hbg & ->).
      apply uncentered_no_button.
      apply drawForeground_uncentered; [now right|].
      eapply drawBackground_uncentered; [apply uncentered_fresh | exact Hbg].
Qed.

Lemma empty_cta_kept_and_not_drawn_witness :
  option_map cta
    (nth_error
       (fst (Storyboard.generateStoryboard Demo.source "1a2b3c4d-5e6f"
               (StoryBrief.mk "Launch" "creators" direct "" short) 0)) 2)
  = Some (Some "")
  /\ Video.renderSceneToFrame Demo.env (Demo.scene 4 (color "#112233") (Some ""))
       Video.no_options
     = Video.renderSceneToFrame Demo.env (Demo.scene 4 (color "#112233") None)
         Video.no_options.
Proof.
  destruct empty_cta_kept_and_not_drawn as [Hgen Hdraw].
  split.
  - apply (Hgen Demo.source "1a2b3c4d-5e6f"
             (StoryBrief.mk "Launch" "creators" direct "" short) 0).
    reflexivity.
  - apply (Hdraw Demo.env (Demo.scene 4 (color "#112233") (Some ""))
             Video.no_options).
    reflexivity.
Defined.

(** C8. When the background of a scene is an image that fails to load,
    [drawBackground] raises [Failed to load image <url>]; so
    [renderSceneToFrame] returns no frame, and what it raises is that error
    whenever it obtained its canvas context, that is whenever the image was
    asked for. *)
Theorem failed_image_load_is_raised :
  forall (env : Video.Env) (scene : Scene) (options : Video.RenderOptions)
         (url : string),
    background scene = image url ->
    Video.fetchImage env url = None ->
    (forall ctx width height,
        Video.drawBackground env ctx scene width height
        = Err (Error ("Failed to load image " ++ url)))
    /\ (exists e, Video.renderSceneToFrame env scene options = Err e)
    /\ (Video.getContext env
          (Video.canvas_width_of (Video.width_of options))
          (Video.canvas_height_of (Video.height_of options))
        = true ->
        Video.renderSceneToFrame env scene options
        = Err (Error ("Failed to load image " ++ url))).
Proof.
  intros env scene options url Hbg Hfetch.
  assert (Hdraw : forall ctx width height,
             Video.drawBackground env ctx scene width height
             = Err (Error ("Failed to load image " ++ url))).
  { intros ctx width height. unfold Video.drawBackground, Video.loadImage.
    now rewrite Hbg, Hfetch. }
  split; [exact Hdraw|].
  unfold Video.renderSceneToFrame, Video.paintScene, Video.width_of,
    Video.height_of.
  destruct (Video.getContext env _ _).
  - rewrite Hdraw. split; [eexists|]; reflexivity.
  - split; [eexists; reflexivity | discriminate].
Qed.

Lemma failed_image_load_is_raised_witness :
  Video.renderSceneToFrame Demo.env
    (Demo.scene 4 (image "https://example.com/missing.png") None)
    Video.no_options
  = Err (Error "Failed to load image https://example.com/missing.png").
Proof.
  apply (failed_image_load_is_raised Demo.env
           (Demo.scene 4 (image "https://example.com/missing.png") None)
           Video.no_options "https://example.com/missing.png");
    reflexivity.
Defined.

(** C6, as the code has it.  When the style string of a gradient background
    splits into fewer than three comma-separated tokens, [drawBackground]
    raises nothing on a canvas that accepts the three default colours, and
    fills the whole canvas with the gradient that runs from the top-left to
    the bottom-right corner through ['#0f172a'], ['#1e293b'] and ['#3b82f6']
    at offsets 0, 1/2 and 1. *)
Theorem short_gradient_gets_default_stops :
  forall (env : Video.Env) (ctx : Video.Ctx) (scene : Scene) (value : string)
         (width height : Q),
    background scene = gradient value ->
    List.length (Video.gradient_tokens value) < 3 ->
    Forall (fun css => Video.validColor env css = true) Video.fallback_stops ->
    Video.drawBackground env ctx scene width height
    = Ok (Video.fillRect 0 0 width height
            (Video.set_fillGradient
               {| Video.x0 := 0; Video.y0 := 0;
                  Video.x1 := width; Video.y1 := height;
                  Video.stops := [(0 / 2, "#0f172a"); (1 / 2, "#1e293b");
                                  (2 / 2, "#3b82f6")]%Q |} ctx)).
Proof.
  intros env ctx scene value width height Hbg Hlen Hvalid.
  unfold Video.drawBackground, Video.gradient_colors. rewrite Hbg.
  apply Nat.leb_gt in Hlen. rewrite Hlen.
  unfold Video.fallback_stops in *.
  inversion Hvalid as [|c1 l1 H1 Hv1]; subst.
  inversion Hv1 as [|c2 l2 H2 Hv2]; subst.
  inversion Hv2 as [|c3 l3 H3 _]; subst.
  cbn [Video.addColorStops List.length]. unfold Video.addColorStop.
  rewrite H1. cbn [Video.stops Video.x0 Video.y0 Video.x1 Video.y1 app].
  rewrite H2. cbn [Video.stops Video.x0 Video.y0 Video.x1 Video.y1 app].
  rewrite H3. reflexivity.
Qed.

Lemma short_gradient_gets_default_stops_witness :
  exists g,
    Video.drawBackground Demo.env Video.fresh_ctx
      (Demo.scene 4 (gradient "nonsense") None) 1080 1920
    = Ok (Video.fillRect 0 0 1080 1920
            (Video.set_fillGradient g Video.fresh_ctx))
    /\ map snd (Video.stops g) = Video.fallback_stops.
Proof.
  eexists. split.
  - apply (short_gradient_gets_default_stops Demo.env Video.fresh_ctx
             (Demo.scene 4 (gradient "nonsense") None) "nonsense").
    + reflexivity.
    + cbn. lia.
    + repeat constructor.
  - reflexivity.
Defined.

(** C6, against the claim as it stands: [linear-gradient(,,)] has three
    tokens, so the two empty strings after the first are taken as the colour
    stops; no canvas accepts them, and [drawBackground] raises instead of
    painting the default gradient. *)
Lemma unusable_stops_without_fallback :
  Video.gradient_colors "linear-gradient(,,)" = [""; ""]
  /\ Forall (fun css => Video.validColor Demo.env css = false)
            (Video.gradient_colors "linear-gradient(,,)")
  /\ Video.drawBackground Demo.env Video.fresh_ctx
       (Demo.scene 4 (gradient "linear-gradient(,,)") None) 1080 1920
     = Err (DOMException "SyntaxError").
Proof. repeat split; repeat constructor. Qed.

(* ------------------------------------------------------------------------- *)
(** ** Properties of [generate] *)
(* ------------------------------------------------------------------------- *)

Section GeneratorFacts.

Import VideoGenerator.

Variable rt : Runtime.
Variable opts : GenerateOptions.

Lemma bind_ok {A B} (m : M A) (k : A -> M B) w b w' :
  bind m k w = (Ok b, w') ->
  exists a w1, m w = (Ok a, w1) /\ k a w1 = (Ok b, w').
Proof.
  unfold bind. destruct (m w) as [[a|e] w1]; [|discriminate].
  intros H. now exists a, w1.
Qed.

Lemma with_files_ok {A} (f : FileSystem -> Result (A * FileSystem)) w a w' :
  with_files f w = (Ok a, w') ->
  exists fs', f (scratch w) = Ok (a, fs')
              /\ trace w' = trace w /\ scratch w' = fs'.
Proof.
  unfold with_files, scratch.
  destruct (ffmpegRef w) as [inst|]; [|discriminate].
  destruct (loaded inst); [|discriminate].
  destruct (f (files inst)) as [[a' fs']|e]; [|discriminate].
  intros [= <- <-]. now exists fs'.
Qed.

Lemma with_files_any {A} (f : FileSystem -> Result (A * FileSystem)) w r w' :
  with_files f w = (r, w') -> trace w' = trace w.
Proof.
  unfold with_files.
  destruct (ffmpegRef w) as [inst|]; [|now intros [= _ <-]].
  destruct (loaded inst); [|now intros [= _ <-]].
  destruct (f (files inst)) as [[a' fs']|e]; now intros [= _ <-].
Qed.

Lemma unlink_all_trace todo : forall w r w',
  unlink_all todo w = (r, w') -> trace w' = trace w.
Proof.
  induction todo as [|file todo IH]; intros w r w'; cbn [unlink_all].
  - now intros [= _ <-].
  - unfold bind, ignoring.
    destruct (FS_unlink ("/" ++ file) w) as [r1 w1] eqn:E1.
    apply with_files_any in E1.
    intros H. apply IH in H. congruence.
Qed.

(** A report changes the trace only, whatever its listener does. *)
Lemma notify_trace p w r w' :
  notify opts p w = (r, w') ->
  trace w' = (trace w ++ reports opts p)%list
  /\ scratch w' = scratch w /\ ffmpegRef w' = ffmpegRef w
  /\ isBusy w' = isBusy w /\ isReady w' = isReady w
  /\ progress w' = progress w /\ cancelled w' = cancelled w.
Proof.
  unfold notify, reports.
  destruct (onProgress opts) as [listener|]; intros [= _ <-]; cbn.
  - repeat split.
  - rewrite app_nil_r. repeat split.
Qed.

(** It raises only what its listener raises. *)
Lemma notify_err p w e w' :
  notify opts p w = (Err e, w') ->
  exists listener,
    onProgress opts = Some listener /\ listener (trace w) p = Some e.
Proof.
  unfold notify.
  destruct (onProgress opts) as [listener|]; [|discriminate].
  intros H. exists listener. split; [reflexivity|].
  destruct (listener (trace w) p); now inversion H.
Qed.

Lemma FS_writeFile_ok path data w u w' :
  FS_writeFile path data w = (Ok u, w') ->
  trace w' = trace w /\ scratch w' = store (base_name path) data (scratch w).
Proof.
  intros H. apply with_files_ok in H. destruct H as (fs' & Hf & Ht & Hs).
  cbv beta in Hf. unfold fs_writeFile in Hf.
  destruct (lookup (base_name path) (scratch w)) as [[d|]|];
    try discriminate; injection Hf as _ <-; now split.
Qed.

(** The loop, when it completes: the lines it pushed and what it did. *)
Lemma render_frames_ok total todo : forall index acc w body w',
  render_frames rt opts total todo index acc w = (Ok body, w') ->
  body = (acc ++ frame_lines todo index)%list
  /\ trace w' = (trace w ++ frame_events opts total todo index)%list.
Proof.
  induction todo as [|scene todo IH]; intros index acc w body w' H.
  - cbn in H. injection H as <- <-. now rewrite !app_nil_r.
  - cbn [render_frames] in H.
    apply bind_ok in H. destruct H as (image & w1 & Hr & H).
    apply bind_ok in H. destruct H as (u & w2 & Hw & H).
    apply bind_ok in H. destruct H as (u' & w3 & Hn & H).
    apply IH in H. destruct H as [-> Ht].
    unfold render in Hr. injection Hr as _ <-.
    apply FS_writeFile_ok in Hw. destruct Hw as [Hw _].
    apply notify_trace in Hn. destruct Hn as [Hn _].
    split.
    + now rewrite <- app_assoc.
    + rewrite Ht, Hn, Hw. cbn [trace log frame_events].
      now rewrite <- !app_assoc.
Qed.

Lemma fold_setProgress_trace ratios : forall w,
  trace (fold_left (fun w r => setProgress (percent r) w) ratios w) = trace w.
Proof. induction ratios as [|r rs IH]; intros w; cbn; [|rewrite IH]; reflexivity. Qed.

Lemma run_ok args w u w' :
  run rt args w = (Ok u, w') ->
  trace w' = (trace w ++ [RunEncoder args (scratch w)])%list.
Proof.
  unfold run, scratch.
  destruct (ffmpegRef w) as [inst|]; [|discriminate].
  destruct (loaded inst); [|discriminate].
  destruct (exec rt args (files inst)) as [ratios [fs|e]]; [|discriminate].
  intros H. injection H as _ <-. cbn [trace setRef].
  now rewrite fold_setProgress_trace.
Qed.

Lemma lookup_store_same name data fs :
  lookup name (store name data fs) = Some (FileNode data).
Proof.
  induction fs as [|[n node] fs IH]; cbn.
  - now rewrite String.eqb_refl.
  - destruct (String.eqb n name) eqn:E; cbn; rewrite E; [reflexivity | exact IH].
Qed.

Lemma lookup_store_other name other data fs :
  other <> name ->
  lookup name (store other data fs) = lookup name fs.
Proof.
  intros Hne. induction fs as [|[n node] fs IH]; cbn.
  - apply String.eqb_neq in Hne. now rewrite Hne.
  - destruct (String.eqb n other) eqn:E; cbn.
    + apply String.eqb_eq in E. subst n.
      apply String.eqb_neq in Hne. now rewrite Hne.
    + destruct (String.eqb n name); [reflexivity | exact IH].
Qed.

(** What a call of [generate] that returns a video has done. *)
Lemma generate_ok w v w' :
  generate rt opts w = (Ok v, w') ->
  scenes opts <> []
  /\ exists args fs,
      trace w'
      = (trace w
           ++ reports opts 0
           ++ frame_events opts (List.length (scenes opts)) (scenes opts) 0
           ++ [RunEncoder args fs]
           ++ reports opts 100)%list
      /\ lookup "frames.txt" fs
         = Some (FileNode
                   (JS.encode
                      (JS.join newline
                         (manifest_of (frame_lines (scenes opts) 0)
                            (List.length (scenes opts)))))).
Proof.
  unfold generate.
  destruct (ffmpegRef w) as [inst|]; [|discriminate].
  destruct (scenes opts) as [|s0 rest] eqn:Hs; [discriminate|].
  rewrite <- Hs. intros H. split; [rewrite Hs; discriminate|].
  apply bind_ok in H. destruct H as (u1 & w1 & H1 & H).
  apply bind_ok in H. destruct H as (u2 & w2 & H2 & H).
  apply bind_ok in H. destruct H as (u3 & w3 & H3 & H).
  injection H1 as _ <-. injection H2 as _ <-.
  apply notify_trace in H3. destruct H3 as [H3 _]. cbn [trace setBusy setProgress] in H3.
  unfold finally in H.
  destruct (generate_body rt opts _ w3) as [r w4] eqn:Hb.
  injection H as -> <-. cbn [trace setBusy].
  unfold generate_body in Hb.
  apply bind_ok in Hb. destruct Hb as (existing & w5 & H5 & Hb).
  apply with_files_any in H5.
  apply bind_ok in Hb. destruct Hb as (u6 & w6 & H6 & Hb).
  apply unlink_all_trace in H6.
  apply bind_ok in Hb. destruct Hb as (body & w7 & H7 & Hb).
  apply render_frames_ok in H7. destruct H7 as [-> H7]. cbn [app] in Hb.
  apply bind_ok in Hb. destruct Hb as (u8 & w8 & H8 & Hb).
  apply FS_writeFile_ok in H8. destruct H8 as [H8 H8s].
  apply bind_ok in Hb. destruct Hb as (u9 & w9 & H9 & Hb).
  apply bind_ok in Hb. destruct Hb as (u10 & w10 & H10 & Hb).
  apply bind_ok in Hb. destruct Hb as (data & w11 & H11 & Hb).
  apply with_files_any in H11.
  apply bind_ok in Hb. destruct Hb as (u12 & w12 & H12 & Hb).
  apply notify_trace in H12. destruct H12 as [H12 _].
  apply bind_ok in Hb. destruct Hb as (u13 & w13 & H13 & Hb).
  injection H13 as _ <-. injection Hb as _ <-. cbn [trace setProgress].
  assert (H9' : trace w9 = trace w8
                /\ lookup "frames.txt" (scratch w9)
                   = lookup "frames.txt" (scratch w8)).
  { destruct (audioFile opts) as [audio|].
    - apply FS_writeFile_ok in H9. destruct H9 as [H9 H9s]. split; [exact H9|].
      rewrite H9s. apply lookup_store_other. discriminate.
    - injection H9 as _ <-. now split. }
  destruct H9' as [H9t H9s].
  assert (H10' : exists args, trace w10
                 = (trace w9 ++ [RunEncoder args (scratch w9)])%list).
  { destruct (audioFile opts) as [audio|]; eexists; eapply run_ok; exact H10. }
  destruct H10' as [args H10'].
  exists args, (scratch w9). split.
  - rewrite H12, H11, H10', H9t, H8, H7, H6, H5, H3.
    now rewrite <- !app_assoc.
  - rewrite H9s, H8s. apply lookup_store_same.
Qed.

End GeneratorFacts.

(* ------------------------------------------------------------------------- *)
(** ** The manifest *)
(* ------------------------------------------------------------------------- *)

Section ManifestFacts.

Import VideoGenerator.


























End ManifestFacts.

(* ------------------------------------------------------------------------- *)
(** ** Progress reports *)
(* ------------------------------------------------------------------------- *)

Section ProgressFacts.

Import VideoGenerator.

Variable total : nat.
Hypothesis total_pos : 0 < total.

Lemma total_Qpos : (0 < inject_Z (Z.of_nat total))%Q.
Proof. change 0%Q with (inject_Z 0). rewrite <- Zlt_Qlt. lia. Qed.

Lemma loop_progress_mono i j :
  i <= j -> (loop_progress total i <= loop_progress total j)%Q.
Proof.
  intros Hij. unfold loop_progress.
  apply Qmult_le_compat_r; [|discriminate].
  unfold Qdiv. apply Qmult_le_compat_r.
  - rewrite <- Zle_Qle. lia.
  - apply Qinv_le_0_compat, Qlt_le_weak, total_Qpos.
Qed.

Lemma loop_progress_nonneg i : (0 <= loop_progress total i)%Q.
Proof.
  unfold loop_progress. apply Qmult_le_0_compat; [|discriminate].
  apply Qle_shift_div_l; [apply total_Qpos|].
  rewrite Qmult_0_l. change 0%Q with (inject_Z 0). rewrite <- Zle_Qle. lia.
Qed.

Lemma loop_progress_bound i : i <= total -> (loop_progress total i <= 100)%Q.
Proof.
  intros Hi. unfold loop_progress.
  apply Qle_trans with (1 * 50)%Q; [|discriminate].
  apply Qmult_le_compat_r; [|discriminate].
  apply Qle_shift_div_r; [apply total_Qpos|].
  rewrite Qmult_1_l. rewrite <- Zle_Qle. lia.
Qed.

Lemma loop_sorted n : forall index,
  index + n <= total ->
  StronglySorted Qle (map (loop_progress total) (seq index n) ++ [100%Q]).
Proof.
  induction n as [|n IH]; intros index Hb; cbn [seq map app].
  - repeat constructor.
  - constructor; [apply IH; lia|].
    apply Forall_app. split.
    + apply Forall_forall. intros q Hq. apply in_map_iff in Hq.
      destruct Hq as (j & <- & Hj). apply in_seq in Hj.
      apply loop_progress_mono. lia.
    + constructor; [|constructor]. apply loop_progress_bound. lia.
Qed.

End ProgressFacts.

Lemma reported_app a b :
  VideoGenerator.reported (a ++ b)
  = (VideoGenerator.reported a ++ VideoGenerator.reported b)%list.
Proof. apply flat_map_app. Qed.

Lemma rendered_app a b :
  VideoGenerator.rendered (a ++ b)
  = (VideoGenerator.rendered a ++ VideoGenerator.rendered b)%list.
Proof. apply flat_map_app. Qed.

Lemma encoder_runs_app a b :
  VideoGenerator.encoder_runs (a ++ b)
  = (VideoGenerator.encoder_runs a ++ VideoGenerator.encoder_runs b)%list.
Proof. apply flat_map_app. Qed.

Lemma reports_listening opts p :
  VideoGenerator.onProgress opts <> None ->
  VideoGenerator.reports opts p = [VideoGenerator.OnProgress p].
Proof.
  unfold VideoGenerator.reports.
  destruct (VideoGenerator.onProgress opts); [reflexivity | congruence].
Qed.

Lemma frame_events_reported opts total todo : forall index,
  VideoGenerator.onProgress opts <> None ->
  VideoGenerator.reported (VideoGenerator.frame_events opts total todo index)
  = map (VideoGenerator.loop_progress total) (seq index (List.length todo)).
Proof.
  induction todo as [|s todo IH]; intros index Hp; [reflexivity|].
  cbn [VideoGenerator.frame_events List.length seq map].
  rewrite reports_listening by exact Hp.
  cbn [VideoGenerator.reported flat_map app].
  f_equal. now apply IH.
Qed.

(** C4. In a call of [generate] that returns a video, the values handed to
    the [onProgress] listener are 0, then [index / N * 50] after each frame,
    then 100: they never decrease, none is negative and the last is 100. *)
Theorem progress_reports_monotone :
  forall (rt : VideoGenerator.Runtime) (opts : VideoGenerator.GenerateOptions)
         (w w' : VideoGenerator.World) (v : VideoGenerator.GeneratedVideo),
    VideoGenerator.onProgress opts <> None ->
    VideoGenerator.generate rt opts w = (Ok v, w') ->
    exists values,
      VideoGenerator.reported (VideoGenerator.trace w')
      = (VideoGenerator.reported (VideoGenerator.trace w) ++ values)%list
      /\ values
         = (0%Q :: map (VideoGenerator.loop_progress (List.length (VideoGenerator.scenes opts)))
                     (seq 0 (List.length (VideoGenerator.scenes opts)))
              ++ [100%Q])%list
      /\ StronglySorted Qle values
      /\ Forall (fun p => 0 <= p)%Q values
      /\ last values 0%Q = 100%Q.
Proof.
  intros rt opts w w' v Hp H.
  apply generate_ok in H. destruct H as (Hne & args & fs & Htrace & _).
  rewrite !reports_listening in Htrace by exact Hp.
  set (N := List.length (VideoGenerator.scenes opts)) in *.
  assert (HN : 0 < N).
  { subst N. destruct (VideoGenerator.scenes opts); [congruence | cbn; lia]. }
  eexists. split; [|split; [reflexivity|]].
  - rewrite Htrace, !reported_app, frame_events_reported by assumption.
    reflexivity.
  - assert (Hs : StronglySorted Qle
                   (map (VideoGenerator.loop_progress N) (seq 0 N) ++ [100%Q]))
      by (apply loop_sorted; [exact HN | lia]).
    assert (Hpos : Forall (fun p => 0 <= p)%Q
                     (map (VideoGenerator.loop_progress N) (seq 0 N) ++ [100%Q])).
    { apply Forall_app. split.
      - apply Forall_map, Forall_forall. intros i _.
        now apply loop_progress_nonneg.
      - constructor; [discriminate | constructor]. }
    split; [|split].
    + constructor; assumption.
    + constructor; [discriminate | assumption].
    + change (0%Q :: map (VideoGenerator.loop_progress N) (seq 0 N) ++ [100%Q])%list
        with ((0%Q :: map (VideoGenerator.loop_progress N) (seq 0 N)) ++ [100%Q])%list.
      apply last_last.
Qed.

Lemma progress_reports_monotone_witness :
  exists values,
    VideoGenerator.reported
      (VideoGenerator.trace
         (snd (VideoGenerator.generate Demo.rt (Demo.options Demo.two_scenes)
                 Demo.ready)))
    = values
    /\ StronglySorted Qle values /\ last values 0%Q = 100%Q.
Proof.
  destruct (VideoGenerator.generate Demo.rt (Demo.options Demo.two_scenes)
              Demo.ready) as [[v|e] w'] eqn:E; [|vm_compute in E; discriminate].
  destruct (progress_reports_monotone Demo.rt (Demo.options Demo.two_scenes)
              Demo.ready w' v ltac:(discriminate) E)
    as (values & Hv & _ & Hs & _ & Hl).
  exists values. split; [exact Hv | split; assumption].
Defined.

(* ------------------------------------------------------------------------- *)
(** ** Calls made before the encoder has loaded *)
(* ------------------------------------------------------------------------- *)




Lemma generateStoryboard_length3 :
  forall (src : Storyboard.RandomSource) (uuid : string) (brief : StoryBrief.t)
         (n : nat),
    let len := List.length (fst (Storyboard.generateStoryboard src uuid brief n)) in
    len = 3 \/ len = 4 \/ len = 5.
Proof.
  intros src uuid brief n len. subst len.
  unfold Storyboard.generateStoryboard. rewrite map_from_length.
  destruct (StoryBrief.length brief); cbn; lia.
Qed.

(* ------------------------------------------------------------------------- *)
(** ** More on the storyboard generator *)
(* ------------------------------------------------------------------------- *)

(** [pick] never reads past the end of a non-empty array. *)
Lemma pick_in :
  forall (T : Type) (src : Storyboard.RandomSource) (undef : T)
         (items : list T) (n : nat),
    items <> [] ->
    In (fst (Storyboard.pick src undef items n)) items.
Proof.
  intros T src undef items n Hne.
  unfold Storyboard.pick, Storyboard.bind, Storyboard.random_index,
    Storyboard.ret. cbn [fst].
  apply nth_In.
  assert (Hlen : 0 < List.length items)
    by (destruct items; [congruence | cbn; lia]).
  apply Nat.Div0.div_lt_upper_bound. nia.
Qed.

(** X1. [pick] never reads past the end of a non-empty array: what it
    returns is one of the items, whatever [Math.random()] gives, and it asks
    for one random number.  Every item can be returned: the item at position
    [i] is returned when the random number is [i / items.length]. *)
Theorem pick_returns_member :
  forall (T : Type) (src : Storyboard.RandomSource) (undef : T)
         (items : list T) (n : nat),
    items <> [] ->
    In (fst (Storyboard.pick src undef items n)) items
    /\ snd (Storyboard.pick src undef items n) = S n
    /\ (forall i,
          i < List.length items ->
          src n = Storyboard.mkDraw i (List.length items - i - 1) ->
          fst (Storyboard.pick src undef items n) = nth i items undef).
Proof.
  intros T src undef items n Hne.
  split; [now apply pick_in|]. split; [reflexivity|].
  intros i Hi Hd.
  unfold Storyboard.pick, Storyboard.bind, Storyboard.random_index,
    Storyboard.ret. cbn [fst]. rewrite Hd. cbn [Storyboard.num Storyboard.slack].
  replace (i + (List.length items - i - 1) + 1) with (List.length items) by lia.
  rewrite Nat.div_mul by lia. reflexivity.
Qed.

Lemma pick_returns_member_witness :
  In (fst (Storyboard.pick Demo.source ""
             (Storyboard.hook (Storyboard.toneProfiles direct)) 5))
     (Storyboard.hook (Storyboard.toneProfiles direct)).
Proof.
  apply (pick_returns_member string Demo.source ""
           (Storyboard.hook (Storyboard.toneProfiles direct)) 5).
  discriminate.
Defined.

Section SceneShape.

Import Storyboard.

Variable src : RandomSource.
Variable brief : StoryBrief.t.
Variable base : string.

Lemma pool_not_nil t :
  hook (toneProfiles t) <> [] /\ support (toneProfiles t) <> []
  /\ close (toneProfiles t) <> [].
Proof. destruct t; repeat split; discriminate. Qed.

Lemma pickGradient_palette n :
  exists value,
    fst (pickGradient src n) = gradient value /\ In value (map snd gradients).
Proof.
  unfold pickGradient, bind.
  pose proof (pick_in _ src ("", "") gradients n) as Hin.
  destruct (pick src ("", "") gradients n) as [g n1]. cbn [fst ret] in *.
  exists (snd g). split; [reflexivity|].
  apply in_map, Hin. discriminate.
Qed.

(** What the callback of [durations.map] builds at position [index]. *)
Lemma scene_at_shape len d index n :
  let s := fst (scene_at src brief base len d index n) in
  let profile := toneProfiles (StoryBrief.tone brief) in
  id s = base ++ "-" ++ JS.string_of_nat index
  /\ duration s = d
  /\ overlay s = profile_overlay profile
  /\ (exists value,
         background s = gradient value /\ In value (map snd gradients))
  /\ In (narration s)
        (if Nat.eqb index 0 then hook profile
         else if Nat.eqb index (len - 1) then close profile
         else support profile)
  /\ cta s
     = (if Nat.eqb index 0 then None
        else if Nat.eqb index (len - 1)
             then Some (StoryBrief.callToAction brief)
             else None)
  /\ title s
     = (if Nat.eqb index 0
        then JS.or_else (StoryBrief.idea brief) "Idea Launchpad"
        else if Nat.eqb index (len - 1) then "Close & Convert"
        else if Nat.eqb index 1 then "Show The Payoff"
        else "Keep The Energy").
Proof.
  intros s profile. subst s. unfold scene_at. fold profile.
  destruct (pool_not_nil (StoryBrief.tone brief)) as (Hh & Hs & Hc).
  fold profile in Hh, Hs, Hc.
  destruct (Nat.eqb index 0); [|destruct (Nat.eqb index (len - 1))];
    unfold bind;
    match goal with
    | |- context [pick src "" ?pool n] =>
        pose proof (pick_in _ src "" pool n) as Hin;
        destruct (pick src "" pool n) as [text n1]
    end;
    destruct (pickGradient_palette n1) as (value & Hv & Hp);
    destruct (pickGradient src n1) as [bg n2]; cbn [fst ret] in *;
    cbn [id duration overlay background narration cta title];
    (repeat split; try reflexivity; [now exists value | now apply Hin]).
Qed.

Lemma map_from_nth len l : forall k n i s,
  nth_error (fst (map_from (scene_at src brief base len) l k n)) i = Some s ->
  exists d n',
    nth_error l i = Some d
    /\ s = fst (scene_at src brief base len d (k + i) n').
Proof.
  induction l as [|d l IH]; intros k n i s H.
  - destruct i; discriminate.
  - cbn [map_from] in H. unfold bind at 1 in H.
    destruct (scene_at src brief base len d k n) as [s0 n1] eqn:E0.
    unfold bind at 1 in H.
    destruct (map_from (scene_at src brief base len) l (S k) n1)
      as [ss n2] eqn:E1.
    cbn [ret fst] in H.
    destruct i as [|i].
    + injection H as <-. exists d, n. rewrite Nat.add_0_r, E0. now split.
    + cbn [nth_error] in H.
      specialize (IH (S k) n1 i s). rewrite E1 in IH.
      destruct (IH H) as (d' & n' & Hd & Hs).
      exists d', n'. split; [exact Hd|].
      now replace (k + S i) with (S k + i) by lia.
Qed.

End SceneShape.

(** The scene at position [i] of a storyboard, read off the brief. *)
Lemma storyboard_scene :
  forall (src : Storyboard.RandomSource) (uuid : string) (brief : StoryBrief.t)
         (n i : nat) (s : Scene),
    let scenes := fst (Storyboard.generateStoryboard src uuid brief n) in
    nth_error scenes i = Some s ->
    exists d n',
      nth_error (Storyboard.durationsByLength (StoryBrief.length brief)) i
      = Some d
      /\ s = fst (Storyboard.scene_at src brief (hd "" (JS.split "-" uuid))
                    (List.length scenes) d i n').
Proof.
  intros src uuid brief n i s scenes H.
  assert (Hl : List.length scenes
               = List.length
                   (Storyboard.durationsByLength (StoryBrief.length brief)))
    by apply map_from_length.
  rewrite Hl.
  apply map_from_nth in H. exact H.
Qed.

(** X2. The narration of every scene of a storyboard comes from the pool of
    the tone of the brief that goes with its position: the hooks for the
    first scene, the closings for the last and the supports in between. *)
Theorem narration_from_tone_pool :
  forall (src : Storyboard.RandomSource) (uuid : string) (brief : StoryBrief.t)
         (n i : nat) (s : Scene),
    let scenes := fst (Storyboard.generateStoryboard src uuid brief n) in
    let profile := Storyboard.toneProfiles (StoryBrief.tone brief) in
    nth_error scenes i = Some s ->
    In (narration s)
       (if Nat.eqb i 0 then Storyboard.hook profile
        else if Nat.eqb i (List.length scenes - 1) then Storyboard.close profile
        else Storyboard.support profile).
Proof.
  intros src uuid brief n i s scenes profile H.
  apply storyboard_scene in H. destruct H as (d & n' & _ & ->).
  apply scene_at_shape.
Qed.

Lemma narration_from_tone_pool_witness :
  In (narration
        (nth 2 (fst (Storyboard.generateStoryboard Demo.source "1a2b3c4d-5e6f"
                       Demo.brief 0))
             (Demo.scene 1 (color "") None)))
     (Storyboard.close (Storyboard.toneProfiles direct)).
Proof.
  apply (narration_from_tone_pool Demo.source "1a2b3c4d-5e6f" Demo.brief 0 2).
  reflexivity.
Defined.

(** X3. Every scene of a storyboard has a gradient of the palette as its
    background and the overlay of the tone of the brief. *)
Theorem background_from_palette :
  forall (src : Storyboard.RandomSource) (uuid : string) (brief : StoryBrief.t)
         (n : nat) (s : Scene),
    In s (fst (Storyboard.generateStoryboard src uuid brief n)) ->
    (exists value,
        background s = gradient value
        /\ In value (map snd Storyboard.storyboardGradients))
    /\ overlay s
       = Storyboard.profile_overlay
           (Storyboard.toneProfiles (StoryBrief.tone brief)).
Proof.
  intros src uuid brief n s H.
  apply In_nth_error in H. destruct H as [i H].
  apply storyboard_scene in H. destruct H as (d & n' & _ & ->).
  pose proof (scene_at_shape src brief (hd "" (JS.split "-" uuid))
                (List.length
                   (fst (Storyboard.generateStoryboard src uuid brief n)))
                d i n') as (_ & _ & Ho & Hb & _).
  split; assumption.
Qed.

Lemma background_from_palette_witness :
  exists value,
    background
      (nth 1 (fst (Storyboard.generateStoryboard Demo.source "1a2b3c4d-5e6f"
                     Demo.brief 0))
           (Demo.scene 1 (color "") None))
    = gradient value
    /\ In value (map snd Storyboard.storyboardGradients).
Proof.
  apply (background_from_palette Demo.source "1a2b3c4d-5e6f" Demo.brief 0).
  right. left. reflexivity.
Defined.

(** X4. In a storyboard only the last scene has a [cta]; the scenes after the
    first are titled [Show The Payoff] (the second), [Keep The Energy] (the
    other inner ones) and [Close & Convert] (the last). *)
Theorem cta_only_on_last_scene :
  forall (src : Storyboard.RandomSource) (uuid : string) (brief : StoryBrief.t)
         (n i : nat) (s : Scene),
    let scenes := fst (Storyboard.generateStoryboard src uuid brief n) in
    nth_error scenes i = Some s ->
    (i <> List.length scenes - 1 -> cta s = None)
    /\ (0 < i -> i <> List.length scenes - 1 ->
        title s = if Nat.eqb i 1 then "Show The Payoff" else "Keep The Energy")
    /\ (i = List.length scenes - 1 -> title s = "Close & Convert").
Proof.
  intros src uuid brief n i s scenes H.
  assert (H3 : 3 <= List.length scenes).
  { destruct (generateStoryboard_length3 src uuid brief n) as [Hl|[Hl|Hl]];
      fold scenes in Hl; lia. }
  apply storyboard_scene in H. destruct H as (d & n' & _ & ->).
  fold scenes.
  pose proof (scene_at_shape src brief (hd "" (JS.split "-" uuid))
                (List.length scenes) d i n') as (_ & _ & _ & _ & _ & Hc & Ht).
  rewrite Hc, Ht. clear Hc Ht.
  repeat split.
  - intros Hi. apply Nat.eqb_neq in Hi. rewrite Hi.
    now destruct (Nat.eqb i 0).
  - intros H0 Hi. apply Nat.eqb_neq in Hi. rewrite Hi.
    assert (E : Nat.eqb i 0 = false) by (apply Nat.eqb_neq; lia).
    now rewrite E.
  - intros ->. rewrite Nat.eqb_refl.
    assert (E : Nat.eqb (List.length scenes - 1) 0 = false)
      by (apply Nat.eqb_neq; lia).
    now rewrite E.
Qed.

Lemma cta_only_on_last_scene_witness :
  cta (nth 1 (fst (Storyboard.generateStoryboard Demo.source "1a2b3c4d-5e6f"
                     Demo.brief 0))
           (Demo.scene 1 (color "") (Some "x")))
  = None.
Proof.
  apply (cta_only_on_last_scene Demo.source "1a2b3c4d-5e6f" Demo.brief 0 1);
    [reflexivity | discriminate].
Defined.

(* ------------------------------------------------------------------------- *)
(** ** Decimal names *)
(* ------------------------------------------------------------------------- *)

Lemma append_inv_head (a x y : string) : a ++ x = a ++ y -> x = y.
Proof.
  induction a as [|c a IH]; cbn; [exact (fun H => H)|].
  intros [= H]. now apply IH.
Qed.

Lemma append_length (a b : string) :
  String.length (a ++ b) = String.length a + String.length b.
Proof. induction a as [|c a IH]; cbn; [reflexivity | now rewrite IH]. Qed.

Lemma append_inv_tail (a b c : string) : a ++ c = b ++ c -> a = b.
Proof.
  revert b. induction a as [|x a IH]; intros [|y b] H.
  - reflexivity.
  - apply (f_equal String.length) in H. cbn in H.
    rewrite append_length in H. lia.
  - apply (f_equal String.length) in H. cbn in H.
    rewrite append_length in H. lia.
  - cbn in H. injection H as -> H. f_equal. now apply IH.
Qed.

Lemma to_uint_not_nil n : Nat.to_uint n <> Decimal.Nil.
Proof.
  intros E. pose proof (DecimalNat.Unsigned.of_to n) as H.
  rewrite E in H. cbn in H. subst n. discriminate.
Qed.

(** Reading [String(n)] back as a number. *)
Lemma string_of_nat_read n :
  NilEmpty.uint_of_string (JS.string_of_nat n) = Some (Nat.to_uint n).
Proof.
  unfold JS.string_of_nat, NilZero.string_of_uint.
  pose proof (to_uint_not_nil n) as Hn.
  destruct (Nat.to_uint n) eqn:E; try congruence;
    rewrite <- E at 1; rewrite <- E; apply NilEmpty.usu.
Qed.

Lemma string_of_nat_inj n m : JS.string_of_nat n = JS.string_of_nat m -> n = m.
Proof.
  intros H. apply (f_equal NilEmpty.uint_of_string) in H.
  rewrite !string_of_nat_read in H. injection H as H.
  now apply DecimalNat.Unsigned.to_uint_inj.
Qed.

Lemma zeros_read k s d :
  NilEmpty.uint_of_string s = Some d ->
  exists d',
    NilEmpty.uint_of_string (JS.repeat_char "0" k ++ s) = Some d'
    /\ Nat.of_uint d' = Nat.of_uint d.
Proof.
  intros H. induction k as [|k (d' & Hd & Hv)]; [now exists d|].
  exists (Decimal.D0 d'). cbn [JS.repeat_char append NilEmpty.uint_of_string].
  rewrite Hd. split; [reflexivity|]. now rewrite <- Hv.
Qed.

(** A zero-padded decimal still reads as the number it was made from. *)
Lemma padded_read w n :
  option_map Nat.of_uint
    (NilEmpty.uint_of_string (JS.padStart w "0" (JS.string_of_nat n)))
  = Some n.
Proof.
  unfold JS.padStart.
  destruct (zeros_read (w - String.length (JS.string_of_nat n)) _ _
              (string_of_nat_read n)) as (d' & -> & Hv).
  cbn. now rewrite Hv, DecimalNat.Unsigned.of_to.
Qed.

(** Frames have different names at different positions. *)
Lemma frameName_inj i j :
  VideoGenerator.frameName i = VideoGenerator.frameName j -> i = j.
Proof.
  intros H. unfold VideoGenerator.frameName in H.
  apply append_inv_head in H. apply append_inv_tail in H.
  pose proof (padded_read 2 i) as Hi. rewrite H, padded_read in Hi.
  now injection Hi.
Qed.

Lemma frameName_base index :
  VideoGenerator.base_name (VideoGenerator.frameName index)
  = VideoGenerator.frameName index.
Proof. reflexivity. Qed.

Lemma frameName_not_manifest index :
  VideoGenerator.frameName index <> "frames.txt".
Proof. unfold VideoGenerator.frameName. cbn. discriminate. Qed.

Lemma frameName_not_audio index ext :
  VideoGenerator.frameName index <> "audio" ++ ext.
Proof. unfold VideoGenerator.frameName. cbn. discriminate. Qed.

(** X5. Frames have different names at different positions, however many
    scenes there are, and the name of a frame is never the name of the
    manifest, of the audio track or of the output: no file a render writes
    overwrites another. *)
Theorem frameName_injective :
  forall i j : nat,
    (VideoGenerator.frameName i = VideoGenerator.frameName j -> i = j)
    /\ VideoGenerator.frameName i <> "frames.txt"
    /\ VideoGenerator.frameName i <> "output.mp4"
    /\ (forall ext, VideoGenerator.frameName i <> "audio" ++ ext)
    /\ (forall ext, "audio" ++ ext <> "frames.txt")
    /\ (forall ext, "audio" ++ ext <> "output.mp4").
Proof.
  intros i j. split; [apply frameName_inj|].
  split; [apply frameName_not_manifest|].
  split; [unfold VideoGenerator.frameName; cbn; discriminate|].
  split; [apply frameName_not_audio|].
  split; intros ext; cbn; discriminate.
Qed.

Lemma frameName_injective_witness : 7 = 7.
Proof. apply (proj1 (frameName_injective 7 7)). reflexivity. Defined.

(** Positions give different ids under one prefix. *)
Lemma numbered_ids_NoDup base count :
  NoDup (map (fun i => base ++ "-" ++ JS.string_of_nat i) (seq 0 count)).
Proof.
  apply Injective_map_NoDup; [|apply seq_NoDup].
  intros i j H. apply append_inv_head in H. apply append_inv_head in H.
  now apply string_of_nat_inj.
Qed.

(** The ids of the scenes of a storyboard. *)
Lemma storyboard_ids :
  forall (src : Storyboard.RandomSource) (uuid : string) (brief : StoryBrief.t)
         (n : nat),
    let scenes := fst (Storyboard.generateStoryboard src uuid brief n) in
    map id scenes
    = map (fun i => hd "" (JS.split "-" uuid) ++ "-" ++ JS.string_of_nat i)
          (seq 0 (List.length scenes)).
Proof.
  intros src uuid brief n scenes.
  apply nth_error_ext. intros i.
  rewrite !nth_error_map.
  destruct (nth_error scenes i) as [s|] eqn:E.
  - assert (Hi : i < List.length scenes) by (apply nth_error_Some; congruence).
    rewrite (nth_error_nth' _ 0) by (rewrite length_seq; exact Hi).
    rewrite seq_nth by exact Hi. cbn [option_map].
    apply storyboard_scene in E. destruct E as (d & n' & _ & ->).
    f_equal. apply scene_at_shape.
  - apply nth_error_None in E.
    assert (E' : nth_error (seq 0 (List.length scenes)) i = None)
      by (apply nth_error_None; rewrite length_seq; exact E).
    now rewrite E'.
Qed.

(** X6. The ids of the scenes of a storyboard are the first segment of the
    UUID followed by a dash and the position of the scene; no two scenes of a
    storyboard have the same id. *)
Theorem scene_ids_distinct :
  forall (src : Storyboard.RandomSource) (uuid : string) (brief : StoryBrief.t)
         (n : nat),
    let scenes := fst (Storyboard.generateStoryboard src uuid brief n) in
    map id scenes
    = map (fun i => hd "" (JS.split "-" uuid) ++ "-" ++ JS.string_of_nat i)
          (seq 0 (List.length scenes))
    /\ NoDup (map id scenes).
Proof.
  intros src uuid brief n scenes.
  pose proof (storyboard_ids src uuid brief n) as Hids.
  fold scenes in Hids. split; [exact Hids|].
  rewrite Hids. apply numbered_ids_NoDup.
Qed.


Lemma fold_durations l : forall acc,
  fold_left (fun sum scene => (sum + duration scene)%Q) l acc
  = fold_left Qplus (map duration l) acc.
Proof. induction l as [|s l IH]; intros acc; cbn; [reflexivity | apply IH]. Qed.

(** X7. The total duration the page shows for a storyboard depends on the
    length of the brief alone: 13 seconds for short, 20 for medium and 25 for
    long. *)
Theorem storyboard_total_duration :
  forall (src : Storyboard.RandomSource) (uuid : string) (brief : StoryBrief.t)
         (n : nat),
    HomePage.totalDuration
      (fst (Storyboard.generateStoryboard src uuid brief n))
    = match StoryBrief.length brief with
      | short => 13
      | medium => 20
      | long => 25
      end%Q.
Proof.
  intros src uuid brief n. unfold HomePage.totalDuration.
  rewrite fold_durations. unfold Storyboard.generateStoryboard.
  rewrite map_from_durations.
  destruct (StoryBrief.length brief); reflexivity.
Qed.

(* ------------------------------------------------------------------------- *)
(** ** More on [wrapText] *)
(* ------------------------------------------------------------------------- *)

Section TrimFacts.

Lemma truthy_app_space s : JS.truthy (s ++ " ") = true.
Proof. now destruct s. Qed.

Lemma split_no_sep sep s :
  JS.all_chars (fun c => negb (Ascii.eqb c sep)) s = true ->
  JS.split sep s = [s].
Proof.
  induction s as [|c r IH]; [reflexivity|]. cbn [JS.all_chars JS.split].
  intros H. apply andb_true_iff in H. destruct H as [Hc Hr].
  apply negb_true_iff in Hc. rewrite Hc, IH by exact Hr. reflexivity.
Qed.

End TrimFacts.

Section WrapLoop.

Variable measure : string -> Q.
Variable maxWidth : Q.

(** One word later: at most one more line, none when the line was empty;
    the line is not empty any more, and the lines stay trimmed. *)
Lemma wrap_word_step line ls word :
  let st := Video.wrap_word measure maxWidth (line, ls) word in
  JS.truthy (fst st) = true
  /\ List.length (snd st)
     <= List.length ls + (if JS.truthy line then 1 else 0)
  /\ List.length ls <= List.length (snd st)
  /\ (Forall (fun l => JS.trim l = l) ls ->
      Forall (fun l => JS.trim l = l) (snd st)).
Proof.
  unfold Video.wrap_word.
  destruct (Video.gt (measure (line ++ word ++ " ")) maxWidth && JS.truthy line)
    eqn:E; cbn [fst snd].
  - apply andb_true_iff in E. destruct E as [_ ->].
    rewrite length_app. cbn.
    repeat split; try lia; [apply truthy_app_space|].
    intros H. apply Forall_app. split; [exact H|].
    constructor; [apply trim_idem | constructor].
  - repeat split; try lia; [|exact (fun H => H)].
    rewrite <- append_assoc. apply truthy_app_space.
Qed.

Lemma wrap_fold ws : forall line ls,
  JS.truthy line = true ->
  let st := fold_left (Video.wrap_word measure maxWidth) ws (line, ls) in
  JS.truthy (fst st) = true
  /\ List.length ls <= List.length (snd st) <= List.length ls + List.length ws
  /\ (Forall (fun l => JS.trim l = l) ls ->
      Forall (fun l => JS.trim l = l) (snd st)).
Proof.
  induction ws as [|w ws IH]; intros line ls Hl.
  - cbn. repeat split; try assumption; try lia. exact (fun H => H).
  - cbn [fold_left].
    pose proof (wrap_word_step line ls w) as (H1 & H2 & H3 & H4).
    rewrite Hl in H2.
    destruct (Video.wrap_word measure maxWidth (line, ls) w) as [line' ls'].
    cbn [fst snd] in *.
    destruct (IH line' ls' H1) as (I1 & I2 & I3).
    repeat split; try assumption; cbn [List.length]; try lia.
    intros H. apply I3, H4, H.
Qed.

End WrapLoop.

(** X8. [wrapText] always returns at least one line and never more lines
    than the text has space-separated words; every line it returns is
    trimmed; and the height it reports is the number of lines times the line
    height. *)
Theorem wrapText_line_count :
  forall (measure : string -> Q) (text : string) (maxWidth lineHeight : Q),
    let wrapped := Video.wrapText measure text maxWidth lineHeight in
    1 <= List.length (Video.lines wrapped)
         <= List.length (JS.split " " text)
    /\ Forall (fun l => JS.trim l = l) (Video.lines wrapped)
    /\ Video.totalHeight wrapped
       = (inject_Z (Z.of_nat (List.length (Video.lines wrapped)))
          * lineHeight)%Q.
Proof.
  intros measure text maxWidth lineHeight. unfold Video.wrapText.
  pose proof (split_not_nil " " text) as Hn.
  destruct (JS.split " " text) as [|w ws]; [congruence|].
  cbn [fold_left].
  pose proof (wrap_word_step measure maxWidth "" [] w) as (H1 & H2 & _ & H4).
  destruct (Video.wrap_word measure maxWidth ("", []) w) as [line1 ls1].
  cbn [fst snd JS.truthy List.length] in *.
  pose proof (wrap_fold measure maxWidth ws line1 ls1 H1) as (I1 & I2 & I3).
  destruct (fold_left (Video.wrap_word measure maxWidth) ws (line1, ls1))
    as [line ls].
  cbn [fst snd] in *. rewrite I1. cbn [Video.lines Video.totalHeight].
  rewrite length_app. cbn [List.length].
  repeat split; try lia.
  apply Forall_app. split; [apply I3, H4; constructor|].
  constructor; [apply trim_idem | constructor].
Qed.

(** X9. A text without a space is never broken, however wide it is: it comes
    back as one line, the text trimmed. *)
Theorem wrapText_keeps_single_word :
  forall (measure : string -> Q) (text : string) (maxWidth lineHeight : Q),
    JS.all_chars (fun c => negb (Ascii.eqb c " ")) text = true ->
    Video.lines (Video.wrapText measure text maxWidth lineHeight)
    = [JS.trim text].
Proof.
  intros measure text maxWidth lineHeight H. unfold Video.wrapText.
  rewrite (split_no_sep " "%char text H). cbn [fold_left Video.wrap_word].
  rewrite andb_false_r. cbn [append].
  rewrite truthy_app_space. cbn [Video.lines app].
  now rewrite trim_app_space.
Qed.

Lemma wrapText_keeps_single_word_witness :
  Video.lines
    (Video.wrapText (Demo.measure "700 65px serif")
       "Supercalifragilistic" 50 76)
  = ["Supercalifragilistic"].
Proof. apply wrapText_keeps_single_word. reflexivity. Defined.

(* ------------------------------------------------------------------------- *)
(** ** More on [drawBackground] *)
(* ------------------------------------------------------------------------- *)

Lemma map_snd_combine {A B} (l : list A) : forall l' : list B,
  List.length l = List.length l' -> map snd (combine l l') = l'.
Proof.
  induction l as [|a l IH]; intros [|b l'] H; try discriminate;
    [reflexivity|].
  cbn. f_equal. apply IH. now injection H.
Qed.

Section BackgroundFacts.

Import Video.

Variable env : Env.

(** The offset of the stop at [index] of [len]. *)
Lemma stop_offset_range len index :
  index < len ->
  (0 <= inject_Z (Z.of_nat index) / inject_Z (Z.of_nat (Nat.max (len - 1) 1))
   <= 1)%Q.
Proof.
  intros Hi.
  assert (Hpos : (0 < inject_Z (Z.of_nat (Nat.max (len - 1) 1)))%Q).
  { change 0%Q with (inject_Z 0). rewrite <- Zlt_Qlt. lia. }
  split.
  - apply Qle_shift_div_l; [exact Hpos|]. rewrite Qmult_0_l.
    change 0%Q with (inject_Z 0). rewrite <- Zle_Qle. lia.
  - apply Qle_shift_div_r; [exact Hpos|]. rewrite Qmult_1_l.
    rewrite <- Zle_Qle. lia.
Qed.

(** The loop over the colours: it completes exactly when the canvas accepts
    them all, and then adds one stop a colour, in order. *)
Lemma addColorStops_spec len colors : forall index g,
  match addColorStops env len colors index g with
  | Ok g' =>
      forallb (validColor env) colors = true
      /\ x0 g' = x0 g /\ y0 g' = y0 g /\ x1 g' = x1 g /\ y1 g' = y1 g
      /\ stops g'
         = (stops g
              ++ map (fun p =>
                        ((inject_Z (Z.of_nat (fst p))
                          / inject_Z (Z.of_nat (Nat.max (len - 1) 1)))%Q,
                         snd p))
                     (combine (seq index (List.length colors)) colors))%list
  | Err e =>
      forallb (validColor env) colors = false
      /\ e = DOMException "SyntaxError"
  end.
Proof.
  induction colors as [|css colors IH]; intros index g.
  - cbn. now rewrite app_nil_r.
  - cbn [addColorStops forallb]. unfold addColorStop.
    destruct (validColor env css) eqn:Ev; [|now split].
    specialize (IH (S index)
      {| x0 := x0 g; y0 := y0 g; x1 := x1 g; y1 := y1 g;
         stops := (stops g
                     ++ [((inject_Z (Z.of_nat index)
                           / inject_Z (Z.of_nat (Nat.max (len - 1) 1)))%Q,
                          css)])%list |}).
    destruct (addColorStops env len colors (S index) _) as [g'|e].
    + destruct IH as (Hv & Hx0 & Hy0 & Hx1 & Hy1 & Hs).
      cbn [x0 y0 x1 y1 stops andb] in *.
      repeat split; try assumption.
      rewrite Hs, <- app_assoc. reflexivity.
    + exact IH.
Qed.

End BackgroundFacts.

(** X10. For a gradient background, [drawBackground] raises exactly when the
    canvas rejects one of the colour tokens taken from the style string, and
    what it raises is the [SyntaxError] of [addColorStop].  Otherwise it
    paints one rectangle over the whole canvas, filled with a gradient from
    the top-left to the bottom-right corner that has the tokens as its
    colours, in order, at offsets between 0 and 1. *)
Theorem gradient_background_outcome :
  forall (env : Video.Env) (ctx : Video.Ctx) (scene : Scene) (value : string)
         (width height : Q),
    background scene = gradient value ->
    let colors := Video.gradient_colors value in
    if forallb (Video.validColor env) colors then
      exists g,
        Video.drawBackground env ctx scene width height
        = Ok (Video.fillRect 0 0 width height (Video.set_fillGradient g ctx))
        /\ (Video.x0 g, Video.y0 g, Video.x1 g, Video.y1 g)
           = (0%Q, 0%Q, width, height)
        /\ map snd (Video.stops g) = colors
        /\ Forall (fun offset => 0 <= offset <= 1)%Q (map fst (Video.stops g))
    else
      Video.drawBackground env ctx scene width height
      = Err (DOMException "SyntaxError").
Proof.
  intros env ctx scene value width height Hbg colors.
  unfold Video.drawBackground. rewrite Hbg. fold colors.
  pose proof (addColorStops_spec env (List.length colors) colors 0
                {| Video.x0 := 0; Video.y0 := 0; Video.x1 := width;
                   Video.y1 := height; Video.stops := [] |}) as H.
  destruct (Video.addColorStops env (List.length colors) colors 0 _)
    as [g|e].
  - destruct H as (-> & Hx0 & Hy0 & Hx1 & Hy1 & Hs).
    cbn [Video.x0 Video.y0 Video.x1 Video.y1 Video.stops app] in *.
    exists g. split; [reflexivity|]. split; [congruence|].
    rewrite Hs, !map_map. cbn [fst snd]. split.
    + change (fun x : nat * string => snd x) with (@snd nat string).
      apply map_snd_combine. apply length_seq.
    + apply Forall_map, Forall_forall. intros [i c] Hin.
      apply in_combine_l in Hin. apply in_seq in Hin. cbn [fst].
      apply stop_offset_range. lia.
  - destruct H as (-> & ->). reflexivity.
Qed.

Lemma gradient_background_outcome_witness :
  exists g,
    Video.drawBackground Demo.env Video.fresh_ctx
      (Demo.scene 4 (gradient "linear-gradient(135deg, #fff 0%, #000 100%)")
         None) 1080 1920
    = Ok (Video.fillRect 0 0 1080 1920
            (Video.set_fillGradient g Video.fresh_ctx))
    /\ map snd (Video.stops g) = ["#fff"; "#000"].
Proof.
  pose proof (gradient_background_outcome Demo.env Video.fresh_ctx
                (Demo.scene 4
                   (gradient "linear-gradient(135deg, #fff 0%, #000 100%)")
                   None)
                "linear-gradient(135deg, #fff 0%, #000 100%)" 1080 1920
                eq_refl) as H.
  cbv zeta in H.
  assert (E : forallb (Video.validColor Demo.env)
                (Video.gradient_colors
                   "linear-gradient(135deg, #fff 0%, #000 100%)") = true)
    by reflexivity.
  rewrite E in H. destruct H as (g & Hd & _ & Hs & _).
  exists g. split; [exact Hd | exact Hs].
Defined.

(* ------------------------------------------------------------------------- *)
(** ** The doubles of the image branch *)
(* ------------------------------------------------------------------------- *)

Section DoubleFacts.
Local Open Scope Q_scope.

Lemma ilog2_lower x : 0 < x -> 2 ^ (JS.ilog2 x) <= x.
Proof.
  intros Hx. unfold JS.ilog2.
  destruct x as [a b]. 
  assert (Ha : (0 < a)%Z) by (unfold Qlt in Hx; cbn in Hx; lia).
  cbn [Qnum Qden].
  set (la := Z.log2 a). set (lb := Z.log2 (Z.pos b)).
  destruct (Qle_bool (2 ^ (la - lb)) (a # b)) eqn:E.
  - now apply Qle_bool_iff.
  - clear E.
    pose proof (Z.log2_spec a Ha) as [Hla _]. fold la in Hla.
    pose proof (Z.log2_spec (Z.pos b) eq_refl) as [_ Hlb]. fold lb in Hlb.
    assert (Hla0 : (0 <= la)%Z) by apply Z.log2_nonneg.
    assert (Hlb0 : (0 <= lb)%Z) by apply Z.log2_nonneg.
    replace (la - lb - 1)%Z with (la - Z.succ lb)%Z by lia.
    rewrite Qpower_minus by discriminate.
    change 2 with (inject_Z 2).
    rewrite <- !Zpower_Qpower by lia.
    apply Qle_shift_div_r.
    + change 0 with (inject_Z 0). rewrite <- Zlt_Qlt.
      apply Z.pow_pos_nonneg; lia.
    + unfold Qle, Qmult, inject_Z. cbn [Qnum Qden].
      assert (Hp : (0 < 2 ^ Z.succ lb)%Z) by (apply Z.pow_pos_nonneg; lia).
      nia.
Qed.

Lemma round_half_even_near x :
  Qabs (inject_Z (JS.round_half_even x) - x) <= 1 # 2.
Proof.
  unfold JS.round_half_even.
  pose proof (Qfloor_le x) as Hle. pose proof (Qlt_floor x) as Hlt.
  rewrite inject_Z_plus in Hlt. change (inject_Z 1) with 1 in Hlt.
  set (f := Qfloor x) in *.
  apply Qabs_Qle_condition.
  destruct (Qcompare (x - inject_Z f) (1 # 2)) eqn:E.
  - apply Qeq_alt in E.
    destruct (Z.even f); [|rewrite inject_Z_plus; change (inject_Z 1) with 1];
      split; lra.
  - apply Qlt_alt in E. split; lra.
  - apply Qgt_alt in E. rewrite inject_Z_plus. change (inject_Z 1) with 1.
    split; lra.
Qed.

Lemma quantum_pos e : 0 < 2 ^ e.
Proof. apply Qpower_0_lt. reflexivity. Qed.

Lemma double_near q :
  Qabs q < 2 ^ 1023 ->
  exists r,
    JS.double q = JS.Fin r
    /\ Qabs (r - q) <= Qabs q * (1 # 2 ^ 53) + (1 # 2 ^ 1075).
Proof.
  intros Hq. unfold JS.double.
  destruct (Qeq_bool q 0) eqn:E0.
  - apply Qeq_bool_iff in E0. exists 0. split; [reflexivity|].
    rewrite E0. vm_compute. discriminate.
  - assert (Hne : ~ q == 0) by (intros H; apply Qeq_bool_iff in H; congruence).
    assert (Hpos : 0 < Qabs q).
    { apply Qabs_case; intros H; apply Qle_lteq in H;
        destruct H as [H|H]; try lra; exfalso; apply Hne;
        rewrite H; reflexivity. }
    cbv zeta.
    set (e := Z.max (JS.ilog2 (Qabs q)) (-1022)).
    set (quantum := 2 ^ (e - 52)).
    set (n := JS.round_half_even (q / quantum)).
    assert (Hquantum : 0 < quantum) by apply quantum_pos.
    pose proof (round_half_even_near (q / quantum)) as Hn. fold n in Hn.
    assert (Hr : Qabs (inject_Z n * quantum - q) <= quantum * (1 # 2)).
    { setoid_replace (inject_Z n * quantum - q)
        with ((inject_Z n - q / quantum) * quantum) by (field; lra).
      rewrite Qabs_Qmult, (Qabs_pos quantum) by lra.
      rewrite (Qmult_comm quantum).
      apply Qmult_le_compat_r; [exact Hn | lra]. }
    assert (Hhalf : quantum * (1 # 2)
                    <= Qabs q * (1 # 2 ^ 53) + (1 # 2 ^ 1075)).
    { subst quantum.
      destruct (Z.max_spec (JS.ilog2 (Qabs q)) (-1022)) as [[_ He]|[_ He]];
        fold e in He; rewrite He.
      - change (2 ^ (-1022 - 52) * (1 # 2)) with (2 ^ (-1074) * (1 # 2)).
        assert (H : 2 ^ (-1074) * (1 # 2) == (1 # 2 ^ 1075))
          by (vm_compute; reflexivity).
        rewrite H.
        assert (0 <= Qabs q * (1 # 2 ^ 53))
          by (apply Qmult_le_0_compat; [lra | discriminate]).
        lra.
      - pose proof (ilog2_lower (Qabs q) Hpos) as Hlow.
        rewrite Qpower_minus by discriminate.
        assert (H52 : 2 ^ 52 == 4503599627370496) by reflexivity.
        rewrite H52.
        assert (H53 : (1 # 2 ^ 53) == (1 # 9007199254740992)) by reflexivity.
        rewrite H53.
        assert (Heps : 0 <= (1 # 2 ^ 1075)) by discriminate.
        set (eps := (1 # 2 ^ 1075)) in *.
        set (p := 2 ^ JS.ilog2 (Qabs q)) in *.
        set (a := Qabs q) in *.
        assert (Hp : 0 < p) by apply quantum_pos.
        setoid_replace (p / 4503599627370496 * (1 # 2))
          with (p * (1 # 9007199254740992)) by (field).
        clearbody eps p a. lra. }
    assert (Hbound : Qabs (inject_Z n * quantum - q)
                     <= Qabs q * (1 # 2 ^ 53) + (1 # 2 ^ 1075))
      by (eapply Qle_trans; [exact Hr | exact Hhalf]).
    destruct (Qle_bool (2 ^ 1024) (Qabs (Qred (inject_Z n * quantum)))) eqn:Eo.
    + exfalso. apply Qle_bool_iff in Eo. rewrite Qred_correct in Eo.
      assert (Htri : Qabs (inject_Z n * quantum)
                     <= Qabs q + Qabs (inject_Z n * quantum - q)).
      { setoid_replace (inject_Z n * quantum)
          with (q + (inject_Z n * quantum - q)) at 1 by ring.
        apply Qabs_triangle. }
      assert (H1024 : 2 ^ 1024 == 2 ^ 1023 * 2) by (vm_compute; reflexivity).
      assert (Heps : (1 # 2 ^ 1075) <= 1) by (vm_compute; discriminate).
      assert (H53 : (1 # 2 ^ 53) == (1 # 9007199254740992)) by reflexivity.
      assert (Hbig : 2 <= 2 ^ 1023) by (vm_compute; discriminate).
      rewrite H53 in Hbound. rewrite H1024 in Eo.
      set (eps := (1 # 2 ^ 1075)) in *.
      set (big := 2 ^ 1023) in *.
      set (a := Qabs q) in *.
      set (r := Qabs (inject_Z n * quantum)) in *.
      set (d := Qabs (inject_Z n * quantum - q)) in *.
      clearbody eps big a r d. lra.
    + eexists. split; [reflexivity|].
      rewrite Qred_correct. exact Hbound.
Qed.

End DoubleFacts.

(* @@X11@@ *)



(** X13. The parser of [drawBackground] cuts the gradients of the palette at
    the commas inside their [rgba(...)] colours, so that the first colour
    stop it extracts is [rgba(17], [rgba(248], [rgba(124], [rgba(251] or
    [rgba(15].  On a canvas that rejects these, no scene of any storyboard
    renders: [renderSceneToFrame] raises the [SyntaxError] of
    [addColorStop]. *)
Theorem palette_scene_does_not_render :
  forall (env : Video.Env) (options : Video.RenderOptions)
         (src : Storyboard.RandomSource) (uuid : string) (brief : StoryBrief.t)
         (n : nat) (s : Scene),
    Video.getContext env
          (Video.canvas_width_of (Video.width_of options))
          (Video.canvas_height_of (Video.height_of options))
    = true ->
    Forall (fun css => Video.validColor env css = false)
           ["rgba(17"; "rgba(248"; "rgba(124"; "rgba(251"; "rgba(15"] ->
    In s (fst (Storyboard.generateStoryboard src uuid brief n)) ->
    map (fun g => hd "" (Video.gradient_colors (snd g)))
        Storyboard.storyboardGradients
    = ["rgba(17"; "rgba(248"; "rgba(124"; "rgba(251"; "rgba(15"]
    /\ Video.renderSceneToFrame env s options
       = Err (DOMException "SyntaxError").
Proof.
  intros env options src uuid brief n s Hctx Hbad Hin.
  split; [reflexivity|].
  apply In_nth_error in Hin. destruct Hin as [i Hin].
  apply storyboard_scene in Hin. destruct Hin as (d & n' & _ & ->).
  pose proof (scene_at_shape src brief (hd "" (JS.split "-" uuid))
                (List.length
                   (fst (Storyboard.generateStoryboard src uuid brief n)))
                d i n') as (_ & _ & _ & (value & Hbg & Hp) & _).
  unfold Video.renderSceneToFrame, Video.paintScene.
  unfold Video.width_of, Video.height_of in Hctx. rewrite Hctx.
  unfold Video.drawBackground. rewrite Hbg.
  inversion Hbad as [|c1 l1 H1 Hb1]; subst.
  inversion Hb1 as [|c2 l2 H2 Hb2]; subst.
  inversion Hb2 as [|c3 l3 H3 Hb3]; subst.
  inversion Hb3 as [|c4 l4 H4 Hb4]; subst.
  inversion Hb4 as [|c5 l5 H5 _]; subst.
  cbn in Hp.
  destruct Hp as [<-|[<-|[<-|[<-|[<-|[]]]]]];
    match goal with
    | |- context [Video.gradient_colors ?v] =>
        let c := eval vm_compute in (Video.gradient_colors v) in
        change (Video.gradient_colors v) with c
    end;
    cbn [Video.addColorStops]; unfold Video.addColorStop;
    rewrite ?H1, ?H2, ?H3, ?H4, ?H5; reflexivity.
Qed.

Lemma palette_scene_does_not_render_witness :
  Video.renderSceneToFrame Samples.strict_env
    (nth 0 (fst (Storyboard.generateStoryboard Demo.source "1a2b3c4d-5e6f"
                   Demo.brief 0))
         (Demo.scene 1 (color "") None))
    Video.no_options
  = Err (DOMException "SyntaxError").
Proof.
  apply (palette_scene_does_not_render Samples.strict_env Video.no_options
           Demo.source "1a2b3c4d-5e6f" Demo.brief 0).
  - reflexivity.
  - repeat constructor.
  - left. reflexivity.
Defined.

(* ------------------------------------------------------------------------- *)
(** ** More on [generate]: what every run keeps *)
(* ------------------------------------------------------------------------- *)

Section Keeps.

Import VideoGenerator.

Variable R : World -> World -> Prop.
Hypothesis R_refl : forall w, R w w.
Hypothesis R_trans : forall a b c, R a b -> R b c -> R a c.

Lemma keeps_ret {A} (a : A) : keeps R (ret a).
Proof. intros w r w' [= _ <-]. apply R_refl. Qed.

Lemma keeps_throw {A} e : keeps R (@throw A e).
Proof. intros w r w' [= _ <-]. apply R_refl. Qed.

Lemma keeps_bind {A B} (m : M A) (k : A -> M B) :
  keeps R m -> (forall a, keeps R (k a)) -> keeps R (bind m k).
Proof.
  intros Hm Hk w r w' H. unfold bind in H.
  destruct (m w) as [[a|e] w1] eqn:E.
  - eapply R_trans; [eapply Hm, E | eapply Hk, H].
  - injection H as _ <-. eapply Hm, E.
Qed.

Lemma keeps_ignoring (m : M unit) : keeps R m -> keeps R (ignoring m).
Proof.
  intros Hm w r w' H. unfold ignoring in H.
  destruct (m w) as [r1 w1] eqn:E. injection H as _ <-. eapply Hm, E.
Qed.

Lemma keeps_finally {A} (m : M A) cleanup :
  keeps R m -> (forall w, R w (cleanup w)) -> keeps R (finally m cleanup).
Proof.
  intros Hm Hc w r w' H. unfold finally in H.
  destruct (m w) as [r1 w1] eqn:E. injection H as _ <-.
  eapply R_trans; [eapply Hm, E | apply Hc].
Qed.

Lemma keeps_update f : (forall w, R w (f w)) -> keeps R (update f).
Proof. intros Hf w r w' [= _ <-]. apply Hf. Qed.

Lemma keeps_unlink_all todo :
  (forall path, keeps R (FS_unlink path)) -> keeps R (unlink_all todo).
Proof.
  intros Hu. induction todo as [|file todo IH]; cbn [unlink_all].
  - apply keeps_ret.
  - apply keeps_bind; [apply keeps_ignoring, Hu | intros _; exact IH].
Qed.

End Keeps.

Section StatusFacts.

Import VideoGenerator.

Variable rt : Runtime.
Variable opts : GenerateOptions.

Lemma same_status_refl w : same_status w w.
Proof. now repeat split. Qed.

Lemma same_status_trans a b c :
  same_status a b -> same_status b c -> same_status a c.
Proof. unfold same_status. intuition congruence. Qed.

Lemma with_files_status {A} (f : FileSystem -> Result (A * FileSystem)) :
  keeps same_status (with_files f).
Proof.
  intros w r w' H. unfold with_files in H.
  destruct (ffmpegRef w) as [inst|] eqn:Hr;
    [|injection H as _ <-; apply same_status_refl].
  destruct (loaded inst) eqn:Hl;
    [|injection H as _ <-; apply same_status_refl].
  destruct (f (files inst)) as [[a fs]|e]; injection H as _ <-;
    [|apply same_status_refl].
  unfold same_status, not_loaded. cbn. now rewrite Hr, Hl.
Qed.

Lemma fold_setProgress_status ratios : forall w0,
  same_status w0 (fold_left (fun w r => setProgress (percent r) w) ratios w0).
Proof.
  induction ratios as [|q qs IH]; intros w0; cbn; [apply same_status_refl|].
  eapply same_status_trans; [|apply IH]. now repeat split.
Qed.

Lemma run_status args : keeps same_status (run rt args).
Proof.
  intros w r w' H. unfold run in H.
  destruct (ffmpegRef w) as [inst|] eqn:Hr;
    [|injection H as _ <-; apply same_status_refl].
  destruct (loaded inst) eqn:Hl;
    [|injection H as _ <-; apply same_status_refl].
  destruct (exec rt args (files inst)) as [ratios outcome].
  pose proof (fold_setProgress_status ratios
                (log (RunEncoder args (files inst)) w)) as Hf.
  destruct Hf as (H1 & H2 & H3). unfold not_loaded in H3. cbn in H1, H2, H3.
  destruct outcome as [fs|e]; injection H as _ <-;
    unfold same_status, not_loaded; cbn.
  - rewrite H1, H2, Hr, Hl. now repeat split.
  - rewrite H1, H2. unfold not_loaded in *. now rewrite H3.
Qed.

Lemma notify_status p : keeps same_status (notify opts p).
Proof.
  intros w r w' H. apply notify_trace in H.
  destruct H as (_ & _ & Hr & _ & Hy & _ & Hc).
  unfold same_status, not_loaded. now rewrite Hr, Hy, Hc.
Qed.

Lemma render_frames_status total todo : forall index acc,
  keeps same_status (render_frames rt opts total todo index acc).
Proof.
  induction todo as [|scene todo IH]; intros index acc; cbn [render_frames].
  - apply keeps_ret, same_status_refl.
  - apply keeps_bind; [apply same_status_trans| |intros image].
    + intros w r w' H. unfold render in H. injection H as _ <-.
      now repeat split.
    + apply keeps_bind; [apply same_status_trans|apply with_files_status|].
      intros _.
      apply keeps_bind; [apply same_status_trans|apply notify_status|].
      intros _. apply IH.
Qed.

Lemma generate_body_status name :
  keeps same_status (generate_body rt opts name).
Proof.
  unfold generate_body.
  repeat first
    [ apply keeps_bind; [apply same_status_trans| |intros ?]
    | apply with_files_status
    | apply keeps_unlink_all;
        [apply same_status_refl | apply same_status_trans
        | intros; apply with_files_status]
    | apply render_frames_status
    | apply notify_status
    | apply keeps_ret, same_status_refl
    | progress
        (match goal with
         | |- context [audioFile opts] => destruct (audioFile opts)
         end)
    | apply run_status
    | apply keeps_update; intros w; now repeat split ].
Qed.

Lemma generate_status : keeps same_status (generate rt opts).
Proof.
  intros w r w' H. unfold generate in H.
  destruct (ffmpegRef w); [|injection H as _ <-; apply same_status_refl].
  destruct (scenes opts); [injection H as _ <-; apply same_status_refl|].
  revert w r w' H.
  repeat first
    [ apply keeps_bind; [apply same_status_trans| |intros ?]
    | apply keeps_update; intros w; now repeat split
    | apply notify_status
    | apply keeps_finally;
        [apply same_status_trans | apply generate_body_status
        | intros w; now repeat split ] ].
Qed.



End StatusFacts.



(** The readiness flag is up only when the stored instance has loaded. *)
Lemma ready_means_loaded_aux :
  forall (rt : VideoGenerator.Runtime) (w : VideoGenerator.World),
    VideoGenerator.reachable rt w ->
    VideoGenerator.isReady w = true -> VideoGenerator.not_loaded w = false.
Proof.
  intros rt w Hreach.
  induction Hreach as [|w Hw IH Href|w Hw IH Href Hnl|w Hw IH|w opts Hw IH].
  - discriminate.
  - cbn. intros Hr. apply IH in Hr.
    unfold VideoGenerator.not_loaded in Hr. now rewrite Href in Hr.
  - unfold VideoGenerator.load_settle.
    destruct (VideoGenerator.core_loads rt); cbn;
      destruct (VideoGenerator.cancelled w); cbn;
      try reflexivity; try discriminate.
    intros Hr. apply IH in Hr. congruence.
  - exact IH.
  - destruct (VideoGenerator.generate rt opts w) as [r w'] eqn:E.
    pose proof (generate_status rt opts w r w' E) as (H1 & _ & H3).
    cbn [snd]. rewrite H1, H3. exact IH.
Qed.




(* ------------------------------------------------------------------------- *)
(** ** More on [generate]: when the encoder runs *)
(* ------------------------------------------------------------------------- *)

Section EncoderRuns.

Import VideoGenerator.

Variable rt : Runtime.
Variable opts : GenerateOptions.

Lemma bind_any {A B} (m : M A) (k : A -> M B) w r w' :
  bind m k w = (r, w') ->
  (exists e, m w = (Err e, w') /\ r = Err e)
  \/ (exists a w1, m w = (Ok a, w1) /\ k a w1 = (r, w')).
Proof.
  unfold bind. destruct (m w) as [[a|e] w1].
  - intros H. right. now exists a, w1.
  - intros [= <- <-]. left. now exists e.
Qed.

Lemma only_reports_refl w : only_reports w w.
Proof. exists []. now rewrite app_nil_r. Qed.

Lemma only_reports_trans a b c :
  only_reports a b -> only_reports b c -> only_reports a c.
Proof.
  intros (e1 & H1 & R1 & S1) (e2 & H2 & R2 & S2). exists (e1 ++ e2)%list.
  rewrite H2, H1, <- app_assoc, encoder_runs_app, rendered_app, R1, R2, S1, S2.
  now repeat split.
Qed.

Lemma only_reports_same w w' : trace w' = trace w -> only_reports w w'.
Proof. intros H. exists []. now rewrite app_nil_r. Qed.

Lemma with_files_reports {A} (f : FileSystem -> Result (A * FileSystem)) :
  keeps only_reports (with_files f).
Proof. intros w r w' H. eapply only_reports_same, with_files_any, H. Qed.

Lemma reports_quiet p :
  encoder_runs (reports opts p) = [] /\ rendered (reports opts p) = [].
Proof. unfold reports. now destruct (onProgress opts). Qed.

Lemma notify_reports p : keeps only_reports (notify opts p).
Proof.
  intros w r w' H. apply notify_trace in H. destruct H as [H _].
  exists (reports opts p). split; [exact H | apply reports_quiet].
Qed.

(** The loop of the frames, however it ends: it runs no encoder, and when it
    completes it has rendered every scene, each with success. *)
Lemma render_frames_any total todo : forall index acc w r w',
  render_frames rt opts total todo index acc w = (r, w') ->
  exists evs,
    trace w' = (trace w ++ evs)%list
    /\ encoder_runs evs = []
    /\ (forall body, r = Ok body ->
        rendered evs = todo /\ Forall (renders rt) todo).
Proof.
  induction todo as [|scene todo IH]; intros index acc w r w' H.
  - cbn in H. injection H as <- <-. exists []. rewrite app_nil_r.
    repeat split; constructor.
  - cbn [render_frames] in H.
    apply bind_any in H. destruct H as [(e & H & ->)|(image & w1 & Hr & H)].
    + unfold render in H. injection H as _ <-.
      exists [RenderFrame scene]. now repeat split.
    + unfold render in Hr. injection Hr as Hr <-.
      apply bind_any in H. destruct H as [(e & H & ->)|(u & w2 & Hw & H)].
      * apply with_files_any in H. exists [RenderFrame scene].
        rewrite H. now repeat split.
      * apply with_files_any in Hw.
        apply bind_any in H. destruct H as [(e & H & ->)|(u' & w3 & Hn & H)].
        { apply notify_trace in H. destruct H as [H _].
          eexists (RenderFrame scene :: reports opts _)%list.
          split; [|split].
          - rewrite H, Hw. cbn [trace log]. now rewrite <- app_assoc.
          - cbn [encoder_runs flat_map app].
            change (flat_map _ ?l) with (encoder_runs l).
            apply reports_quiet.
          - discriminate. }
        apply notify_trace in Hn. destruct Hn as [Hn _].
        apply IH in H. destruct H as (evs & Ht & He & Hok).
        exists (RenderFrame scene
                  :: reports opts
                       (inject_Z (Z.of_nat index)
                        / inject_Z (Z.of_nat total) * 50)%Q
                  ++ evs)%list.
        split; [|split].
        -- rewrite Ht, Hn, Hw. cbn [trace log]. now rewrite <- !app_assoc.
        -- cbn [encoder_runs flat_map app].
           change (flat_map _ ?l) with (encoder_runs l).
           rewrite encoder_runs_app, He.
           now rewrite (proj1 (reports_quiet _)).
        -- intros body Hb. destruct (Hok body Hb) as [Hrd Hall]. split.
           ++ cbn [rendered flat_map app].
              change (flat_map _ ?l) with (rendered l).
              rewrite rendered_app, Hrd.
              now rewrite (proj2 (reports_quiet _)).
           ++ constructor; [now exists image | exact Hall].
Qed.

Lemma run_any args w r w' :
  run rt args w = (r, w') ->
  trace w' = trace w
  \/ trace w' = (trace w ++ [RunEncoder args (scratch w)])%list.
Proof.
  unfold run, scratch.
  destruct (ffmpegRef w) as [inst|]; [|intros [= _ <-]; now left].
  destruct (loaded inst); [|intros [= _ <-]; now left].
  destruct (exec rt args (files inst)) as [ratios [fs|e]];
    intros H; injection H as _ <-; right; cbn [trace setRef];
    now rewrite fold_setProgress_trace.
Qed.

(** What is left of [generate_body] once the encoder has run. *)
Lemma after_run_reports name :
  keeps only_reports
    (bind (FS_readFile "output.mp4") (fun data =>
       let file := {| file_name := name; file_type := "video/mp4";
                      file_data := data |} in
       let objectUrl := createObjectURL rt data in
       bind (notify opts 100%Q) (fun _ =>
       bind (update (setProgress 100%Q)) (fun _ =>
       ret {| url := objectUrl; fileName := name; file := file |})))).
Proof.
  apply keeps_bind;
    [apply only_reports_trans | apply with_files_reports | intros data].
  apply keeps_bind;
    [apply only_reports_trans | apply notify_reports | intros _].
  apply keeps_bind; [apply only_reports_trans | | intros _].
  - apply keeps_update. intros w. now apply only_reports_same.
  - apply keeps_ret, only_reports_refl.
Qed.

(** The encoder runs at most once in [generate_body], and only after the
    loop has rendered every scene. *)
Lemma generate_body_runs name w r w' :
  generate_body rt opts name w = (r, w') ->
  exists evs,
    trace w' = (trace w ++ evs)%list
    /\ (encoder_runs evs = []
        \/ (exists pre args fs post,
               evs = (pre ++ [RunEncoder args fs] ++ post)%list
               /\ encoder_runs pre = []
               /\ rendered pre = scenes opts
               /\ encoder_runs post = []
               /\ rendered post = []
               /\ Forall (renders rt) (scenes opts))).
Proof.
  unfold generate_body. intros H.
  apply bind_any in H. destruct H as [(e & H & ->)|(existing & w1 & H1 & H)].
  { apply with_files_any in H. exists []. rewrite app_nil_r. now split; [|left]. }
  apply with_files_any in H1.
  apply bind_any in H. destruct H as [(e & H & ->)|(u2 & w2 & H2 & H)].
  { apply unlink_all_trace in H. exists []. rewrite app_nil_r, H, H1.
    now split; [|left]. }
  apply unlink_all_trace in H2.
  apply bind_any in H. destruct H as [(e & H & ->)|(body & w3 & H3 & H)].
  { apply render_frames_any in H. destruct H as (evs & Ht & He & _).
    exists evs. rewrite Ht, H2, H1. now split; [|left]. }
  apply render_frames_any in H3. destruct H3 as (evs & Ht & He & Hok).
  destruct (Hok body eq_refl) as [Hrd Hall]. clear Hok.
  apply bind_any in H. destruct H as [(e & H & ->)|(u4 & w4 & H4 & H)].
  { apply with_files_any in H. exists evs. rewrite H, Ht, H2, H1.
    now split; [|left]. }
  apply with_files_any in H4.
  apply bind_any in H. destruct H as [(e & H & ->)|(u5 & w5 & H5 & H)].
  { exists evs. split; [|now left].
    destruct (audioFile opts).
    - apply with_files_any in H. now rewrite H, H4, Ht, H2, H1.
    - discriminate. }
  assert (H5' : trace w5 = trace w4).
  { destruct (audioFile opts); [eapply with_files_any, H5|].
    now injection H5 as _ <-. }
  apply bind_any in H. destruct H as [(e & H & ->)|(u6 & w6 & H6 & H)].
  { assert (Hrun : exists args,
               trace w' = trace w5
               \/ trace w' = (trace w5 ++ [RunEncoder args (scratch w5)])%list).
    { destruct (audioFile opts); eexists; eapply run_any, H. }
    destruct Hrun as (args & [Hrun|Hrun]).
    - exists evs. rewrite Hrun, H5', H4, Ht, H2, H1. now split; [|left].
    - exists (evs ++ [RunEncoder args (scratch w5)] ++ [])%list.
      rewrite Hrun, H5', H4, Ht, H2, H1, <- app_assoc.
      split; [reflexivity|]. right. exists evs, args, (scratch w5), [].
      now repeat split. }
  assert (Hrun : exists args,
             trace w6 = trace w5
             \/ trace w6 = (trace w5 ++ [RunEncoder args (scratch w5)])%list).
  { destruct (audioFile opts); eexists; eapply run_any, H6. }
  apply after_run_reports in H. destruct H as (post & Hp & Hpe & Hpr).
  destruct Hrun as (args & [Hrun|Hrun]).
  - exists (evs ++ post)%list.
    rewrite Hp, Hrun, H5', H4, Ht, H2, H1, <- app_assoc.
    split; [reflexivity|]. left. now rewrite encoder_runs_app, He, Hpe.
  - exists (evs ++ [RunEncoder args (scratch w5)] ++ post)%list.
    rewrite Hp, Hrun, H5', H4, Ht, H2, H1, <- !app_assoc.
    split; [reflexivity|]. right. exists evs, args, (scratch w5), post.
    now repeat split.
Qed.

(** The same of a whole call. *)
Lemma generate_runs w :
  exists evs,
    trace (snd (generate rt opts w)) = (trace w ++ evs)%list
    /\ (encoder_runs evs = []
        \/ (exists pre args fs post,
               evs = (pre ++ [RunEncoder args fs] ++ post)%list
               /\ encoder_runs pre = []
               /\ rendered pre = scenes opts
               /\ encoder_runs post = []
               /\ rendered post = []
               /\ Forall (renders rt) (scenes opts))).
Proof.
  unfold generate.
  destruct (ffmpegRef w);
    [|exists []; rewrite app_nil_r; now split; [|left]].
  destruct (scenes opts) as [|s0 rest] eqn:Hs;
    [exists []; rewrite app_nil_r; now split; [|left]|].
  rewrite <- Hs.
  unfold bind at 1. cbn [update]. unfold bind at 1. cbn [update].
  unfold bind at 1.
  destruct (notify opts 0%Q _) as [[u|e] w3] eqn:Hn;
    apply notify_trace in Hn; destruct Hn as [Hn _];
    cbn [trace setBusy setProgress] in Hn.
  - unfold finally.
    destruct (generate_body rt opts _ _) as [r w'] eqn:Hb.
    apply generate_body_runs in Hb. destruct Hb as (evs & Ht & Hcases).
    cbn [snd trace setBusy].
    exists (reports opts 0 ++ evs)%list. split.
    + now rewrite Ht, Hn, <- app_assoc.
    + destruct (reports_quiet 0%Q) as [Hq1 Hq2].
      destruct Hcases as [Hnone|(pre & args & fs & post & -> & H1 & H2 & H3)].
      * left. now rewrite encoder_runs_app, Hq1.
      * right. exists (reports opts 0 ++ pre)%list, args, fs, post.
        rewrite encoder_runs_app, rendered_app, Hq1, Hq2, <- app_assoc.
        now repeat split.
  - cbn [snd]. exists (reports opts 0). split; [exact Hn|].
    left. apply reports_quiet.
Qed.

End EncoderRuns.

(** X16. [generate] never encodes part of a storyboard.  In any call, whether
    it returns or raises, the encoder is run at most once, and when it is
    run every scene has been rendered before the run, in order and with
    success, and none is rendered after it. *)
Theorem encoder_runs_after_all_frames :
  forall (rt : VideoGenerator.Runtime) (opts : VideoGenerator.GenerateOptions)
         (w : VideoGenerator.World),
    exists evs,
      VideoGenerator.trace (snd (VideoGenerator.generate rt opts w))
      = (VideoGenerator.trace w ++ evs)%list
      /\ (VideoGenerator.encoder_runs evs = []
          \/ (exists before args fs after,
                 evs = (before ++ [VideoGenerator.RunEncoder args fs]
                          ++ after)%list
                 /\ VideoGenerator.encoder_runs before = []
                 /\ VideoGenerator.rendered before = VideoGenerator.scenes opts
                 /\ VideoGenerator.encoder_runs after = []
                 /\ VideoGenerator.rendered after = []
                 /\ Forall (VideoGenerator.renders rt)
                           (VideoGenerator.scenes opts))).
Proof. intros rt opts w. apply generate_runs. Qed.

(* ------------------------------------------------------------------------- *)
(** ** More on [generate]: the scratch files *)
(* ------------------------------------------------------------------------- *)

Section ScratchFacts.

Import VideoGenerator.

Lemma lookup_in name fs node :
  lookup name fs = Some node -> In name (map fst fs).
Proof.
  induction fs as [|[n x] fs IH]; cbn; [discriminate|].
  destruct (String.eqb_spec n name) as [->|Hne]; [now left|].
  intros H. right. now apply IH.
Qed.

Lemma lookup_store_inv name other data fs node :
  lookup name (store other data fs) = Some node ->
  (name = other /\ node = FileNode data) \/ lookup name fs = Some node.
Proof.
  destruct (String.eqb_spec other name) as [->|Hne].
  - rewrite lookup_store_same. intros [= <-]. now left.
  - rewrite lookup_store_other by exact Hne. now right.
Qed.

Lemma lookup_remove_other name file fs :
  name <> file -> lookup name (remove file fs) = lookup name fs.
Proof.
  intros Hne. induction fs as [|[n x] fs IH]; [reflexivity|]. cbn.
  destruct (String.eqb_spec n file) as [->|Hnf].
  - destruct (String.eqb_spec file name); [congruence | reflexivity].
  - cbn. now rewrite IH.
Qed.

Lemma lookup_remove_same file fs :
  NoDup (map fst fs) -> lookup file (remove file fs) = None.
Proof.
  induction fs as [|[n x] fs IH]; [reflexivity|]. cbn.
  intros Hnd. inversion Hnd as [|? ? Hnotin Hnd']; subst.
  destruct (String.eqb_spec n file) as [->|Hnf].
  - destruct (lookup file fs) eqn:E; [|reflexivity].
    apply lookup_in in E. contradiction.
  - cbn. destruct (String.eqb_spec n file); [congruence|]. now apply IH.
Qed.

Lemma remove_names file fs : incl (map fst (remove file fs)) (map fst fs).
Proof.
  induction fs as [|[n x] fs IH]; [apply incl_refl|]. cbn.
  destruct (String.eqb n file).
  - apply incl_tl, incl_refl.
  - cbn. apply incl_cons; [now left|]. now apply incl_tl.
Qed.

Lemma remove_NoDup file fs :
  NoDup (map fst fs) -> NoDup (map fst (remove file fs)).
Proof.
  induction fs as [|[n x] fs IH]; [exact (fun H => H)|]. cbn.
  intros Hnd. inversion Hnd as [|? ? Hnotin Hnd']; subst.
  destruct (String.eqb n file); [exact Hnd'|]. cbn.
  constructor; [|now apply IH].
  intros Hin. apply Hnotin. eapply remove_names, Hin.
Qed.

(** What [purge] leaves was there before, and is no file it was asked to
    remove. *)
Lemma purge_lookup todo : forall fs name node,
  NoDup (map fst fs) ->
  lookup name (purge todo fs) = Some node ->
  lookup name fs = Some node
  /\ (forall data, node = FileNode data -> ~ In name todo).
Proof.
  induction todo as [|file todo IH]; intros fs name node Hnd H.
  - cbn in H. split; [exact H|]. intros data _ [].
  - cbn [purge fold_left] in H.
    set (fs1 := match lookup file fs with
                | Some (FileNode _) => remove file fs
                | _ => fs
                end) in *.
    assert (Hnd1 : NoDup (map fst fs1)).
    { subst fs1. destruct (lookup file fs) as [[d|]|];
        [apply remove_NoDup|..]; exact Hnd. }
    destruct (IH fs1 name node Hnd1 H) as [H1 H2].
    split.
    + subst fs1. destruct (lookup file fs) as [[d|]|] eqn:E; try exact H1.
      destruct (String.eqb_spec name file) as [->|Hne].
      * rewrite lookup_remove_same in H1 by exact Hnd. discriminate.
      * now rewrite lookup_remove_other in H1 by exact Hne.
    + intros data -> [Heq|Hin]; [|exact (H2 data eq_refl Hin)].
      subst file. subst fs1.
      destruct (lookup name fs) as [[d|]|] eqn:E.
      * rewrite lookup_remove_same in H1 by exact Hnd. discriminate.
      * rewrite E in H1. discriminate.
      * rewrite E in H1. discriminate.
Qed.

Lemma readdir_names fs :
  ~ In "." (map fst fs) -> ~ In ".." (map fst fs) ->
  filter (fun file => negb (String.eqb file ".") && negb (String.eqb file ".."))
         (fs_readdir fs)
  = map fst fs.
Proof.
  intros H1 H2. unfold fs_readdir. cbn [filter].
  change (negb ("." =? ".") && negb ("." =? "..")) with false.
  change (negb (".." =? ".") && negb (".." =? "..")) with false.
  cbv iota.
  induction (map fst fs) as [|n l IH]; [reflexivity|]. cbn [filter].
  destruct (String.eqb_spec n ".") as [->|Hn1]; [exfalso; apply H1; now left|].
  destruct (String.eqb_spec n "..") as [->|Hn2]; [exfalso; apply H2; now left|].
  cbn. f_equal. apply IH; intros Hin; [apply H1 | apply H2]; now right.
Qed.

(** Clearing tidy scratch files leaves no file behind. *)
Lemma purge_leaves_no_file fs name data :
  tidy fs ->
  lookup name
    (purge (filter (fun file =>
                      negb (String.eqb file ".") && negb (String.eqb file ".."))
                   (fs_readdir fs)) fs)
  <> Some (FileNode data).
Proof.
  intros (Hnd & H1 & H2) H. rewrite readdir_names in H by assumption.
  apply purge_lookup in H; [|exact Hnd]. destruct H as [Hl Hn].
  apply (Hn data eq_refl). eapply lookup_in, Hl.
Qed.

Lemma store_frames_other images : forall index fs name,
  (forall j, index <= j -> name <> frameName j) ->
  lookup name (store_frames images index fs) = lookup name fs.
Proof.
  induction images as [|x images IH]; intros index fs name Hn; [reflexivity|].
  cbn [store_frames]. rewrite IH by (intros j Hj; apply Hn; lia).
  apply lookup_store_other. intros E. apply (Hn index); [lia | now symmetry].
Qed.

(** The frames in the scratch files once they are written. *)
Lemma store_frames_lookup images : forall index fs i img,
  nth_error images i = Some img ->
  lookup (frameName (index + i)) (store_frames images index fs)
  = Some (FileNode img).
Proof.
  induction images as [|x images IH]; intros index fs i img H.
  - destruct i; discriminate.
  - cbn [store_frames]. destruct i as [|i].
    + injection H as ->. rewrite Nat.add_0_r, store_frames_other.
      * apply lookup_store_same.
      * intros j Hj E. apply frameName_inj in E. lia.
    + replace (index + S i) with (S index + i) by lia. now apply IH.
Qed.

Lemma store_frames_lookup_inv images : forall index fs name node,
  lookup name (store_frames images index fs) = Some node ->
  (exists j, j < List.length images /\ name = frameName (index + j))
  \/ lookup name fs = Some node.
Proof.
  induction images as [|x images IH]; intros index fs name node H;
    [now right|].
  cbn [store_frames] in H. apply IH in H. destruct H as [(j & Hj & ->)|H].
  - left. exists (S j). cbn [List.length]. split; [lia|]. f_equal. lia.
  - apply lookup_store_inv in H. destruct H as [[-> _]|H]; [|now right].
    left. exists 0. cbn [List.length]. split; [lia|]. now rewrite Nat.add_0_r.
Qed.

End ScratchFacts.

Section SuccessFacts.

Import VideoGenerator.

Variable rt : Runtime.
Variable opts : GenerateOptions.

Lemma with_files_ok2 {A} (f : FileSystem -> Result (A * FileSystem)) w a w' :
  with_files f w = (Ok a, w') ->
  not_loaded w = false
  /\ exists fs', f (scratch w) = Ok (a, fs')
                 /\ trace w' = trace w /\ scratch w' = fs'
                 /\ not_loaded w' = false.
Proof.
  unfold with_files, scratch, not_loaded.
  destruct (ffmpegRef w) as [inst|]; [|discriminate].
  destruct (loaded inst); [|discriminate].
  destruct (f (files inst)) as [[a' fs']|e]; [|discriminate].
  intros [= <- <-]. split; [reflexivity|]. now exists fs'.
Qed.

Lemma FS_unlink_scratch file w r w' :
  not_loaded w = false ->
  FS_unlink ("/" ++ file) w = (r, w') ->
  trace w' = trace w /\ not_loaded w' = false
  /\ scratch w'
     = match lookup file (scratch w) with
       | Some (FileNode _) => remove file (scratch w)
       | _ => scratch w
       end.
Proof.
  unfold FS_unlink, with_files, not_loaded, scratch, fs_unlink.
  change (base_name ("/" ++ file)) with file.
  destruct (ffmpegRef w) as [inst|] eqn:Hr; [|discriminate].
  intros Hl. apply negb_false_iff in Hl. rewrite Hl.
  destruct (lookup file (files inst)) as [[d|]|]; intros [= _ <-]; cbn;
    rewrite ?Hr, ?Hl; now repeat split.
Qed.

Lemma unlink_all_scratch todo : forall w r w',
  not_loaded w = false ->
  unlink_all todo w = (r, w') ->
  trace w' = trace w /\ not_loaded w' = false
  /\ scratch w' = purge todo (scratch w).
Proof.
  induction todo as [|file todo IH]; intros w r w' Hl H.
  - cbn in H. injection H as _ <-. now repeat split.
  - cbn [unlink_all] in H. unfold bind, ignoring in H.
    destruct (FS_unlink ("/" ++ file) w) as [r1 w1] eqn:E.
    apply FS_unlink_scratch in E; [|exact Hl]. destruct E as (Ht & Hl1 & Hs).
    apply IH in H; [|exact Hl1]. destruct H as (Ht' & Hl' & Hs').
    repeat split; [congruence | exact Hl' |].
    rewrite Hs', Hs. reflexivity.
Qed.

Lemma FS_writeFile_ok2 path data w u w' :
  FS_writeFile path data w = (Ok u, w') ->
  trace w' = trace w /\ not_loaded w' = false
  /\ scratch w' = store (base_name path) data (scratch w).
Proof.
  intros H. apply with_files_ok2 in H.
  destruct H as (_ & fs' & Hf & Ht & Hs & Hl).
  cbv beta in Hf. unfold fs_writeFile in Hf.
  destruct (lookup (base_name path) (scratch w)) as [[d|]|];
    try discriminate; injection Hf as _ <-; now repeat split.
Qed.

(** The loop, when it completes: every scene rendered, and its frame in the
    scratch files. *)
Lemma render_frames_files total todo : forall index acc w body w',
  render_frames rt opts total todo index acc w = (Ok body, w') ->
  exists images,
    Forall2 (fun scene img =>
               Video.renderSceneToFrame (canvas_env rt) scene Video.no_options
               = Ok img) todo images
    /\ scratch w' = store_frames images index (scratch w).
Proof.
  induction todo as [|scene todo IH]; intros index acc w body w' H.
  - cbn in H. injection H as _ <-. exists []. split; [constructor | reflexivity].
  - cbn [render_frames] in H.
    apply bind_ok in H. destruct H as (img & w1 & Hr & H).
    apply bind_ok in H. destruct H as (u & w2 & Hw & H).
    apply bind_ok in H. destruct H as (u' & w3 & Hn & H).
    unfold render in Hr. injection Hr as Hr <-.
    apply FS_writeFile_ok2 in Hw. destruct Hw as (_ & _ & Hs2).
    apply notify_trace in Hn. destruct Hn as (_ & Hs3 & _).
    apply IH in H. destruct H as (images & Hall & Hs).
    exists (img :: images). split; [now constructor|].
    rewrite Hs. cbn [store_frames]. f_equal.
    rewrite Hs3, Hs2. reflexivity.
Qed.

(** The block under [try] is its two parts, one after the other. *)
Lemma generate_body_split name w :
  generate_body rt opts name w
  = bind (prepare rt opts) (fun _ => encode_and_return rt opts name) w.
Proof.
  unfold generate_body, prepare, encode_and_return, bind.
  repeat (match goal with
          | |- context [match ?m w with _ => _ end] =>
              destruct (m w) as [[?|?] ?]
          | |- context [match ?m ?x with (r, w1) => _ end] =>
              destruct (m x) as [[?|?] ?]
          end; try reflexivity).
Qed.

(** The first part, when it completes: the scenes rendered, the files it
    leaves for the encoder, and what it did. *)
Lemma prepare_ok w u w5 :
  prepare rt opts w = (Ok u, w5) ->
  exists images,
    Forall2 (fun scene img =>
               Video.renderSceneToFrame (canvas_env rt) scene Video.no_options
               = Ok img) (scenes opts) images
    /\ scratch w5
       = (let cleared :=
            purge (filter (fun file => negb (String.eqb file ".")
                                       && negb (String.eqb file ".."))
                          (fs_readdir (scratch w))) (scratch w) in
          let with_manifest :=
            store "frames.txt"
              (JS.encode
                 (JS.join newline
                    (manifest_of (frame_lines (scenes opts) 0)
                       (List.length (scenes opts)))))
              (store_frames images 0 cleared) in
          match audioFile opts with
          | Some audio =>
              store ("audio" ++ getExtension (file_name audio))
                    (file_data audio) with_manifest
          | None => with_manifest
          end)
    /\ trace w5
       = (trace w
            ++ frame_events opts (List.length (scenes opts)) (scenes opts) 0)%list
    /\ not_loaded w5 = false.
Proof.
  unfold prepare. intros Hb.
  apply bind_ok in Hb. destruct Hb as (existing & w1 & H1 & Hb).
  apply with_files_ok2 in H1. destruct H1 as (_ & fs1 & Hf1 & Ht1 & Hs1 & Hl1).
  injection Hf1 as <- <-.
  apply bind_ok in Hb. destruct Hb as (u2 & w2 & H2 & Hb).
  apply unlink_all_scratch in H2; [|exact Hl1]. destruct H2 as (Ht2 & Hl2 & Hs2).
  apply bind_ok in Hb. destruct Hb as (body & w3 & H3 & Hb).
  pose proof (render_frames_ok rt opts _ _ _ _ _ _ _ H3) as [-> Ht3].
  apply render_frames_files in H3. destruct H3 as (images & Hall & Hs3).
  cbn [app] in Hb.
  apply bind_ok in Hb. destruct Hb as (u4 & w4 & H4 & Hb).
  apply FS_writeFile_ok2 in H4. destruct H4 as (Ht4 & Hl4 & Hs4).
  exists images. split; [exact Hall|].
  destruct (audioFile opts) as [audio|].
  - apply FS_writeFile_ok2 in Hb. destruct Hb as (Ht5 & Hl5 & Hs5).
    split; [|split; [|exact Hl5]].
    + cbv zeta. rewrite Hs5, Hs4, Hs3, Hs2, Hs1. reflexivity.
    + now rewrite Ht5, Ht4, Ht3, Ht2, Ht1.
  - injection Hb as _ <-. split; [|split; [|exact Hl4]].
    + cbv zeta. rewrite Hs4, Hs3, Hs2, Hs1. reflexivity.
    + now rewrite Ht4, Ht3, Ht2, Ht1.
Qed.

(** The second part, when it returns a video. *)
Lemma encode_and_return_ok name w5 v w' :
  encode_and_return rt opts name w5 = (Ok v, w') ->
  exists ratios fs_out,
    exec rt (encoder_args (audio_path opts)) (scratch w5) = (ratios, Ok fs_out)
    /\ trace w'
       = (trace w5
            ++ RunEncoder (encoder_args (audio_path opts)) (scratch w5)
                 :: reports opts 100)%list
    /\ scratch w' = fs_out
    /\ lookup "output.mp4" fs_out = Some (FileNode (file_data (file v)))
    /\ v = {| url := createObjectURL rt (file_data (file v));
              fileName := name;
              file := {| file_name := name; file_type := "video/mp4";
                         file_data := file_data (file v) |} |}
    /\ progress w' = 100%Q.
Proof.
  unfold encode_and_return. intros Hb.
  apply bind_ok in Hb. destruct Hb as (u1 & w6 & H6 & Hb).
  assert (H6' : run rt (encoder_args (audio_path opts)) w5 = (Ok u1, w6)).
  { unfold audio_path. destruct (audioFile opts); exact H6. }
  clear H6. pose proof (run_ok rt _ _ _ _ H6') as Ht6.
  apply bind_ok in Hb. destruct Hb as (data & w7 & H7 & Hb).
  apply with_files_ok2 in H7.
  destruct H7 as (_ & fs7 & Hf7 & Ht7 & Hs7 & Hl7).
  cbv beta in Hf7. unfold fs_readFile in Hf7.
  change (base_name "output.mp4") with "output.mp4" in Hf7.
  destruct (lookup "output.mp4" (scratch w6)) as [[d|]|] eqn:Hout;
    try discriminate.
  injection Hf7 as -> <-.
  apply bind_ok in Hb. destruct Hb as (u8 & w8 & H8 & Hb).
  apply notify_trace in H8. destruct H8 as (Ht8 & Hs8 & _).
  apply bind_ok in Hb. destruct Hb as (u9 & w9 & H9 & Hb).
  injection H9 as _ <-. injection Hb as <- <-.
  unfold run in H6'. unfold scratch in Hout |- *.
  destruct (ffmpegRef w5) as [inst5|] eqn:Hr5; [|discriminate].
  destruct (loaded inst5); [|discriminate].
  destruct (exec rt (encoder_args (audio_path opts)) (files inst5))
    as [ratios [fs_out|e]] eqn:Hexec; [|discriminate].
  injection H6' as _ <-. cbn [ffmpegRef setRef files] in Hout.
  exists ratios, fs_out.
  split; [reflexivity|]. split.
  { cbn [trace setProgress]. rewrite Ht8, Ht7.
    unfold scratch in Ht6. rewrite Hr5 in Ht6. rewrite Ht6.
    now rewrite <- app_assoc. }
  split.
  { cbn [ffmpegRef setProgress]. unfold scratch in Hs8, Hs7.
    rewrite Hs8, Hs7. reflexivity. }
  split; [exact Hout|].
  split; reflexivity.
Qed.

(** A call of [generate] that returns a video, in full. *)
Lemma generate_ok_detail w v w' :
  generate rt opts w = (Ok v, w') ->
  exists images fs_in ratios fs_out before after,
    Forall2 (fun scene img =>
               Video.renderSceneToFrame (canvas_env rt) scene Video.no_options
               = Ok img) (scenes opts) images
    /\ fs_in
       = (let cleared :=
            purge (filter (fun file => negb (String.eqb file ".")
                                       && negb (String.eqb file ".."))
                          (fs_readdir (scratch w))) (scratch w) in
          let with_manifest :=
            store "frames.txt"
              (JS.encode
                 (JS.join newline
                    (manifest_of (frame_lines (scenes opts) 0)
                       (List.length (scenes opts)))))
              (store_frames images 0 cleared) in
          match audioFile opts with
          | Some audio =>
              store ("audio" ++ getExtension (file_name audio))
                    (file_data audio) with_manifest
          | None => with_manifest
          end)
    /\ trace w'
       = (trace w ++ before
            ++ RunEncoder (encoder_args (audio_path opts)) fs_in :: after)%list
    /\ exec rt (encoder_args (audio_path opts)) fs_in = (ratios, Ok fs_out)
    /\ scratch w' = fs_out
    /\ lookup "output.mp4" fs_out = Some (FileNode (file_data (file v)))
    /\ v = {| url := createObjectURL rt (file_data (file v));
              fileName := match outputName opts with
                          | Some n => n
                          | None => "ai-video-" ++ JS.string_of_Z (now rt)
                                      ++ ".mp4"
                          end;
              file := {| file_name := fileName v; file_type := "video/mp4";
                         file_data := file_data (file v) |} |}
    /\ progress w' = 100%Q /\ isBusy w' = false.
Proof.
  unfold generate.
  destruct (ffmpegRef w) as [inst|] eqn:Href; [|discriminate].
  destruct (scenes opts) as [|s0 rest] eqn:Hs; [discriminate|].
  rewrite <- Hs. intros H.
  apply bind_ok in H. destruct H as (u1 & w1 & H1 & H).
  apply bind_ok in H. destruct H as (u2 & w2 & H2 & H).
  apply bind_ok in H. destruct H as (u3 & w3 & H3 & H).
  injection H1 as _ <-. injection H2 as _ <-.
  apply notify_trace in H3. destruct H3 as (Ht3 & Hs3 & _).
  cbn [trace setBusy setProgress] in Ht3.
  change (scratch (setProgress 0 (setBusy true w))) with (scratch w) in Hs3.
  unfold finally in H.
  destruct (generate_body rt opts _ _) as [r w4] eqn:Hb.
  injection H as -> <-.
  rewrite generate_body_split in Hb.
  apply bind_ok in Hb. destruct Hb as (u5 & w5 & H5 & Hb).
  apply prepare_ok in H5. destruct H5 as (images & Hall & Hs5 & Ht5 & _).
  apply encode_and_return_ok in Hb.
  destruct Hb as (ratios & fs_out & Hexec & Ht & Hout & Hlook & Hv & Hp).
  exists images, (scratch w5), ratios, fs_out,
    (reports opts 0
       ++ frame_events opts (List.length (scenes opts)) (scenes opts) 0)%list,
    (reports opts 100).
  split; [exact Hall|].
  split; [rewrite Hs5, !Hs3; reflexivity|].
  split.
  { cbn [trace setBusy]. rewrite Ht, Ht5, Ht3, <- !app_assoc. reflexivity. }
  split; [exact Hexec|].
  split; [exact Hout|].
  split; [exact Hlook|].
  split; [|split; [exact Hp | reflexivity]].
  clear - Hv. destruct v as [vurl vname [fname ftype fdata]].
  cbn in Hv |- *. congruence.
Qed.




End SuccessFacts.

(* ------------------------------------------------------------------------- *)
(** ** The manifest the encoder reads *)
(* ------------------------------------------------------------------------- *)




Lemma Forall2_nth_l {A B} (R : A -> B -> Prop) l l' :
  Forall2 R l l' ->
  forall i a, nth_error l i = Some a ->
  exists b, nth_error l' i = Some b /\ R a b.
Proof.
  induction 1 as [|x y l l' Hxy Hall IH]; intros i a Hi.
  - destruct i; discriminate.
  - destruct i as [|i].
    + injection Hi as <-. now exists y.
    + now apply IH.
Qed.

Lemma Forall2_same_length {A B} (R : A -> B -> Prop) l l' :
  Forall2 R l l' -> List.length l = List.length l'.
Proof. induction 1; cbn; congruence. Qed.

(** X17. When [generate] returns a video, the scratch files the encoder was
    run on hold, for every scene, the frame [renderSceneToFrame] made of it
    under the name of its position, and the bytes of the audio track, when
    there is one, under [audio] followed by the extension of its name; the
    encoder got the path of the track as its second input. *)
Theorem encoder_input_complete :
  forall (rt : VideoGenerator.Runtime) (opts : VideoGenerator.GenerateOptions)
         (w w' : VideoGenerator.World) (v : VideoGenerator.GeneratedVideo),
    VideoGenerator.generate rt opts w = (Ok v, w') ->
    exists fs before after,
      VideoGenerator.trace w'
      = (VideoGenerator.trace w ++ before
           ++ VideoGenerator.RunEncoder
                (VideoGenerator.encoder_args (VideoGenerator.audio_path opts))
                fs :: after)%list
      /\ (forall i scene,
             nth_error (VideoGenerator.scenes opts) i = Some scene ->
             exists bytes,
               Video.renderSceneToFrame (VideoGenerator.canvas_env rt) scene
                 Video.no_options = Ok bytes
               /\ VideoGenerator.lookup (VideoGenerator.frameName i) fs
                  = Some (VideoGenerator.FileNode bytes))
      /\ (forall audio,
             VideoGenerator.audioFile opts = Some audio ->
             VideoGenerator.lookup
               ("audio" ++ VideoGenerator.getExtension
                             (VideoGenerator.file_name audio)) fs
             = Some (VideoGenerator.FileNode (VideoGenerator.file_data audio))
             /\ In ("audio" ++ VideoGenerator.getExtension
                                 (VideoGenerator.file_name audio))
                   (VideoGenerator.encoder_args
                      (VideoGenerator.audio_path opts))).
Proof.
  intros rt opts w w' v H.
  apply generate_ok_detail in H.
  destruct H as (images & fs & ratios & fs_out & before & after
                 & Hall & Hfs & Ht & _).
  exists fs, before, after. split; [exact Ht|]. cbv zeta in Hfs. split.
  - intros i scene Hi.
    destruct (Forall2_nth_l _ _ _ Hall i scene Hi) as (bytes & Hb & Hr).
    exists bytes. split; [exact Hr|]. rewrite Hfs.
    assert (Hframes : forall fs0,
               VideoGenerator.lookup (VideoGenerator.frameName i)
                 (VideoGenerator.store "frames.txt"
                    (JS.encode
                       (JS.join VideoGenerator.newline
                          (VideoGenerator.manifest_of
                             (VideoGenerator.frame_lines
                                (VideoGenerator.scenes opts) 0)
                             (List.length (VideoGenerator.scenes opts)))))
                    (VideoGenerator.store_frames images 0 fs0))
               = Some (VideoGenerator.FileNode bytes)).
    { intros fs0. rewrite lookup_store_other.
      - apply (store_frames_lookup images 0 fs0 i bytes Hb).
      - intros E. symmetry in E. now apply frameName_not_manifest in E. }
    destruct (VideoGenerator.audioFile opts) as [audio|]; [|apply Hframes].
    rewrite lookup_store_other; [apply Hframes|].
    intros E. symmetry in E. now apply frameName_not_audio in E.
  - intros audio Ha. rewrite Hfs. unfold VideoGenerator.audio_path.
    rewrite Ha. split; [apply lookup_store_same|].
    cbn. do 7 right. now left.
Qed.

Lemma encoder_input_complete_witness :
  exists fs before after,
    VideoGenerator.trace
      (snd (VideoGenerator.generate Demo.rt (Demo.options Demo.two_scenes)
              Demo.ready))
    = (before ++ VideoGenerator.RunEncoder
                   (VideoGenerator.encoder_args None) fs :: after)%list
    /\ VideoGenerator.lookup "frame-01.png" fs
       = option_map VideoGenerator.FileNode
           (match Video.renderSceneToFrame Demo.env
                    (Demo.scene (9 # 2) (color "#112233") (Some "Go"))
                    Video.no_options with
            | Ok bytes => Some bytes
            | Err _ => None
            end).
Proof.
  destruct (VideoGenerator.generate Demo.rt (Demo.options Demo.two_scenes)
              Demo.ready) as [[v|e] w'] eqn:E; [|vm_compute in E; discriminate].
  destruct (encoder_input_complete Demo.rt (Demo.options Demo.two_scenes)
              Demo.ready w' v E) as (fs & before & after & Ht & Hframes & _).
  exists fs, before, after. split; [exact Ht|].
  destruct (Hframes 1 _ eq_refl) as (bytes & Hr & Hl).
  change (VideoGenerator.lookup "frame-01.png" fs)
    with (VideoGenerator.lookup (VideoGenerator.frameName 1) fs).
  rewrite Hl.
  change (VideoGenerator.canvas_env Demo.rt) with Demo.env in Hr.
  now rewrite Hr.
Defined.

(** X18. [generate] starts from cleared scratch files.  When the scratch files
    are tidy and the call returns a video, the only files the encoder finds
    are those this call wrote: the frames of the scenes, the manifest and the
    audio track.  No file of an earlier render is left. *)
Theorem encoder_input_has_no_stale_file :
  forall (rt : VideoGenerator.Runtime) (opts : VideoGenerator.GenerateOptions)
         (w w' : VideoGenerator.World) (v : VideoGenerator.GeneratedVideo),
    VideoGenerator.tidy (VideoGenerator.scratch w) ->
    VideoGenerator.generate rt opts w = (Ok v, w') ->
    exists args fs before after,
      VideoGenerator.trace w'
      = (VideoGenerator.trace w ++ before
           ++ VideoGenerator.RunEncoder args fs :: after)%list
      /\ forall name data,
           VideoGenerator.lookup name fs = Some (VideoGenerator.FileNode data) ->
           name = "frames.txt"
           \/ (exists i,
                  i < List.length (VideoGenerator.scenes opts)
                  /\ name = VideoGenerator.frameName i)
           \/ VideoGenerator.audio_path opts = Some name.
Proof.
  intros rt opts w w' v Htidy H.
  apply generate_ok_detail in H.
  destruct H as (images & fs & ratios & fs_out & before & after
                 & Hall & Hfs & Ht & _).
  exists (VideoGenerator.encoder_args (VideoGenerator.audio_path opts)),
    fs, before, after.
  split; [exact Ht|]. intros name data Hl. cbv zeta in Hfs.
  assert (Hcore : forall node,
             VideoGenerator.lookup name
               (VideoGenerator.store "frames.txt"
                  (JS.encode
                     (JS.join VideoGenerator.newline
                        (VideoGenerator.manifest_of
                           (VideoGenerator.frame_lines
                              (VideoGenerator.scenes opts) 0)
                           (List.length (VideoGenerator.scenes opts)))))
                  (VideoGenerator.store_frames images 0
                     (VideoGenerator.purge
                        (filter
                           (fun file => negb (String.eqb file ".")
                                        && negb (String.eqb file ".."))
                           (VideoGenerator.fs_readdir (VideoGenerator.scratch w)))
                        (VideoGenerator.scratch w))))
             = Some node ->
             node = VideoGenerator.FileNode data ->
             name = "frames.txt"
             \/ (exists i,
                    i < List.length (VideoGenerator.scenes opts)
                    /\ name = VideoGenerator.frameName i)).
  { intros node Hn ->.
    apply lookup_store_inv in Hn. destruct Hn as [[-> _]|Hn]; [now left|].
    apply store_frames_lookup_inv in Hn. destruct Hn as [(j & Hj & ->)|Hn].
    - right. exists j. split; [|reflexivity].
      now rewrite (Forall2_same_length _ _ _ Hall).
    - exfalso. eapply purge_leaves_no_file; [exact Htidy | exact Hn]. }
  rewrite Hfs in Hl. unfold VideoGenerator.audio_path.
  destruct (VideoGenerator.audioFile opts) as [audio|].
  - apply lookup_store_inv in Hl. destruct Hl as [[-> _]|Hl].
    + right. right. reflexivity.
    + destruct (Hcore _ Hl eq_refl) as [Hc|Hc]; [now left | right; now left].
  - destruct (Hcore _ Hl eq_refl) as [Hc|Hc]; [now left | right; now left].
Qed.

(** X19. The video [generate] returns is the file the encoder left as
    [output.mp4]: its bytes are those of that scratch file, its type is
    [video/mp4], its name is the name asked for or else
    [ai-video-<Date.now()>.mp4], and its URL is the object URL of the same
    bytes.  Progress then stands at 100 and the busy flag is down. *)
Theorem returned_video_is_encoder_output :
  forall (rt : VideoGenerator.Runtime) (opts : VideoGenerator.GenerateOptions)
         (w w' : VideoGenerator.World) (v : VideoGenerator.GeneratedVideo),
    VideoGenerator.generate rt opts w = (Ok v, w') ->
    VideoGenerator.lookup "output.mp4" (VideoGenerator.scratch w')
    = Some (VideoGenerator.FileNode
              (VideoGenerator.file_data (VideoGenerator.file v)))
    /\ VideoGenerator.file_type (VideoGenerator.file v) = "video/mp4"
    /\ VideoGenerator.file_name (VideoGenerator.file v)
       = VideoGenerator.fileName v
    /\ VideoGenerator.fileName v
       = match VideoGenerator.outputName opts with
         | Some n => n
         | None =>
             "ai-video-" ++ JS.string_of_Z (VideoGenerator.now rt) ++ ".mp4"
         end
    /\ VideoGenerator.url v
       = VideoGenerator.createObjectURL rt
           (VideoGenerator.file_data (VideoGenerator.file v))
    /\ VideoGenerator.progress w' = 100%Q
    /\ VideoGenerator.isBusy w' = false.
Proof.
  intros rt opts w w' v H.
  apply generate_ok_detail in H.
  destruct H as (images & fs & ratios & fs_out & before & after
                 & _ & _ & _ & _ & Hs & Hout & Hv & Hp & Hb).
  rewrite Hs. split; [exact Hout|].
  destruct v as [u fn [fname ftype fdata]]. cbn in *.
  injection Hv as Hu Hfn Hname Htype.
  repeat split; try assumption; congruence.
Qed.

Lemma encoder_input_has_no_stale_file_witness :
  exists args fs before after,
    VideoGenerator.trace
      (snd (VideoGenerator.generate Demo.rt (Demo.options Demo.two_scenes)
              Samples.rendered_once))
    = (VideoGenerator.trace Samples.rendered_once ++ before
         ++ VideoGenerator.RunEncoder args fs :: after)%list
    /\ VideoGenerator.lookup "output.mp4"
         (VideoGenerator.scratch Samples.rendered_once)
       = Some (VideoGenerator.FileNode [Byte.x01])
    /\ forall data,
         VideoGenerator.lookup "output.mp4" fs
         <> Some (VideoGenerator.FileNode data).
Proof.
  destruct (VideoGenerator.generate Demo.rt (Demo.options Demo.two_scenes)
              Samples.rendered_once) as [[v|e] w'] eqn:E;
    [|vm_compute in E; discriminate].
  assert (Htidy : VideoGenerator.tidy
                    (VideoGenerator.scratch Samples.rendered_once)).
  { unfold VideoGenerator.tidy.
    let l := eval vm_compute in
               (map fst (VideoGenerator.scratch Samples.rendered_once)) in
    change (map fst (VideoGenerator.scratch Samples.rendered_once)) with l.
    split; [|split].
    - repeat constructor; cbn; intuition discriminate.
    - cbn; intuition discriminate.
    - cbn; intuition discriminate. }
  destruct (encoder_input_has_no_stale_file Demo.rt
              (Demo.options Demo.two_scenes) Samples.rendered_once w' v
              Htidy E) as (args & fs & before & after & Ht & Hfiles).
  exists args, fs, before, after. split; [exact Ht|]. split; [reflexivity|].
  intros data Hl. apply Hfiles in Hl.
  destruct Hl as [Hl|[(i & Hi & Hl)|Hl]]; discriminate.
Defined.

Lemma returned_video_is_encoder_output_witness :
  VideoGenerator.fileName
    (match fst (VideoGenerator.generate Demo.rt (Demo.options Demo.two_scenes)
                  Demo.ready) with
     | Ok v => v
     | Err _ => VideoGenerator.mkGeneratedVideo "" ""
                  (VideoGenerator.mkFile "" "" [])
     end)
  = "ai-video-1700000000000.mp4".
Proof.
  destruct (VideoGenerator.generate Demo.rt (Demo.options Demo.two_scenes)
              Demo.ready) as [[v|e] w'] eqn:E; [|vm_compute in E; discriminate].
  destruct (returned_video_is_encoder_output Demo.rt
              (Demo.options Demo.two_scenes) Demo.ready w' v E)
    as (_ & _ & _ & Hn & _).
  exact Hn.
Defined.

(* ------------------------------------------------------------------------- *)
(** ** The handler of the page *)
(* ------------------------------------------------------------------------- *)

Section HandlerFacts.

Import VideoGenerator.

Variable rt : Runtime.
Variable opts : GenerateOptions.

Lemma extends_refl w : extends w w.
Proof. exists []. now rewrite app_nil_r. Qed.

Lemma extends_trans a b c : extends a b -> extends b c -> extends a c.
Proof.
  intros (e1 & H1) (e2 & H2). exists (e1 ++ e2)%list.
  now rewrite H2, H1, app_assoc.
Qed.

Lemma only_reports_extends w w' : only_reports w w' -> extends w w'.
Proof. intros (evs & H & _). now exists evs. Qed.

Lemma with_files_extends {A} (f : FileSystem -> Result (A * FileSystem)) :
  keeps extends (with_files f).
Proof. intros w r w' H. eapply only_reports_extends, with_files_reports, H. Qed.

Lemma notify_extends p : keeps extends (notify opts p).
Proof. intros w r w' H. eapply only_reports_extends, notify_reports, H. Qed.

Lemma run_extends args : keeps extends (run rt args).
Proof.
  intros w r w' H. apply run_any in H. destruct H as [H|H].
  - exists []. now rewrite app_nil_r.
  - eexists. exact H.
Qed.

Lemma render_frames_extends total todo index acc :
  keeps extends (render_frames rt opts total todo index acc).
Proof.
  intros w r w' H. apply render_frames_any in H.
  destruct H as (evs & H & _). now exists evs.
Qed.

(** What follows the loop of the frames in [generate_body]. *)
Lemma after_frames_extends name body :
  keeps extends
    (let fileListLines := manifest_of body (List.length (scenes opts)) in
     bind (FS_writeFile "frames.txt" (JS.encode (JS.join newline fileListLines)))
       (fun _ =>
     bind (match audioFile opts with
           | Some audio =>
               FS_writeFile ("audio" ++ getExtension (file_name audio))
                            (file_data audio)
           | None => ret tt
           end) (fun _ =>
     bind (match audioFile opts with
           | Some audio =>
               run rt (encoder_args
                         (Some ("audio" ++ getExtension (file_name audio))))
           | None => run rt (encoder_args None)
           end) (fun _ =>
     bind (FS_readFile "output.mp4") (fun data =>
       let file := {| file_name := name; file_type := "video/mp4";
                      file_data := data |} in
       let objectUrl := createObjectURL rt data in
       bind (notify opts 100%Q) (fun _ =>
       bind (update (setProgress 100%Q)) (fun _ =>
       ret {| url := objectUrl; fileName := name; file := file |}))))))).
Proof.
  cbv zeta.
  apply keeps_bind; [apply extends_trans | apply with_files_extends | intros _].
  apply keeps_bind; [apply extends_trans | | intros _].
  { destruct (audioFile opts);
      [apply with_files_extends | apply keeps_ret, extends_refl]. }
  apply keeps_bind; [apply extends_trans | | intros _].
  { destruct (audioFile opts); apply run_extends. }
  intros w r w' H. eapply only_reports_extends, after_run_reports, H.
Qed.

Lemma bind_bind {A B C} (m : M A) (k1 : A -> M B) (k2 : B -> M C) w :
  bind (bind m k1) k2 w = bind m (fun a => bind (k1 a) k2) w.
Proof. unfold bind. now destruct (m w) as [[a|e] w1]. Qed.

Lemma bind_render {B} scene (k : list Byte.byte -> M B) w :
  bind (render rt scene) k w
  = match Video.renderSceneToFrame (canvas_env rt) scene Video.no_options with
    | Ok img => k img (log (RenderFrame scene) w)
    | Err e => (Err e, log (RenderFrame scene) w)
    end.
Proof.
  unfold bind, render.
  now destruct (Video.renderSceneToFrame (canvas_env rt) scene Video.no_options).
Qed.

Lemma unlink_all_returns todo w : fst (unlink_all todo w) = Ok tt.
Proof.
  revert w. induction todo as [|file todo IH]; intros w; [reflexivity|].
  cbn [unlink_all]. unfold bind, ignoring.
  destruct (FS_unlink ("/" ++ file) w) as [r1 w1]. apply IH.
Qed.

(** On a loaded encoder, a call for at least one scene gets to render the
    first scene, before anything else is recorded. *)
Lemma generate_body_renders_first name w s0 rest :
  not_loaded w = false ->
  scenes opts = s0 :: rest ->
  exists evs,
    trace (snd (generate_body rt opts name w))
    = (trace w ++ RenderFrame s0 :: evs)%list.
Proof.
  intros Hl Hs. unfold generate_body.
  unfold bind at 1.
  destruct (FS_readdir w) as [[existing|e] w1] eqn:E1.
  2:{ exfalso. unfold FS_readdir, with_files, not_loaded in *.
      destruct (ffmpegRef w) as [inst|]; [|discriminate].
      apply negb_false_iff in Hl. rewrite Hl in E1. discriminate. }
  apply with_files_ok2 in E1. destruct E1 as (_ & fs1 & _ & Ht1 & _ & Hl1).
  unfold bind at 1.
  pose proof (unlink_all_returns
                (filter (fun file => negb (String.eqb file ".")
                                     && negb (String.eqb file "..")) existing)
                w1) as Hu.
  destruct (unlink_all _ w1) as [r2 w2] eqn:E2. cbn [fst] in Hu. subst r2.
  apply unlink_all_trace in E2.
  rewrite Hs. cbn [render_frames]. rewrite bind_bind, bind_render.
  destruct (Video.renderSceneToFrame (canvas_env rt) s0 Video.no_options)
    as [img|e].
  - match goal with
    | |- context [snd (?m (log (RenderFrame s0) w2))] =>
        destruct (m (log (RenderFrame s0) w2)) as [r3 w3] eqn:E3
    end.
    assert (H3 : extends (log (RenderFrame s0) w2) w3).
    { revert E3.
      apply (keeps_bind extends extends_trans).
      - apply (keeps_bind extends extends_trans);
          [apply with_files_extends | intros _].
        apply (keeps_bind extends extends_trans);
          [apply notify_extends | intros _].
        apply render_frames_extends.
      - intros body. rewrite <- Hs. apply after_frames_extends. }
    destruct H3 as (e3 & H3). exists e3. cbn [snd].
    rewrite H3. cbn [trace log]. rewrite E2, Ht1, <- !app_assoc.
    reflexivity.
  - exists []. cbn [snd trace log]. now rewrite E2, Ht1.
Qed.

End HandlerFacts.

(** X20. The button of the page cannot start a render before the encoder is
    ready, and a render it starts is never turned away.  While [isReady] is
    down [handleGenerateVideo] does nothing.  In a state the hook can reach
    with [isReady] up, a call for at least one scene gets as far as rendering
    the first scene, and the video of the page changes only when the call
    returns one. *)
Theorem video_handler_waits_for_encoder :
  forall (rt : VideoGenerator.Runtime) (page : HomePage.Page),
    (VideoGenerator.isReady (HomePage.hook page) = false ->
     HomePage.handleGenerateVideo rt page = (None, page))
    /\ (VideoGenerator.reachable rt (HomePage.hook page) ->
        VideoGenerator.isReady (HomePage.hook page) = true ->
        forall s0 rest,
          HomePage.scenes page = s0 :: rest ->
          let after := snd (HomePage.handleGenerateVideo rt page) in
          (exists evs,
              VideoGenerator.trace (HomePage.hook after)
              = (VideoGenerator.trace (HomePage.hook page)
                   ++ VideoGenerator.RenderFrame s0 :: evs)%list)
          /\ (HomePage.video after = HomePage.video page
              \/ exists v,
                   HomePage.video after = Some v
                   /\ fst (HomePage.handleGenerateVideo rt page)
                      = Some (Ok tt))).
Proof.
  intros rt page. split.
  - intros H. unfold HomePage.handleGenerateVideo. now rewrite H.
  - intros Hreach Hready s0 rest Hs after. subst after.
    pose proof (ready_means_loaded_aux rt _ Hreach Hready) as Hl.
    unfold HomePage.handleGenerateVideo. rewrite Hready.
    set (opts := {| VideoGenerator.scenes := HomePage.scenes page;
                    VideoGenerator.onProgress := None;
                    VideoGenerator.audioFile := HomePage.audioFile page;
                    VideoGenerator.outputName := None |}).
    assert (Ht : exists evs,
               VideoGenerator.trace
                 (snd (VideoGenerator.generate rt opts (HomePage.hook page)))
               = (VideoGenerator.trace (HomePage.hook page)
                    ++ VideoGenerator.RenderFrame s0 :: evs)%list).
    { unfold VideoGenerator.generate.
      unfold VideoGenerator.not_loaded in Hl.
      destruct (VideoGenerator.ffmpegRef (HomePage.hook page)) as [inst|] eqn:Hr;
        [|discriminate].
      change (VideoGenerator.scenes opts) with (HomePage.scenes page).
      rewrite Hs.
      unfold VideoGenerator.bind at 1. cbn [VideoGenerator.update].
      unfold VideoGenerator.bind at 1. cbn [VideoGenerator.update].
      unfold VideoGenerator.bind at 1. unfold VideoGenerator.notify.
      change (VideoGenerator.onProgress opts)
        with (@None VideoGenerator.ProgressListener).
      cbv iota. cbn [VideoGenerator.ret].
      unfold VideoGenerator.finally.
      match goal with
      | |- context [VideoGenerator.generate_body rt opts ?n ?w0] =>
          destruct (generate_body_renders_first rt opts n w0 s0 rest)
            as (evs & He);
            [unfold VideoGenerator.not_loaded; cbn; now rewrite Hr
            | exact Hs |];
          destruct (VideoGenerator.generate_body rt opts n w0) as [r w1]
      end.
      cbn [snd] in *. exists evs. exact He. }
    destruct (VideoGenerator.generate rt opts (HomePage.hook page))
      as [[v|e] w'] eqn:E; cbn [snd fst HomePage.hook HomePage.video] in *.
    + split; [exact Ht|]. right. now exists v.
    + split; [exact Ht|]. now left.
Qed.

Lemma hook_ready_reachable : VideoGenerator.reachable Demo.rt Demo.ready.
Proof.
  apply (VideoGenerator.reach_load_settle Demo.rt Demo.loading);
    [|discriminate | reflexivity].
  apply (VideoGenerator.reach_load_begin Demo.rt VideoGenerator.mounted);
    [apply VideoGenerator.reach_mounted | reflexivity].
Qed.

Lemma video_handler_waits_for_encoder_witness :
  HomePage.handleGenerateVideo Demo.rt Samples.loading_page
  = (None, Samples.loading_page)
  /\ exists evs,
       VideoGenerator.trace
         (HomePage.hook
            (snd (HomePage.handleGenerateVideo Demo.rt Samples.ready_page)))
       = VideoGenerator.RenderFrame (Demo.scene 4 (gradient "nonsense") None)
           :: evs.
Proof.
  split.
  - apply (video_handler_waits_for_encoder Demo.rt Samples.loading_page).
    reflexivity.
  - destruct (proj2 (video_handler_waits_for_encoder Demo.rt Samples.ready_page)
                hook_ready_reachable eq_refl _ _ eq_refl) as [(evs & H) _].
    exists evs. exact H.
Defined.

(* ------------------------------------------------------------------------- *)
(** ** File extensions and file names *)
(* ------------------------------------------------------------------------- *)

Section ExtensionFacts.

Lemma all_chars_app p a b :
  JS.all_chars p (a ++ b) = JS.all_chars p a && JS.all_chars p b.
Proof.
  induction a as [|c a IH]; [reflexivity|]. cbn. now rewrite IH, andb_assoc.
Qed.

(** A name that ends with a dot and alphanumeric characters has them as its
    extension, whatever comes before. *)
Lemma match_extension_suffix e :
  e <> "" -> JS.all_chars JS.is_alnum e = true ->
  forall base, JS.match_extension (base ++ "." ++ e) = Some ("." ++ e).
Proof.
  intros Hne Hal base. induction base as [|c base IH].
  - cbn. rewrite Hal. now destruct e.
  - cbn [append JS.match_extension].
    rewrite all_chars_app. cbn [append JS.all_chars].
    change (JS.is_alnum ".") with false.
    now rewrite andb_false_r, andb_false_r.
Qed.

(** What [match_extension] finds is a suffix of the name, made of a dot and
    at least one alphanumeric character. *)
Lemma match_extension_some s m :
  JS.match_extension s = Some m ->
  exists base e,
    s = base ++ m /\ m = "." ++ e /\ e <> ""
    /\ JS.all_chars JS.is_alnum e = true.
Proof.
  induction s as [|c r IH]; [discriminate|]. cbn [JS.match_extension].
  destruct (Ascii.eqb c "." && JS.truthy r && JS.all_chars JS.is_alnum r) eqn:E.
  - intros [= <-]. apply andb_true_iff in E. destruct E as [E Hal].
    apply andb_true_iff in E. destruct E as [Hc Ht].
    apply Ascii.eqb_eq in Hc. subst c.
    exists "", r. repeat split; [|exact Hal]. now destruct r.
  - intros H. destruct (IH H) as (base & e & -> & Hm & He & Hal).
    exists (String c base), e. now repeat split.
Qed.

End ExtensionFacts.

(** X21. The extension of a file name.  A name that ends with a dot followed
    by letters and digits has that ending as its extension for both the
    audio track ([getExtension]) and the upload ([extractExtension]),
    whatever precedes the dot; a name without a dot gets [.mp3] and [.mp4];
    and what either function returns is always a dot followed by at least
    one letter or digit. *)
Theorem extension_of_name :
  (forall base e,
      e <> "" -> JS.all_chars JS.is_alnum e = true ->
      VideoGenerator.getExtension (base ++ "." ++ e) = "." ++ e
      /\ UploadRoute.extractExtension (base ++ "." ++ e) = "." ++ e)
  /\ (forall name,
         JS.all_chars (fun c => negb (Ascii.eqb c ".")) name = true ->
         VideoGenerator.getExtension name = ".mp3"
         /\ UploadRoute.extractExtension name = ".mp4")
  /\ (forall name,
         exists e e',
           VideoGenerator.getExtension name = "." ++ e
           /\ UploadRoute.extractExtension name = "." ++ e'
           /\ e <> "" /\ e' <> ""
           /\ JS.all_chars JS.is_alnum e = true
           /\ JS.all_chars JS.is_alnum e' = true).
Proof.
  split; [|split].
  - intros base e Hne Hal.
    unfold VideoGenerator.getExtension, UploadRoute.extractExtension.
    now rewrite match_extension_suffix.
  - intros name Hnd.
    unfold VideoGenerator.getExtension, UploadRoute.extractExtension.
    destruct (JS.match_extension name) as [m|] eqn:E; [|now split].
    exfalso. apply match_extension_some in E.
    destruct E as (base & e & -> & -> & _).
    rewrite all_chars_app in Hnd. cbn in Hnd.
    now rewrite andb_false_r in Hnd.
  - intros name.
    unfold VideoGenerator.getExtension, UploadRoute.extractExtension.
    destruct (JS.match_extension name) as [m|] eqn:E.
    + apply match_extension_some in E.
      destruct E as (base & e & _ & -> & He & Hal).
      exists e, e. now repeat split.
    + exists "mp3", "mp4". repeat split; discriminate.
Qed.

Lemma extension_of_name_witness :
  VideoGenerator.getExtension "my.voice over.WAV" = ".WAV"
  /\ VideoGenerator.getExtension "voiceover" = ".mp3".
Proof.
  destruct extension_of_name as (Hsuffix & Hnone & _). split.
  - apply (Hsuffix "my.voice over" "WAV"); [discriminate | reflexivity].
  - apply Hnone. reflexivity.
Defined.

Section SanitizeFacts.

Ltac by_cases_on c :=
  destruct c as [[|] [|] [|] [|] [|] [|] [|] [|]]; try reflexivity;
  try discriminate.










Lemma high_not_alnum c :
  (nat_of_ascii c <? 128)%nat = false -> JS.is_alnum c = false.
Proof. by_cases_on c. Qed.







Lemma replace_units_safe s : forall inside,
  JS.all_chars JS.is_name_char (JS.replace_units inside s) = true.
Proof.
  induction s as [|c r IH]; intros inside; [reflexivity|].
  cbn [JS.replace_units]. cbv zeta.
  destruct (nat_of_ascii c <? 128)%nat.
  - cbn [JS.all_chars]. rewrite IH.
    now destruct (JS.is_name_char c) eqn:E; [rewrite E|].
  - destruct (nat_of_ascii c <? 192)%nat.
    + destruct inside; [apply IH|]. cbn [JS.all_chars]. now rewrite IH.
    + destruct (nat_of_ascii c <? 240)%nat; cbn [JS.all_chars];
        now rewrite IH.
Qed.




Lemma collapse_cons c r :
  JS.collapse_dashes (String c r)
  = if Ascii.eqb c "-" then
      match r with
      | String c' _ =>
          if Ascii.eqb c' "-" then JS.collapse_dashes r
          else String c (JS.collapse_dashes r)
      | EmptyString => String c EmptyString
      end
    else String c (JS.collapse_dashes r).
Proof. reflexivity. Qed.

Lemma collapse_safe p s :
  JS.all_chars p s = true -> JS.all_chars p (JS.collapse_dashes s) = true.
Proof.
  induction s as [|c r IH]; [reflexivity|]. rewrite collapse_cons. cbn [JS.all_chars].
  intros H. apply andb_true_iff in H. destruct H as [Hc Hr].
  specialize (IH Hr).
  destruct (Ascii.eqb c "-").
  - destruct r as [|c' r']; [cbn; now rewrite Hc|].
    destruct (Ascii.eqb c' "-"); [exact IH|].
    cbn [JS.all_chars]. now rewrite Hc, IH.
  - cbn [JS.all_chars]. now rewrite Hc, IH.
Qed.

(** The first character of a string survives [collapse_dashes]. *)
Lemma collapse_head c r :
  exists r', JS.collapse_dashes (String c r) = String c r'.
Proof.
  revert c. induction r as [|c' r IH]; intros c.
  - cbn. destruct (Ascii.eqb c "-"); now eexists.
  - rewrite collapse_cons.
    destruct (Ascii.eqb c "-") eqn:Ec; [|now eexists].
    destruct (Ascii.eqb c' "-") eqn:Ec'; [|now eexists].
    apply Ascii.eqb_eq in Ec, Ec'. subst c c'. exact (IH "-"%char).
Qed.

Lemma no_double_dash_cons c c' t :
  JS.no_double_dash (String c (String c' t))
  = negb (Ascii.eqb c "-" && Ascii.eqb c' "-")
    && JS.no_double_dash (String c' t).
Proof. reflexivity. Qed.

Lemma collapse_no_double_dash s : JS.no_double_dash (JS.collapse_dashes s) = true.
Proof.
  induction s as [|c r IH]; [reflexivity|]. rewrite collapse_cons.
  destruct r as [|c' r'].
  - destruct (Ascii.eqb c "-"); reflexivity.
  - destruct (collapse_head c' r') as (t & Ht). rewrite Ht in IH |- *.
    destruct (Ascii.eqb c "-") eqn:Ec.
    + destruct (Ascii.eqb c' "-") eqn:Ec'; [exact IH|].
      now rewrite no_double_dash_cons, Ec, Ec', IH.
    + now rewrite no_double_dash_cons, Ec, IH.
Qed.












End SanitizeFacts.

Section UploadFacts.

Lemma match_extension_dash s :
  JS.match_extension (String "-" s) = JS.match_extension s.
Proof. reflexivity. Qed.



Lemma string_of_uint_safe d :
  JS.all_chars JS.is_name_char (NilZero.string_of_uint d) = true.
Proof.
  assert (H : forall u, JS.all_chars JS.is_name_char
                          (NilEmpty.string_of_uint u) = true)
    by (induction u; cbn; try reflexivity; assumption).
  destruct d; try reflexivity; apply H.
Qed.

(** The decimal writing of an integer has digits and a dash only. *)
Lemma string_of_Z_safe z :
  JS.all_chars JS.is_name_char (JS.string_of_Z z) = true.
Proof.
  unfold JS.string_of_Z, NilZero.string_of_int.
  destruct (Z.to_int z); [apply string_of_uint_safe|].
  cbn. apply string_of_uint_safe.
Qed.

Lemma sanitized_name_chars name :
  JS.all_chars JS.is_name_char (UploadRoute.sanitizeFileName name) = true
  /\ JS.no_double_dash (UploadRoute.sanitizeFileName name) = true.
Proof.
  unfold UploadRoute.sanitizeFileName. split.
  - apply collapse_safe, replace_units_safe.
  - apply collapse_no_double_dash.
Qed.

End UploadFacts.





(** X24. The upload route calls [put] at most once, and only for a form
    whose [file] entry is a file.  The path it asks for is [videos/] followed
    by characters among lower-case letters, digits, dots and dashes only, so
    that neither the clock nor the name of the file can add a directory to
    it; the access is public and the content type is never empty.  The
    answer is 200 exactly when [put] returned a blob, and carries the URL of
    that blob and the extension of the name of the file; it is 400 exactly
    when the form was read and has no file, and 500 otherwise. *)
Theorem upload_route_outcome :
  forall (p : UploadRoute.Platform) (formData : Result UploadRoute.FormEntry),
    let response := fst (UploadRoute.POST p formData) in
    let calls := snd (UploadRoute.POST p formData) in
    List.length calls <= 1
    /\ (forall call, In call calls ->
          formData = Ok (UploadRoute.FileEntry (UploadRoute.put_body call))
          /\ (exists rest,
                UploadRoute.put_pathname call = "videos/" ++ rest
                /\ JS.all_chars JS.is_name_char rest = true)
          /\ UploadRoute.put_access call = "public"
          /\ UploadRoute.put_contentType call <> "")
    /\ (UploadRoute.status response = 200 <->
          exists call blob,
            calls = [call] /\ UploadRoute.put p call = Ok blob)
    /\ (forall call blob,
          calls = [call] -> UploadRoute.put p call = Ok blob ->
          exists path,
            UploadRoute.body response
            = UploadRoute.UploadedBody (UploadRoute.blob_url blob) path
                (UploadRoute.extractExtension
                   (VideoGenerator.file_name (UploadRoute.put_body call))))
    /\ (UploadRoute.status response = 400 <->
          calls = [] /\ exists entry, formData = Ok entry)
    /\ (UploadRoute.status response = 200
         \/ UploadRoute.status response = 400
         \/ UploadRoute.status response = 500).
Proof.
  intros p [[| value | file] | e]; cbn zeta.
  1, 2, 4:
    cbn; repeat split; try lia; try discriminate; try tauto;
    try (now intros (call & blob & H & _));
    try (now intros call blob H);
    try (now intros [_ [entry H]]);
    try (eexists; reflexivity).
  unfold UploadRoute.POST.
  set (pathname := "videos/" ++ JS.string_of_Z (UploadRoute.now p) ++ "-"
         ++ UploadRoute.sanitizeFileName (VideoGenerator.file_name file)).
  set (call0 := UploadRoute.mkPutCall pathname file "public" _).
  assert (Hcall :
    forall call, In call [call0] ->
      Ok (UploadRoute.FileEntry file)
      = Ok (UploadRoute.FileEntry (UploadRoute.put_body call))
      /\ (exists rest,
            UploadRoute.put_pathname call = "videos/" ++ rest
            /\ JS.all_chars JS.is_name_char rest = true)
      /\ UploadRoute.put_access call = "public"
      /\ UploadRoute.put_contentType call <> "").
  { intros call [<- | []]. split; [reflexivity|]. split; [|split].
    - eexists. split; [reflexivity|].
      rewrite !all_chars_app, string_of_Z_safe.
      now rewrite (proj1 (sanitized_name_chars _)).
    - reflexivity.
    - cbn. now destruct (VideoGenerator.file_type file). }
  destruct (UploadRoute.put p call0) as [blob | err] eqn:Hput; cbn.
  - split; [lia|]. split; [exact Hcall|]. split; [|split; [|split]].
    + split; [|reflexivity]. intros _. now exists call0, blob.
    + intros call blob' [= <-] Hb. rewrite Hput in Hb. injection Hb as <-.
      eexists; reflexivity.
    + split; [discriminate|]. now intros [H _].
    + now left.
  - split; [lia|]. split; [exact Hcall|]. split; [|split; [|split]].
    + split; [discriminate|]. intros (call & blob & [= <-] & Hb).
      rewrite Hput in Hb. discriminate.
    + intros call blob [= <-] Hb. rewrite Hput in Hb. discriminate.
    + split; [discriminate|]. now intros [H _].
    + now right; right.
Qed.

Lemma upload_route_outcome_witness :
  let call :=
    nth 0 (snd (UploadRoute.POST Samples.blobs
                  (Ok (UploadRoute.FileEntry Samples.upload_file))))
        (UploadRoute.mkPutCall "" Samples.upload_file "" "") in
  UploadRoute.put_pathname call = "videos/1700000000000-..-my-reel-final-.mp4"
  /\ UploadRoute.put_access call = "public"
  /\ UploadRoute.put_contentType call <> "".
Proof.
  intros call.
  destruct (proj1 (proj2 (upload_route_outcome Samples.blobs
                            (Ok (UploadRoute.FileEntry Samples.upload_file))))
                  call) as (_ & _ & Ha & Ht); [left; reflexivity|].
  split; [reflexivity|]. split; [exact Ha | exact Ht].
Defined.

(* ------------------------------------------------------------------------- *)
(** ** The page: briefs and edits *)
(* ------------------------------------------------------------------------- *)

Section PageFacts.

Lemma or_else_not_empty a b : b <> "" -> JS.or_else a b <> "".
Proof. unfold JS.or_else. destruct a; [easy | discriminate]. Qed.

Lemma or_else_trim a b :
  JS.trim b = b -> JS.trim (JS.or_else (JS.trim a) b) = JS.or_else (JS.trim a) b.
Proof.
  intros Hb. unfold JS.or_else.
  destruct (JS.truthy (JS.trim a)); [apply trim_idem | exact Hb].
Qed.

Lemma updateScene_length sceneId updates scenes :
  List.length (HomePage.updateScene sceneId updates scenes)
  = List.length scenes.
Proof. apply length_map. Qed.

Lemma updateScene_nth sceneId updates scenes i :
  nth_error (HomePage.updateScene sceneId updates scenes) i
  = option_map
      (fun scene =>
         if String.eqb (id scene) sceneId
         then HomePage.merge scene updates else scene)
      (nth_error scenes i).
Proof. apply nth_error_map. Qed.

Lemma merge_keeps_id scene updates :
  HomePage.upd_id updates = None ->
  id (HomePage.merge scene updates) = id scene.
Proof. intros H. cbn. now rewrite H. Qed.

Lemma merge_twice scene updates :
  HomePage.merge (HomePage.merge scene updates) updates
  = HomePage.merge scene updates.
Proof.
  destruct updates as [[i|] [t|] [na|] [sp|] [d|] [b|] [o|] [c|]];
    reflexivity.
Qed.




End PageFacts.

(** X25. The storyboard the page makes of a brief opens on the trimmed idea
    and closes on the trimmed call to action, or on those of the default
    brief when the fields hold nothing but white space: the title of the
    first scene is never empty and has no white space around it, and the
    [cta] of the last scene is never empty and has no white space around
    it. *)
Theorem page_storyboard_title_and_cta :
  forall (src : Storyboard.RandomSource) (uuid : string) (brief : StoryBrief.t)
         (n : nat) (first last : Scene),
    let scenes := fst (HomePage.regenerateStoryboard src uuid brief n) in
    let label :=
      JS.or_else (JS.trim (StoryBrief.callToAction brief))
                 (StoryBrief.callToAction HomePage.defaultBrief) in
    hd_error scenes = Some first ->
    nth_error scenes (List.length scenes - 1) = Some last ->
    title first
    = JS.or_else (JS.trim (StoryBrief.idea brief))
                 (StoryBrief.idea HomePage.defaultBrief)
    /\ title first <> ""
    /\ JS.trim (title first) = title first
    /\ cta last = Some label
    /\ label <> ""
    /\ JS.trim label = label.
Proof.
  intros src uuid brief n first last scenes label Hfirst Hlast.
  destruct (first_and_last src uuid (HomePage.trimmedBrief brief) n)
    as [Ht Hc].
  change (fst (Storyboard.generateStoryboard src uuid
                 (HomePage.trimmedBrief brief) n)) with scenes in Ht, Hc.
  rewrite Hfirst in Ht. rewrite Hlast in Hc. cbn [option_map] in Ht, Hc.
  injection Ht as Ht. injection Hc as Hc.
  cbn [HomePage.trimmedBrief StoryBrief.idea StoryBrief.callToAction] in Ht, Hc.
  assert (Hidea : JS.or_else (JS.trim (StoryBrief.idea brief))
                    (StoryBrief.idea HomePage.defaultBrief) <> "")
    by (apply or_else_not_empty; discriminate).
  assert (Hlabel : label <> "") by (apply or_else_not_empty; discriminate).
  rewrite or_else_truthy in Ht by exact Hidea.
  split; [exact Ht|]. split; [now rewrite Ht|].
  split; [rewrite Ht; now apply or_else_trim|].
  split; [exact Hc|]. split; [exact Hlabel|].
  now apply or_else_trim.
Qed.

Lemma page_storyboard_title_and_cta_witness :
  let dflt := Demo.scene 1 (color "") None in
  title (nth 0 Samples.blank_storyboard dflt)
  = "AI-Powered Instagram Automation Launch"
  /\ cta (nth 2 Samples.blank_storyboard dflt)
     = Some "Start your automation sprint today".
Proof.
  intros dflt.
  destruct (page_storyboard_title_and_cta Demo.source "1a2b3c4d-5e6f"
              Samples.blank_brief 0 (nth 0 Samples.blank_storyboard dflt)
              (nth 2 Samples.blank_storyboard dflt) eq_refl eq_refl)
    as (Ht & _ & _ & Hc & _).
  split; [exact Ht | exact Hc].
Defined.

(** X26. An edit of a scene keeps the number and the order of the scenes,
    leaves every scene with another id as it is, and done twice is done
    once; when the edit does not set [id], the ids stay as they are. *)
Theorem updateScene_touches_only_target :
  forall (sceneId : string) (updates : HomePage.SceneUpdates)
         (scenes : list Scene),
    let edited := HomePage.updateScene sceneId updates scenes in
    List.length edited = List.length scenes
    /\ (forall i scene,
          nth_error scenes i = Some scene -> id scene <> sceneId ->
          nth_error edited i = Some scene)
    /\ (forall i scene,
          nth_error scenes i = Some scene -> id scene = sceneId ->
          nth_error edited i = Some (HomePage.merge scene updates))
    /\ (HomePage.upd_id updates = None -> map id edited = map id scenes)
    /\ HomePage.updateScene sceneId updates edited = edited.
Proof.
  intros sceneId updates scenes edited. subst edited.
  split; [apply updateScene_length|]. split; [|split; [|split]].
  - intros i scene H Hid. rewrite updateScene_nth, H. cbn.
    apply String.eqb_neq in Hid. now rewrite Hid.
  - intros i scene H Hid. rewrite updateScene_nth, H. cbn.
    apply String.eqb_eq in Hid. now rewrite Hid.
  - intros Hu. unfold HomePage.updateScene. rewrite map_map.
    apply map_ext. intros scene.
    destruct (String.eqb (id scene) sceneId); [|reflexivity].
    now apply merge_keeps_id.
  - unfold HomePage.updateScene. rewrite map_map. apply map_ext.
    intros scene. destruct (String.eqb (id scene) sceneId) eqn:E.
    + destruct (String.eqb (id (HomePage.merge scene updates)) sceneId);
        [apply merge_twice | reflexivity].
    + now rewrite E.
Qed.

Lemma updateScene_touches_only_target_witness :
  nth_error (HomePage.updateScene "demo-1" Samples.retitle Demo.two_scenes) 0
  = Some (Demo.scene 4 (gradient "nonsense") None)
  /\ map id (HomePage.updateScene "demo-0" Samples.retitle Demo.two_scenes)
     = map id Demo.two_scenes.
Proof.
  split.
  - apply (proj1 (proj2 (updateScene_touches_only_target "demo-1"
                           Samples.retitle Demo.two_scenes)) 0);
      [reflexivity | discriminate].
  - apply (proj1 (proj2 (proj2 (proj2
             (updateScene_touches_only_target "demo-0" Samples.retitle
                Demo.two_scenes))))).
    reflexivity.
Defined.



(* ------------------------------------------------------------------------- *)
(** ** The Instagram publish route *)
(* ------------------------------------------------------------------------- *)

Section PublishFacts.

Import PublishRoute.

Variable p : Platform.

Lemma get_app key (a b : Params) :
  get key (a ++ b)%list
  = match get key a with
    | Some v => Some v
    | None => get key b
    end.
Proof.
  induction a as [|[k v] a IH]; [reflexivity|]. cbn.
  destruct (String.eqb k key); [reflexivity | exact IH].
Qed.

Lemma get_push_if cond key k v params :
  get key (push_if cond k v params)
  = match get key params with
    | Some x => Some x
    | None => if cond && String.eqb k key then Some v else None
    end.
Proof.
  unfold push_if. destruct cond; cbn.
  - rewrite get_app. cbn. now destruct (String.eqb k key).
  - now destruct (get key params).
Qed.

(** The request [createMediaContainer] makes and what it returns. *)
Lemma createMediaContainer_spec payload :
  exists call,
    snd (createMediaContainer p payload) = [call]
    /\ is_create p call
    /\ call_method call = "POST"
    /\ get "access_token" (call_body call)
       = Some (text_of (INSTAGRAM_ACCESS_TOKEN (config p)))
    /\ get "video_url" (call_body call) = Some (text_of (videoUrl payload))
    /\ get "media_type" (call_body call) = Some "VIDEO"
    /\ get "caption" (call_body call)
       = (if present (caption payload) then caption payload else None)
    /\ get "cover_url" (call_body call)
       = (if present (coverUrl payload) then coverUrl payload else None)
    /\ get "share_to_feed" (call_body call)
       = (if shareToFeed payload then Some "true" else None)
    /\ (forall data,
          fst (createMediaContainer p payload) = Returned data
          <-> accepted p 0 call data)
    /\ (forall message details,
          fst (createMediaContainer p payload)
          = Raised (InstagramAPIError message details)
          <-> exists response,
                fetch p 0 call = Got response
                /\ ok response = false
                /\ json response = Got details
                /\ message = match error_message details with
                             | Some m => m
                             | None => "Failed to create media container"
                             end).
Proof.
  unfold createMediaContainer. eexists. split; [reflexivity|].
  cbn [fst snd call_url call_method call_body].
  split; [reflexivity|]. split; [reflexivity|].
  rewrite !get_push_if. cbn [get String.eqb Ascii.eqb Bool.eqb].
  rewrite ?andb_false_r, ?andb_true_r.
  split; [reflexivity|]. split; [reflexivity|]. split; [reflexivity|].
  split; [destruct (caption payload) as [[|c s]|]; reflexivity|].
  split; [destruct (coverUrl payload) as [[|c s]|]; reflexivity|].
  split; [destruct (shareToFeed payload); reflexivity|].
  match goal with |- context [fetch p 0 ?c] => set (call := c) end.
  unfold accepted.
  destruct (fetch p 0 call) as [response|m].
  - destruct (json response) as [data|m] eqn:Ej.
    + destruct (ok response) eqn:Eo; split; split.
      * intros [= <-]. exists response. now rewrite Ej.
      * intros (r & [= <-] & _ & Hj). rewrite Ej in Hj. now injection Hj as ->.
      * discriminate.
      * intros (r & [= <-] & Ho & _). congruence.
      * discriminate.
      * intros (r & [= <-] & Ho & _). congruence.
      * intros [= <- <-]. exists response. now rewrite Ej.
      * intros (r & [= <-] & _ & Hj & ->). rewrite Ej in Hj.
        now injection Hj as ->.
    + split; split; try discriminate.
      * intros (r & [= <-] & _ & Hj). congruence.
      * intros (r & [= <-] & _ & Hj & _). congruence.
  - split; split; try discriminate.
    + now intros (r & Hf & _).
    + now intros (r & Hf & _).
Qed.

(** The request [publishMedia] makes and what it returns. *)
Lemma publishMedia_spec creationId scheduled :
  exists call,
    snd (publishMedia p creationId scheduled) = [call]
    /\ is_publish p call
    /\ call_method call = "POST"
    /\ get "access_token" (call_body call)
       = Some (text_of (INSTAGRAM_ACCESS_TOKEN (config p)))
    /\ get "creation_id" (call_body call) = Some (text_of creationId)
    /\ get "scheduled_publish_time" (call_body call)
       = (if present scheduled then Some (timestamp p (text_of scheduled))
          else None)
    /\ get "published" (call_body call)
       = (if present scheduled then Some "false" else None)
    /\ (forall data,
          fst (publishMedia p creationId scheduled) = Returned data
          <-> accepted p 1 call data)
    /\ (forall message details,
          fst (publishMedia p creationId scheduled)
          = Raised (InstagramAPIError message details)
          <-> exists response,
                fetch p 1 call = Got response
                /\ ok response = false
                /\ json response = Got details
                /\ message = match error_message details with
                             | Some m => m
                             | None => "Failed to publish media"
                             end).
Proof.
  unfold publishMedia. eexists. split; [reflexivity|].
  cbn [fst snd call_url call_method call_body].
  split; [reflexivity|]. split; [reflexivity|].
  split; [destruct (present scheduled); reflexivity|].
  split; [destruct (present scheduled); reflexivity|].
  split; [destruct (present scheduled); reflexivity|].
  split; [destruct (present scheduled); reflexivity|].
  match goal with |- context [fetch p 1 ?c] => set (call := c) end.
  unfold accepted.
  destruct (fetch p 1 call) as [response|m].
  - destruct (json response) as [data|m] eqn:Ej.
    + destruct (ok response) eqn:Eo; split; split.
      * intros [= <-]. exists response. now rewrite Ej.
      * intros (r & [= <-] & _ & Hj). rewrite Ej in Hj. now injection Hj as ->.
      * discriminate.
      * intros (r & [= <-] & Ho & _). congruence.
      * discriminate.
      * intros (r & [= <-] & Ho & _). congruence.
      * intros [= <- <-]. exists response. now rewrite Ej.
      * intros (r & [= <-] & _ & Hj & ->). rewrite Ej in Hj.
        now injection Hj as ->.
    + split; split; try discriminate.
      * intros (r & [= <-] & _ & Hj). congruence.
      * intros (r & [= <-] & _ & Hj & _). congruence.
  - split; split; try discriminate.
    + now intros (r & Hf & _).
    + now intros (r & Hf & _).
Qed.

Lemma publish_unfold payload :
  publish p payload
  = match fst (createMediaContainer p payload) with
    | Raised e => (Raised e, snd (createMediaContainer p payload))
    | Returned creation =>
        let second :=
          publishMedia p (data_id creation) (scheduledPublishTime payload) in
        (match fst second with
         | Raised e => Raised e
         | Returned publication => published p creation publication
         end,
         (snd (createMediaContainer p payload) ++ snd second)%list)
    end.
Proof.
  unfold publish.
  destruct (createMediaContainer p payload) as [[creation|e] calls];
    [|reflexivity].
  cbn [fst snd].
  destruct (publishMedia p (data_id creation) (scheduledPublishTime payload))
    as [[publication|e] calls']; reflexivity.
Qed.

(** Past its guards, [POST] answers what [publish] returns, or what the
    [catch] block makes of what it raises. *)
Lemma POST_guarded payload :
  present (INSTAGRAM_USER_ID (config p)) = true ->
  present (INSTAGRAM_ACCESS_TOKEN (config p)) = true ->
  present (videoUrl payload) = true ->
  POST p (Got (Some payload))
  = (Returned match fst (publish p payload) with
              | Returned response => response
              | Raised e => recover e
              end,
     snd (publish p payload)).
Proof.
  intros Hu Ht Hv. unfold POST. rewrite Hu, Ht, Hv. cbn [negb orb].
  now destruct (publish p payload) as [[response|e] calls].
Qed.

(** When [POST] stops at a guard it makes no request. *)
Lemma POST_unguarded requestJson :
  (forall payload,
      requestJson = Got (Some payload) ->
      present (INSTAGRAM_USER_ID (config p)) = true ->
      present (INSTAGRAM_ACCESS_TOKEN (config p)) = true ->
      present (videoUrl payload) = true -> False) ->
  snd (POST p requestJson) = []
  /\ match fst (POST p requestJson) with
     | Returned response =>
         (status response = 400 \/ status response = 500)
         /\ exists message, body response = ErrorBody message None
     | Raised _ => requestJson = Got None
     end.
Proof.
  intros H. unfold POST.
  destruct (present (INSTAGRAM_USER_ID (config p))) eqn:Eu;
    [|cbn; split; [reflexivity | split; [now right | now eexists]]].
  destruct (present (INSTAGRAM_ACCESS_TOKEN (config p))) eqn:Et;
    [|cbn; split; [reflexivity | split; [now right | now eexists]]].
  cbn [negb orb].
  destruct requestJson as [[payload|]|m].
  - destruct (present (videoUrl payload)) eqn:Ev.
    + exfalso. now apply (H payload).
    + cbn. split; [reflexivity | split; [now left | now eexists]].
  - cbn. now split.
  - cbn. split; [reflexivity | split; [now left | now eexists]].
Qed.

(** The two requests of a [POST] that made two. *)
Lemma POST_two_calls payload create pub :
  snd (POST p (Got (Some payload))) = [create; pub] ->
  exists creation,
    snd (createMediaContainer p payload) = [create]
    /\ fst (createMediaContainer p payload) = Returned creation
    /\ snd (publishMedia p (data_id creation) (scheduledPublishTime payload))
       = [pub].
Proof.
  intros H.
  destruct (present (INSTAGRAM_USER_ID (config p))) eqn:Eu;
    [|unfold POST in H; rewrite Eu in H; discriminate].
  destruct (present (INSTAGRAM_ACCESS_TOKEN (config p))) eqn:Et;
    [|unfold POST in H; rewrite Eu, Et in H; discriminate].
  destruct (present (videoUrl payload)) eqn:Ev;
    [|unfold POST in H; rewrite Eu, Et, Ev in H; discriminate].
  rewrite (POST_guarded payload Eu Et Ev) in H. cbn [snd] in H.
  rewrite publish_unfold in H.
  destruct (createMediaContainer_spec payload) as (c & Hc & _).
  rewrite Hc in H.
  destruct (fst (createMediaContainer p payload)) as [creation|e];
    [|discriminate].
  destruct (publishMedia_spec (data_id creation)
              (scheduledPublishTime payload)) as (c' & Hp & _).
  cbv zeta in H. cbn [snd] in H. rewrite Hp in H. cbn [app] in H.
  injection H as <- <-. now exists creation.
Qed.

Lemma present_text o : present o = true -> Some (text_of o) = o.
Proof. destruct o; [reflexivity | discriminate]. Qed.

End PublishFacts.

(** X28. The publish route asks the Graph API for the publication of a media
    container only after the request for that container was answered with
    [response.ok], and names in it the id that answer carries.  It makes no
    request when a setting or the [videoUrl] of the body is missing, at most
    two requests otherwise, the first one for the container, and none after
    a request that was not accepted.  Every request is a POST that carries
    the access token of the settings. *)
Theorem publish_needs_container :
  forall (p : PublishRoute.Platform)
         (requestJson : PublishRoute.Reply (option PublishRoute.PublishPayload)),
    let calls := snd (PublishRoute.POST p requestJson) in
    (calls = []
     \/ (exists create,
            calls = [create]
            /\ PublishRoute.is_create p create
            /\ forall data, ~ PublishRoute.accepted p 0 create data)
     \/ (exists create pub creation,
            calls = [create; pub]
            /\ PublishRoute.is_create p create
            /\ PublishRoute.is_publish p pub
            /\ PublishRoute.accepted p 0 create creation
            /\ PublishRoute.get "creation_id" (PublishRoute.call_body pub)
               = Some (PublishRoute.text_of (PublishRoute.data_id creation))))
    /\ (forall call,
          In call calls ->
          PublishRoute.call_method call = "POST"
          /\ PublishRoute.get "access_token" (PublishRoute.call_body call)
             = PublishRoute.INSTAGRAM_ACCESS_TOKEN (PublishRoute.config p)
          /\ PublishRoute.present
               (PublishRoute.INSTAGRAM_ACCESS_TOKEN (PublishRoute.config p))
             = true
          /\ PublishRoute.present
               (PublishRoute.INSTAGRAM_USER_ID (PublishRoute.config p))
             = true
          /\ exists payload,
               requestJson = PublishRoute.Got (Some payload)
               /\ PublishRoute.present (PublishRoute.videoUrl payload) = true).
Proof.
  intros p requestJson calls. subst calls.
  destruct (PublishRoute.present
              (PublishRoute.INSTAGRAM_USER_ID (PublishRoute.config p)))
    eqn:Eu;
    [|destruct (POST_unguarded p requestJson) as [-> _];
      [congruence | split; [now left | intros c []]]].
  destruct (PublishRoute.present
              (PublishRoute.INSTAGRAM_ACCESS_TOKEN (PublishRoute.config p)))
    eqn:Et;
    [|destruct (POST_unguarded p requestJson) as [-> _];
      [congruence | split; [now left | intros c []]]].
  destruct requestJson as [[payload|]|m];
    [|destruct (POST_unguarded p (PublishRoute.Got None)) as [-> _];
      [congruence | split; [now left | intros c []]]
     |destruct (POST_unguarded p (PublishRoute.Rejected m)) as [-> _];
      [congruence | split; [now left | intros c []]]].
  destruct (PublishRoute.present (PublishRoute.videoUrl payload)) eqn:Ev;
    [|destruct (POST_unguarded p (PublishRoute.Got (Some payload))) as [-> _];
      [intros payload' [= <-]; congruence
      | split; [now left | intros c []]]].
  rewrite (POST_guarded p payload Eu Et Ev). cbn [snd].
  rewrite publish_unfold.
  destruct (createMediaContainer_spec p payload)
    as (create & Hc & Hcreate & Hm & Htok & _ & _ & _ & _ & _ & Hacc & _).
  rewrite Hc. rewrite (present_text _ Et) in Htok.
  destruct (fst (PublishRoute.createMediaContainer p payload))
    as [creation|e] eqn:Ecre.
  - destruct (publishMedia_spec p (PublishRoute.data_id creation)
                (PublishRoute.scheduledPublishTime payload))
      as (pub & Hp & Hpub & Hm' & Htok' & Hid & _).
    rewrite (present_text _ Et) in Htok'.
    cbv zeta. cbn [snd]. rewrite Hp. cbn [app]. split.
    + right. right. exists create, pub, creation.
      repeat split; try assumption. now apply Hacc.
    + intros call [<- | [<- | []]]; repeat split; try assumption;
        now exists payload.
  - cbn [snd]. split.
    + right. left. exists create. repeat split; try assumption.
      intros data H. apply Hacc in H. discriminate.
    + intros call [<- | []]; repeat split; try assumption; now exists payload.
Qed.

Lemma publish_needs_container_witness :
  PublishRoute.get "access_token"
    (PublishRoute.call_body
       (nth 1 (snd (PublishRoute.POST Samples.graph
                      (PublishRoute.Got (Some Samples.publish_payload))))
            (PublishRoute.mkFetchCall "" "" "" [])))
  = Some "token".
Proof.
  apply (proj2 (publish_needs_container Samples.graph
                  (PublishRoute.Got (Some Samples.publish_payload)))
               (nth 1 (snd (PublishRoute.POST Samples.graph
                              (PublishRoute.Got
                                 (Some Samples.publish_payload))))
                    (PublishRoute.mkFetchCall "" "" "" []))).
  right. left. reflexivity.
Defined.

(** X29. The handler of the publish route raises only for a body that is the
    JSON [null].  Otherwise it answers 200, 400 or 500: 200 only
    when both requests were accepted, with the id of the publication (or of
    the container when the publication has none), the id of the container,
    and [scheduled] or [published] as the publication has [success] or not;
    and when the Graph API refuses a request, 400 with the message of the
    error of the Graph API (or a default message) and its answer as
    details, that request being the last one made. *)
Theorem publish_answers :
  forall (p : PublishRoute.Platform)
         (requestJson : PublishRoute.Reply (option PublishRoute.PublishPayload)),
    let calls := snd (PublishRoute.POST p requestJson) in
    match fst (PublishRoute.POST p requestJson) with
    | PublishRoute.Raised _ => requestJson = PublishRoute.Got None
    | PublishRoute.Returned response =>
        (PublishRoute.status response = 200
            \/ PublishRoute.status response = 400
            \/ PublishRoute.status response = 500)
        /\ (PublishRoute.status response = 200 ->
            exists create pub creation publication scheduled,
              calls = [create; pub]
              /\ PublishRoute.accepted p 0 create creation
              /\ PublishRoute.accepted p 1 pub publication
              /\ PublishRoute.body response
                 = PublishRoute.PublishedBody
                     (match PublishRoute.data_id publication with
                      | Some i => Some i
                      | None => PublishRoute.data_id creation
                      end)
                     (PublishRoute.data_id creation)
                     scheduled
                     (if PublishRoute.data_success publication
                      then "scheduled" else "published"))
        /\ (forall k call answer details,
              nth_error calls k = Some call ->
              PublishRoute.fetch p k call = PublishRoute.Got answer ->
              PublishRoute.ok answer = false ->
              PublishRoute.json answer = PublishRoute.Got details ->
              List.length calls = S k
              /\ PublishRoute.status response = 400
              /\ PublishRoute.body response
                 = PublishRoute.ErrorBody
                     (match PublishRoute.error_message details with
                      | Some message => message
                      | None =>
                          if Nat.eqb k 0
                          then "Failed to create media container"
                          else "Failed to publish media"
                      end)
                     (Some details))
    end.
Proof.
  intros p requestJson calls. subst calls.
  assert (Hstop :
    (forall payload,
        requestJson = PublishRoute.Got (Some payload) ->
        PublishRoute.present
          (PublishRoute.INSTAGRAM_USER_ID (PublishRoute.config p)) = true ->
        PublishRoute.present
          (PublishRoute.INSTAGRAM_ACCESS_TOKEN (PublishRoute.config p)) = true ->
        PublishRoute.present (PublishRoute.videoUrl payload) = true -> False) ->
    match fst (PublishRoute.POST p requestJson) with
    | PublishRoute.Raised _ => requestJson = PublishRoute.Got None
    | PublishRoute.Returned response =>
        (PublishRoute.status response = 200
            \/ PublishRoute.status response = 400
            \/ PublishRoute.status response = 500)
        /\ (PublishRoute.status response = 200 ->
            exists create pub creation publication scheduled,
              snd (PublishRoute.POST p requestJson) = [create; pub]
              /\ PublishRoute.accepted p 0 create creation
              /\ PublishRoute.accepted p 1 pub publication
              /\ PublishRoute.body response
                 = PublishRoute.PublishedBody
                     (match PublishRoute.data_id publication with
                      | Some i => Some i
                      | None => PublishRoute.data_id creation
                      end)
                     (PublishRoute.data_id creation)
                     scheduled
                     (if PublishRoute.data_success publication
                      then "scheduled" else "published"))
        /\ (forall k call answer details,
              nth_error (snd (PublishRoute.POST p requestJson)) k = Some call ->
              PublishRoute.fetch p k call = PublishRoute.Got answer ->
              PublishRoute.ok answer = false ->
              PublishRoute.json answer = PublishRoute.Got details ->
              List.length (snd (PublishRoute.POST p requestJson)) = S k
              /\ PublishRoute.status response = 400
              /\ PublishRoute.body response
                 = PublishRoute.ErrorBody
                     (match PublishRoute.error_message details with
                      | Some message => message
                      | None =>
                          if Nat.eqb k 0
                          then "Failed to create media container"
                          else "Failed to publish media"
                      end)
                     (Some details))
    end).
  { intros H. destruct (POST_unguarded p requestJson H) as [Hn Hr].
    rewrite Hn.
    destruct (fst (PublishRoute.POST p requestJson)) as [response|e] eqn:E;
      [|exact Hr].
    destruct Hr as [Hs (message & Hb)].
    split; [tauto|]. split.
    - intros H2. rewrite H2 in Hs. destruct Hs; discriminate.
    - intros [|k] call answer details Hk; discriminate. }
  destruct (PublishRoute.present
              (PublishRoute.INSTAGRAM_USER_ID (PublishRoute.config p)))
    eqn:Eu; [|apply Hstop; congruence].
  destruct (PublishRoute.present
              (PublishRoute.INSTAGRAM_ACCESS_TOKEN (PublishRoute.config p)))
    eqn:Et; [|apply Hstop; congruence].
  destruct requestJson as [[payload|]|m];
    [|apply Hstop; congruence..].
  destruct (PublishRoute.present (PublishRoute.videoUrl payload)) eqn:Ev;
    [|apply Hstop; intros payload' [= <-]; congruence].
  clear Hstop.
  rewrite (POST_guarded p payload Eu Et Ev). cbn [fst snd].
  rewrite publish_unfold.
  destruct (createMediaContainer_spec p payload)
    as (create & Hc & _ & _ & _ & _ & _ & _ & _ & _ & Hacc & Hrefused).
  rewrite Hc.
  destruct (fst (PublishRoute.createMediaContainer p payload))
    as [creation|e] eqn:Ecre.
  - destruct (publishMedia_spec p (PublishRoute.data_id creation)
                (PublishRoute.scheduledPublishTime payload))
      as (pub & Hp & _ & _ & _ & _ & _ & _ & Hacc' & Hrefused').
    cbv zeta. cbn [fst snd]. rewrite Hp. cbn [app].
    assert (Hcre : PublishRoute.accepted p 0 create creation)
      by now apply Hacc.
    destruct (fst (PublishRoute.publishMedia p (PublishRoute.data_id creation)
                     (PublishRoute.scheduledPublishTime payload)))
      as [publication|e] eqn:Epub.
    + assert (Hpubl : PublishRoute.accepted p 1 pub publication)
        by now apply Hacc'.
      assert (Hnot : forall k call answer,
                nth_error [create; pub] k = Some call ->
                PublishRoute.fetch p k call = PublishRoute.Got answer ->
                PublishRoute.ok answer = false -> False).
      { intros [|[|k]] call answer Hk Hf Ho; cbn in Hk.
        - injection Hk as <-. destruct Hcre as (r & Hr & Hok & _).
          congruence.
        - injection Hk as <-. destruct Hpubl as (r & Hr & Hok & _).
          congruence.
        - destruct k; discriminate. }
      unfold PublishRoute.published.
      destruct (PublishRoute.data_scheduled_publish_time publication)
        as [seconds|];
        [destruct (PublishRoute.nonzero seconds);
         [destruct (PublishRoute.toISOString p seconds) as [iso|[m|]]|]|];
        cbn [PublishRoute.recover PublishRoute.status PublishRoute.body];
        (split; [tauto|]);
        (split;
         [first [discriminate
                | intros _; eexists create, pub, creation, publication, _;
                  repeat split; try assumption; reflexivity]
         | intros k call answer details Hk Hf Ho _; exfalso;
           exact (Hnot k call answer Hk Hf Ho)]).
    + assert (Hlast : forall k call answer details,
                nth_error [create; pub] k = Some call ->
                PublishRoute.fetch p k call = PublishRoute.Got answer ->
                PublishRoute.ok answer = false ->
                PublishRoute.json answer = PublishRoute.Got details ->
                k = 1
                /\ e = PublishRoute.InstagramAPIError
                         (match PublishRoute.error_message details with
                          | Some m => m
                          | None => "Failed to publish media"
                          end) details).
      { intros [|[|k]] call answer details Hk Hf Ho Hj; cbn in Hk.
        - injection Hk as <-. destruct Hcre as (r & Hr & Hok & _).
          congruence.
        - injection Hk as <-. split; [reflexivity|].
          assert (Hx : PublishRoute.Raised (A := PublishRoute.GraphData) e
                       = PublishRoute.Raised
                           (PublishRoute.InstagramAPIError
                              (match PublishRoute.error_message details with
                               | Some m => m
                               | None => "Failed to publish media"
                               end) details)).
          { apply Hrefused'. now exists answer. }
          now injection Hx.
        - destruct k; discriminate. }
      split; [destruct e as [m d|[m|]]; cbn; tauto|].
      split.
      * intros H200. exfalso. destruct e as [m d|[m|]]; discriminate.
      * intros k call answer details Hk Hf Ho Hj.
        destruct (Hlast k call answer details Hk Hf Ho Hj) as [-> ->].
        now repeat split.
  - cbn [fst snd].
    assert (Hlast : forall k call answer details,
              nth_error [create] k = Some call ->
              PublishRoute.fetch p k call = PublishRoute.Got answer ->
              PublishRoute.ok answer = false ->
              PublishRoute.json answer = PublishRoute.Got details ->
              k = 0
              /\ e = PublishRoute.InstagramAPIError
                       (match PublishRoute.error_message details with
                        | Some m => m
                        | None => "Failed to create media container"
                        end) details).
    { intros [|k] call answer details Hk Hf Ho Hj; cbn in Hk.
      - injection Hk as <-. split; [reflexivity|].
        assert (Hx : PublishRoute.Raised (A := PublishRoute.GraphData) e
                     = PublishRoute.Raised
                         (PublishRoute.InstagramAPIError
                            (match PublishRoute.error_message details with
                             | Some m => m
                             | None => "Failed to create media container"
                             end) details)).
        { apply Hrefused. now exists answer. }
        now injection Hx.
      - destruct k; discriminate. }
    split; [destruct e as [m d|[m|]]; cbn; tauto|].
    split.
    + intros H200. exfalso. destruct e as [m d|[m|]]; discriminate.
    + intros k call answer details Hk Hf Ho Hj.
      destruct (Hlast k call answer details Hk Hf Ho Hj) as [-> ->].
      now repeat split.
Qed.

Lemma publish_answers_witness :
  exists response,
    fst (PublishRoute.POST Samples.refusing_graph
           (PublishRoute.Got (Some Samples.publish_payload)))
    = PublishRoute.Returned response
    /\ PublishRoute.status response = 400
    /\ PublishRoute.body response
       = PublishRoute.ErrorBody "Invalid OAuth access token"
           (Some (PublishRoute.mkGraphData (Some "Invalid OAuth access token")
                    None false None)).
Proof.
  pose proof (publish_answers Samples.refusing_graph
                (PublishRoute.Got (Some Samples.publish_payload))) as H.
  cbv zeta in H.
  destruct (fst (PublishRoute.POST Samples.refusing_graph
                   (PublishRoute.Got (Some Samples.publish_payload))))
    as [response|e]; [|discriminate H].
  exists response. split; [reflexivity|].
  destruct H as (_ & _ & H).
  refine (proj2 (H 0 _ _ _ eq_refl eq_refl eq_refl eq_refl)).
Defined.

(** X30. A post is scheduled in seconds: when the body names a time, the
    request for the publication carries [published=false] and, as
    [scheduled_publish_time], the whole seconds of that time since the epoch,
    the milliseconds being dropped, or [NaN] when the time is not a date: the
    route does not check it.  Without a time the request carries neither
    parameter.  The container is asked for with the [videoUrl] of the body,
    and with a caption only when the body has one that is not empty. *)
Theorem publish_schedule_in_seconds :
  forall (p : PublishRoute.Platform) (payload : PublishRoute.PublishPayload)
         (create pub : PublishRoute.FetchCall),
    snd (PublishRoute.POST p (PublishRoute.Got (Some payload)))
    = [create; pub] ->
    PublishRoute.get "video_url" (PublishRoute.call_body create)
    = PublishRoute.videoUrl payload
    /\ (PublishRoute.get "caption" (PublishRoute.call_body create) = None
        <-> PublishRoute.present (PublishRoute.caption payload) = false)
    /\ (forall time,
          PublishRoute.scheduledPublishTime payload = Some time ->
          time <> "" ->
          PublishRoute.get "published" (PublishRoute.call_body pub)
          = Some "false"
          /\ match PublishRoute.getTime p time with
             | Some ms =>
                 exists seconds,
                   PublishRoute.get "scheduled_publish_time"
                     (PublishRoute.call_body pub)
                   = Some (JS.string_of_Z seconds)
                   /\ (1000 * seconds <= ms < 1000 * seconds + 1000)%Z
             | None =>
                 PublishRoute.get "scheduled_publish_time"
                   (PublishRoute.call_body pub)
                 = Some "NaN"
             end)
    /\ (PublishRoute.present (PublishRoute.scheduledPublishTime payload)
        = false ->
        PublishRoute.get "published" (PublishRoute.call_body pub) = None
        /\ PublishRoute.get "scheduled_publish_time"
             (PublishRoute.call_body pub) = None).
Proof.
  intros p payload create pub Hcalls.
  assert (Hv : PublishRoute.present (PublishRoute.videoUrl payload) = true).
  { unfold PublishRoute.POST in Hcalls.
    destruct (negb _ || negb _) in Hcalls; [discriminate|].
    destruct (PublishRoute.present (PublishRoute.videoUrl payload));
      [reflexivity | discriminate]. }
  apply POST_two_calls in Hcalls.
  destruct Hcalls as (creation & Hc & _ & Hp).
  destruct (createMediaContainer_spec p payload)
    as (c & Hc' & _ & _ & _ & Hurl & _ & Hcap & _).
  rewrite Hc in Hc'. injection Hc' as <-.
  destruct (publishMedia_spec p (PublishRoute.data_id creation)
              (PublishRoute.scheduledPublishTime payload))
    as (c' & Hp' & _ & _ & _ & _ & Htime & Hpublished & _).
  rewrite Hp in Hp'. injection Hp' as <-.
  split; [now rewrite Hurl, present_text|]. split; [|split].
  - rewrite Hcap.
    destruct (PublishRoute.caption payload) as [[|ch s]|]; cbn;
      split; congruence.
  - intros time Ht Hne. rewrite Ht in Htime, Hpublished.
    assert (Hpres : PublishRoute.present (Some time) = true)
      by (destruct time; [congruence | reflexivity]).
    rewrite Hpres in Htime, Hpublished. split; [exact Hpublished|].
    unfold PublishRoute.timestamp in Htime. cbn [PublishRoute.text_of] in Htime.
    destruct (PublishRoute.getTime p time) as [ms|]; [|exact Htime].
    exists (ms / 1000)%Z. split; [exact Htime|].
    pose proof (Z.div_mod ms 1000 ltac:(lia)) as Hd.
    pose proof (Z.mod_pos_bound ms 1000 ltac:(lia)) as Hm. lia.
  - intros Hnone. rewrite Hnone in Htime, Hpublished. now split.
Qed.

Lemma publish_schedule_in_seconds_witness :
  let calls :=
    snd (PublishRoute.POST Samples.graph
           (PublishRoute.Got (Some Samples.publish_payload))) in
  let none := PublishRoute.mkFetchCall "" "" "" [] in
  PublishRoute.get "published" (PublishRoute.call_body (nth 1 calls none))
  = Some "false".
Proof.
  intros calls none.
  refine (proj1 (proj1 (proj2 (proj2
            (publish_schedule_in_seconds Samples.graph Samples.publish_payload
               (nth 0 calls none) (nth 1 calls none) eq_refl)))
            "2023-11-14T23:13:20.500Z" eq_refl _)).
  discriminate.
Defined.
